(** * Impala core: result sink, cluster membership manager, hash table

    A shallow embedding of three C++ translation units

    - [be/src/exec/blocking-plan-root-sink.cc]      (module [Sink])
    - [be/src/exec/hash-table.inline.h]             (module [HT])
    - [be/src/scheduling/cluster-membership-mgr.cc] (module [CMM])

    followed by the properties the design document states about them
    (modules [SinkProofs], [HTProofs], [CMMProofs]).

    Integers of the source ([int], [int64_t], [uint32_t]) are [Z]; pointers
    are [option] values or addresses with [0] for [NULL]; the hash maps of
    the membership manager are [gmap]s. No arithmetic of the modelled code
    comes near the bounds of its type (bucket indices stay below twice the
    number of buckets, the cursor of a batch below its length, versions
    count updates), so wrap-around is not written out. Classes declared in
    files outside the three above are modelled from the design document and
    say so. *)

From Stdlib Require Import ZArith Lia Zdivisibility.
From stdpp Require Import gmap strings list fin_maps.

Local Open Scope Z_scope.

(* ===================================================================== *)
(** * The blocking plan-root sink *)
(* ===================================================================== *)

Module Sink.

(** Modelled from the spec: [SenderState] (declared in plan-root-sink.h,
    not among the sources), "sender_state in {ROWS_PENDING, EOS,
    CLOSED_NOT_EOS}, initially ROWS_PENDING". *)
Inductive SenderState := ROWS_PENDING | EOS | CLOSED_NOT_EOS.

#[global] Instance SenderState_eq_dec : EqDecision SenderState.
Proof. solve_decision. Defined.

Inductive Status :=
  | OK
  | CANCELLED
  | EXPR_ERROR
  | ROWS_PRODUCED_LIMIT_EXCEEDED.   (* the error of the sink's pre-check *)

(** A row of a batch and a converted row of a result set. *)
Definition TupleRow := Z.
Definition ResultRow := Z.

(** [RowBatch]: only [num_rows()] and the rows themselves matter here. *)
Definition RowBatch := list TupleRow.
Definition num_rows (batch : RowBatch) : Z := Z.of_nat (length batch).

(** The parts of [RuntimeState] the sink reads. *)
Record RuntimeState := {
  is_cancelled : bool;
  GetQueryStatus : Status
}.

(** The client's buffer. *)
Record QueryResultSet := { rs_rows : list ResultRow }.

#[global] Instance QueryResultSet_inhabited : Inhabited QueryResultSet :=
  populate {| rs_rows := [] |}.

(** Result sets live in the consumer's memory; the sink only borrows a
    pointer to one of them. A result set nobody has written to is empty. *)
Definition ptr := nat.

Record SinkState := {
  sender_state_ : SenderState;
  results_ : option ptr;              (* QueryResultSet*; None is nullptr *)
  num_rows_requested_ : Z;            (* int *)
  memory : gmap ptr QueryResultSet;   (* the result sets pointed to *)
  sender_cv_notified : nat;           (* calls of sender_cv_.NotifyAll() *)
  consumer_cv_notified : nat          (* calls of consumer_cv_.NotifyAll() *)
}.

Definition initial : SinkState :=
  {| sender_state_ := ROWS_PENDING; results_ := None; num_rows_requested_ := 0;
     memory := ∅; sender_cv_notified := 0; consumer_cv_notified := 0 |}.

Section WithEvaluators.

(** The output expression evaluators ([output_expr_evals_]); [None] is an
    evaluation error. *)
Variable output_expr_evals : TupleRow -> option ResultRow.

(** Rows [start_idx, start_idx + n) of a batch. *)
Definition batch_rows (batch : RowBatch) (start_idx n : Z) : list TupleRow :=
  take (Z.to_nat n) (drop (Z.to_nat start_idx) batch).

(** Modelled from the spec: [QueryResultSet::AddRows]
    (service/query-result-set.h is not among the sources). It copies
    [num_rows] rows of [batch], from [start_idx] on, into the result set
    "via the output expression evaluators"; an error is reported as a
    status and nothing is appended. *)
Definition AddRows (rs : QueryResultSet) (batch : RowBatch) (start_idx n : Z)
  : Status * QueryResultSet :=
  match mapM output_expr_evals (batch_rows batch start_idx n) with
  | Some vs => (OK, {| rs_rows := rs_rows rs ++ vs |})
  | None => (EXPR_ERROR, rs)
  end.

(** ** Producer *)

(** Outcome of one iteration of the [while] loop of [Send], from taking
    the lock to releasing it. *)
Inductive PassResult :=
  | Waiting                      (* sender_cv_.Wait(l): still blocked *)
  | Returned (s : Status)        (* Send returns *)
  | Continue (current_batch_row : Z).

(** [num_to_fetch] as computed by lines 60-61. *)
Definition num_to_fetch (batch : RowBatch) (current_batch_row requested : Z) : Z :=
  let n := num_rows batch - current_batch_row in
  if 0 <? requested then Z.min n requested else n.

(** Body of the loop of [Send] (lines 49-69), entered with
    [current_batch_row < batch->num_rows()]. *)
Definition Send_pass (state : RuntimeState) (batch : RowBatch)
    (current_batch_row : Z) (s : SinkState) : PassResult * SinkState :=
  match results_ s, is_cancelled state with
  | None, false => (Waiting, s)
  | _, true => (Returned CANCELLED, s)          (* RETURN_IF_CANCELLED *)
  | Some p, false =>
      let n := num_to_fetch batch current_batch_row (num_rows_requested_ s) in
      match AddRows (memory s !!! p) batch current_batch_row n with
      | (OK, rs') =>
          (Continue (current_batch_row + n),
           {| sender_state_ := sender_state_ s;
              results_ := None;
              num_rows_requested_ := num_rows_requested_ s;
              memory := <[p := rs']> (memory s);
              sender_cv_notified := sender_cv_notified s;
              consumer_cv_notified := S (consumer_cv_notified s) |})
      | (err, _) => (Returned err, s)              (* RETURN_IF_ERROR *)
      end
  end.

Definition FlushFinal (s : SinkState) : Status * SinkState :=
  (OK, {| sender_state_ := EOS;
          results_ := results_ s;
          num_rows_requested_ := num_rows_requested_ s;
          memory := memory s;
          sender_cv_notified := sender_cv_notified s;
          consumer_cv_notified := S (consumer_cv_notified s) |}).

Definition Close (s : SinkState) : SinkState :=
  {| sender_state_ :=
       if decide (sender_state_ s = ROWS_PENDING) then CLOSED_NOT_EOS
       else sender_state_ s;
     results_ := results_ s;
     num_rows_requested_ := num_rows_requested_ s;
     memory := memory s;
     sender_cv_notified := sender_cv_notified s;
     consumer_cv_notified := S (consumer_cv_notified s) |}.

Definition Cancel (s : SinkState) : SinkState :=
  {| sender_state_ := sender_state_ s;
     results_ := results_ s;
     num_rows_requested_ := num_rows_requested_ s;
     memory := memory s;
     sender_cv_notified := S (sender_cv_notified s);
     consumer_cv_notified := S (consumer_cv_notified s) |}.

(** ** Consumer *)

(** Lines 108-110 of [GetNext]: publish the request. *)
Definition GetNext_publish (results : ptr) (num_results : Z) (s : SinkState)
  : SinkState :=
  {| sender_state_ := sender_state_ s;
     results_ := Some results;
     num_rows_requested_ := num_results;
     memory := memory s;
     sender_cv_notified := S (sender_cv_notified s);
     consumer_cv_notified := consumer_cv_notified s |}.

(** The condition of the wait loop, lines 114-115. *)
Definition GetNext_waits (state : RuntimeState) (s : SinkState) : bool :=
  bool_decide (sender_state_ s = ROWS_PENDING)
  && bool_decide (results_ s <> None)
  && negb (is_cancelled state).

(** Lines 119-120: what [GetNext] hands back once it no longer waits;
    [None] while it still waits. *)
Definition GetNext_return (state : RuntimeState) (s : SinkState)
  : option (bool * Status) :=
  if GetNext_waits state s then None
  else Some (bool_decide (sender_state_ s = EOS), GetQueryStatus state).

(** ** The critical sections as operations

    Every piece of code between two releases of [lock_] is atomic; a run
    of the sink is a sequence of such pieces. *)
Inductive Op :=
  | OpSendPass (state : RuntimeState) (batch : RowBatch) (current_batch_row : Z)
  | OpFlushFinal
  | OpClose
  | OpCancel
  | OpGetNextPublish (results : ptr) (num_results : Z)
  | OpGetNextReturn (state : RuntimeState).

Definition is_FlushFinal (o : Op) : bool :=
  match o with OpFlushFinal => true | _ => false end.

(** One operation; a [GetNext] that returns contributes its [(eos, status)]. *)
Definition exec (o : Op) (s : SinkState) : SinkState * option (bool * Status) :=
  match o with
  | OpSendPass state batch cur => ((Send_pass state batch cur s).2, None)
  | OpFlushFinal => ((FlushFinal s).2, None)
  | OpClose => (Close s, None)
  | OpCancel => (Cancel s, None)
  | OpGetNextPublish p n => (GetNext_publish p n s, None)
  | OpGetNextReturn state => (s, GetNext_return state s)
  end.

(** A run; the second component lists what the [GetNext] calls returned. *)
Fixpoint run (ops : list Op) (s : SinkState) : SinkState * list (bool * Status) :=
  match ops with
  | [] => (s, [])
  | o :: ops' =>
      let '(s1, r) := exec o s in
      let '(s2, rs) := run ops' s1 in
      (s2, match r with Some x => x :: rs | None => rs end)
  end.

(** ** [Send], with its consumer *)

(** The [while] loop of [Send] (lines 48-70) from [current_batch_row] on,
    pass after pass, with a consumer that answers every wait of the
    producer with its next [GetNext]: [requests] lists the result set and
    the number of rows of each. A [GetNext] can only be issued while
    [results_] is [nullptr] (the one before it has returned), which is
    when the producer waits. The result is [Returned] when [Send] returns,
    [Waiting] when the producer still waits after the last request. [fuel]
    bounds the passes; [None] is a loop that needs more. *)
Fixpoint Send_loop (fuel : nat) (state : RuntimeState) (batch : RowBatch)
    (current_batch_row : Z) (requests : list (ptr * Z)) (s : SinkState)
  : option (PassResult * SinkState) :=
  if current_batch_row <? num_rows batch then
    match fuel with
    | O => None
    | S fuel' =>
        match Send_pass state batch current_batch_row s with
        | (Continue current_batch_row', s') =>
            Send_loop fuel' state batch current_batch_row' requests s'
        | (Returned status, s') => Some (Returned status, s')
        | (Waiting, _) =>
            match requests with
            | [] => Some (Waiting, s)
            | (results, num_results) :: requests' =>
                Send_loop fuel' state batch current_batch_row requests'
                  (GetNext_publish results num_results s)
            end
        end
    end
  else Some (Returned OK, s).

(** [Send] (lines 39-72). [rows_produced_check] is the status that
    [PlanRootSink::UpdateAndCheckRowsProducedLimit(state, batch)] returns in
    line 42 (the function is not among the sources; the spec names it the
    "sink pre-check", with the error [ROWS_PRODUCED_LIMIT_EXCEEDED]):
    [RETURN_IF_ERROR] hands any error back before the loop is entered and
    before any member the lock guards is touched. [ValidateCollectionSlots]
    (line 41) returns nothing. The loop starts at row 0. *)
Definition Send (fuel : nat) (state : RuntimeState) (batch : RowBatch)
    (rows_produced_check : Status) (requests : list (ptr * Z)) (s : SinkState)
  : option (PassResult * SinkState) :=
  match rows_produced_check with
  | OK => Send_loop fuel state batch 0 requests s
  | err => Some (Returned err, s)
  end.

(** The request that is pending in a state, if any, as a list. *)
Definition pending_request (s : SinkState) : list Z :=
  match results_ s with
  | Some _ => [num_rows_requested_ s]
  | None => []
  end.

(** The number of rows that successive requests obtain from [remaining]
    rows: a request for [n > 0] rows obtains [min (remaining, n)] of them,
    a request with [n <= 0] all that remain; requests made when no row
    remains obtain none. *)
Fixpoint rows_fetched (remaining : Z) (num_results : list Z) : Z :=
  match num_results with
  | [] => 0
  | n :: num_results' =>
      if remaining <=? 0 then 0
      else
        let m := if 0 <? n then Z.min remaining n else remaining in
        m + rows_fetched (remaining - m) num_results'
  end.

End WithEvaluators.

(** ** Data for the scenarios *)

Definition running : RuntimeState := {| is_cancelled := false; GetQueryStatus := OK |}.

(** The consumer's result set is at address 0; the evaluators copy rows as
    they are. *)
Definition five_rows : RowBatch := [10; 20; 30; 40; 50].

(** Evaluators that fail on the row [bad] and copy every other row. *)
Definition fails_on (bad : TupleRow) : TupleRow -> option ResultRow :=
  fun row => if row =? bad then None else Some row.

End Sink.

(* ===================================================================== *)
(** * The hash table *)
(* ===================================================================== *)

Module HT.

(** Modelled from the spec: [Iterator::BUCKET_NOT_FOUND], the result of a
    probe that finds neither the row nor a free bucket (the constant is
    declared in hash-table.h, not among the sources); any value that is not
    a bucket index serves. *)
Definition BUCKET_NOT_FOUND : Z := -1.

Inductive Status := OK | MEM_LIMIT_EXCEEDED.

(** [union HtData { Tuple* tuple; FlatRowPtr flat_row; }]: one machine word,
    read as either member. *)
Definition HtData := Z.

(** [DuplicateNode*]; [0] is [NULL]. *)
Definition NodePtr := Z.

(** Modelled from the spec: "[DuplicateNode]: [HtData] + matched flag +
    next pointer (linked list)" (hash-table.h is not among the sources). *)
Record DuplicateNode := {
  htdata : HtData;
  node_matched : bool;
  Next : NodePtr
}.

(** Modelled from the spec: "[Bucket]: filled flag, matched flag,
    has-duplicates flag, and [BucketData] which is either [HtData] (inline
    row handle) or a pointer to the head of a [DuplicateNode] chain". The
    union [BucketData] is one word, read as either member. *)
Record Bucket := {
  IsFilled : bool;
  IsMatched : bool;
  HasDuplicates : bool;
  GetBucketData : Z
}.

Definition GetDuplicate (b : Bucket) : NodePtr := GetBucketData b.

Definition empty_bucket : Bucket :=
  {| IsFilled := false; IsMatched := false; HasDuplicates := false;
     GetBucketData := 0 |}.

Definition empty_node : DuplicateNode :=
  {| htdata := 0; node_matched := false; Next := 0 |}.

(** The part of [HashTableCtx] that [Probe] and [Insert] touch.
    [Equals inclusive h] stands for
    [Equals<INCLUSIVE_EQUALITY>(GetRow(h, scratch_row_))]: whether the build
    row behind the handle [h] equals the cached expression values of the
    current row. *)
Record HashTableCtx := {
  CurExprValuesHash : Z;                  (* uint32_t *)
  Equals : bool -> HtData -> bool;
  num_probes_ : Z;
  num_hash_collisions_ : Z;
  travel_length_ : Z
}.

(** The members of [HashTable] that the functions of the file use, and the
    memory of the duplicate nodes. *)
Record HashTable := {
  buckets_ : list Bucket;
  hash_array_ : list Z;                   (* uint32_t per bucket *)
  num_buckets_ : Z;
  num_filled_buckets_ : Z;
  num_duplicate_nodes_ : Z;
  num_buckets_with_duplicates_ : Z;
  node_remaining_current_page_ : Z;
  next_node_ : NodePtr;
  node_memory : gmap Z DuplicateNode;     (* the data pages, by address *)
  num_data_pages : Z;                     (* data_pages_.size() *)
  quadratic_probing : bool;
  stores_duplicates : bool;
  stores_tuples : bool
}.

(** Array reads. The indices [Probe] computes are masked with
    [num_buckets - 1] and stay inside the arrays. *)
Definition bucket_at (bs : list Bucket) (i : Z) : Bucket :=
  if i <? 0 then empty_bucket else default empty_bucket (bs !! Z.to_nat i).

Definition hash_at (hs : list Z) (i : Z) : Z :=
  if i <? 0 then 0 else default 0 (hs !! Z.to_nat i).

Definition node_at (t : HashTable) (p : NodePtr) : DuplicateNode :=
  default empty_node (node_memory t !! p).

(** [HashTable::GetRow<TYPE>(bucket, row, bucket_data)]: the handle of the
    row a bucket stands for (the head node's when it has duplicates). Both
    branches store the bucket's word in [*bucket_data]. *)
Definition GetRow (t : HashTable) (b : Bucket) : HtData :=
  if stores_duplicates t && HasDuplicates b
  then htdata (node_at t (GetDuplicate b))
  else GetBucketData b.

Record ProbeResult := {
  pr_bucket_idx : Z;
  pr_found : bool;
  pr_bd : Z;                  (* *bd on return *)
  pr_ctx : HashTableCtx;
  pr_examined : list Z        (* ghost: the buckets looked at, in order *)
}.

Definition count_collision (c : HashTableCtx) : HashTableCtx :=
  {| CurExprValuesHash := CurExprValuesHash c; Equals := Equals c;
     num_probes_ := num_probes_ c;
     num_hash_collisions_ := num_hash_collisions_ c + 1;
     travel_length_ := travel_length_ c |}.

Definition count_probe (c : HashTableCtx) : HashTableCtx :=
  {| CurExprValuesHash := CurExprValuesHash c; Equals := Equals c;
     num_probes_ := num_probes_ c + 1;
     num_hash_collisions_ := num_hash_collisions_ c;
     travel_length_ := travel_length_ c |}.

Definition add_travel (c : HashTableCtx) (step : Z) : HashTableCtx :=
  {| CurExprValuesHash := CurExprValuesHash c; Equals := Equals c;
     num_probes_ := num_probes_ c;
     num_hash_collisions_ := num_hash_collisions_ c;
     travel_length_ := travel_length_ c + step |}.

(** The move to the next bucket, lines 80-89. *)
Definition next_bucket_idx (quadratic : bool) (num_buckets bucket_idx step' : Z) : Z :=
  if quadratic then Z.land (bucket_idx + step') (num_buckets - 1)
  else Z.land (bucket_idx + 1) (num_buckets - 1).

(** The [do ... while (step < num_buckets)] loop of [Probe]; [fuel] bounds
    the iterations and [None] means it ran out. *)
Fixpoint Probe_loop (fuel : nat) (t : HashTable) (INCLUSIVE_EQUALITY COMPARE_ROW : bool)
    (buckets : list Bucket) (hash_array : list Z) (num_buckets : Z)
    (ht_ctx : HashTableCtx) (hash : Z) (bucket_idx step : Z) (bd : Z)
    (examined : list Z) : option ProbeResult :=
  match fuel with
  | O => None
  | S fuel' =>
      let bucket := bucket_at buckets bucket_idx in
      let examined := examined ++ [bucket_idx] in
      if negb (IsFilled bucket) then
        Some {| pr_bucket_idx := bucket_idx; pr_found := false; pr_bd := bd;
                pr_ctx := ht_ctx; pr_examined := examined |}
      else
        let same_hash := hash =? hash_at hash_array bucket_idx in
        let bd' := if same_hash && COMPARE_ROW then GetBucketData bucket else bd in
        if same_hash && COMPARE_ROW && Equals ht_ctx INCLUSIVE_EQUALITY (GetRow t bucket)
        then
          Some {| pr_bucket_idx := bucket_idx; pr_found := true; pr_bd := bd';
                  pr_ctx := ht_ctx; pr_examined := examined |}
        else
          let ht_ctx' := if same_hash then count_collision ht_ctx else ht_ctx in
          let step' := step + 1 in
          let bucket_idx' :=
            next_bucket_idx (quadratic_probing t) num_buckets bucket_idx step' in
          if step' <? num_buckets then
            Probe_loop fuel' t INCLUSIVE_EQUALITY COMPARE_ROW buckets hash_array
              num_buckets ht_ctx' hash bucket_idx' step' bd' examined
          else
            Some {| pr_bucket_idx := BUCKET_NOT_FOUND; pr_found := false;
                    pr_bd := bd'; pr_ctx := add_travel ht_ctx' step';
                    pr_examined := examined |}
  end.

(** Iterations the loop can make: the body runs once, then as long as
    [step < num_buckets]. *)
Definition Probe_fuel (num_buckets : Z) : nat := Z.to_nat (Z.max 1 num_buckets).

Definition Probe_opt (t : HashTable) (INCLUSIVE_EQUALITY COMPARE_ROW : bool)
    (buckets : list Bucket) (hash_array : list Z) (num_buckets : Z)
    (ht_ctx : HashTableCtx) (hash : Z) (bd : Z) : option ProbeResult :=
  Probe_loop (Probe_fuel num_buckets) t INCLUSIVE_EQUALITY COMPARE_ROW
    buckets hash_array num_buckets (count_probe ht_ctx) hash
    (Z.land hash (num_buckets - 1)) 0 bd [].

(** [HashTable::Probe]. The loop always ends within [Probe_fuel] iterations
    (lemma [Probe_opt_returns]), so the second branch is never taken. *)
Definition Probe (t : HashTable) (INCLUSIVE_EQUALITY COMPARE_ROW : bool)
    (buckets : list Bucket) (hash_array : list Z) (num_buckets : Z)
    (ht_ctx : HashTableCtx) (hash : Z) (bd : Z) : ProbeResult :=
  match Probe_opt t INCLUSIVE_EQUALITY COMPARE_ROW buckets hash_array
          num_buckets ht_ctx hash bd with
  | Some r => r
  | None => {| pr_bucket_idx := BUCKET_NOT_FOUND; pr_found := false; pr_bd := bd;
               pr_ctx := ht_ctx; pr_examined := [] |}
  end.

(** The two tests of the loop body that end the probe at the bucket it
    looks at: the bucket is empty (line 63), or it holds the hash probed for
    and, with [COMPARE_ROW], its row equals the current row (lines 66-72).
    Otherwise the loop moves on, or gives up after [num_buckets] steps. *)
Definition probe_stops (t : HashTable) (INCLUSIVE_EQUALITY COMPARE_ROW : bool)
    (buckets : list Bucket) (hash_array : list Z) (ht_ctx : HashTableCtx)
    (hash bucket_idx : Z) : bool :=
  let bucket := bucket_at buckets bucket_idx in
  negb (IsFilled bucket)
  || ((hash =? hash_at hash_array bucket_idx) && COMPARE_ROW
      && Equals ht_ctx INCLUSIVE_EQUALITY (GetRow t bucket)).

(** The probe sequence the design document gives: on step [k] the index is
    [(base + k*(k+1)/2) mod N]. *)
Definition triangular_index (N base k : Z) : Z := (base + k * (k + 1) / 2) mod N.

Definition triangular_sequence (N base : Z) : list Z :=
  triangular_index N base <$> seqZ 0 N.

(** ** Insertion *)

Definition set_bucket (t : HashTable) (i : Z) (b : Bucket) : HashTable :=
  {| buckets_ := if i <? 0 then buckets_ t else <[Z.to_nat i := b]> (buckets_ t);
     hash_array_ := hash_array_ t;
     num_buckets_ := num_buckets_ t;
     num_filled_buckets_ := num_filled_buckets_ t;
     num_duplicate_nodes_ := num_duplicate_nodes_ t;
     num_buckets_with_duplicates_ := num_buckets_with_duplicates_ t;
     node_remaining_current_page_ := node_remaining_current_page_ t;
     next_node_ := next_node_ t;
     node_memory := node_memory t;
     num_data_pages := num_data_pages t;
     quadratic_probing := quadratic_probing t;
     stores_duplicates := stores_duplicates t;
     stores_tuples := stores_tuples t |}.

Definition set_node (t : HashTable) (p : NodePtr) (n : DuplicateNode) : HashTable :=
  {| buckets_ := buckets_ t;
     hash_array_ := hash_array_ t;
     num_buckets_ := num_buckets_ t;
     num_filled_buckets_ := num_filled_buckets_ t;
     num_duplicate_nodes_ := num_duplicate_nodes_ t;
     num_buckets_with_duplicates_ := num_buckets_with_duplicates_ t;
     node_remaining_current_page_ := node_remaining_current_page_ t;
     next_node_ := next_node_ t;
     node_memory := <[p := n]> (node_memory t);
     num_data_pages := num_data_pages t;
     quadratic_probing := quadratic_probing t;
     stores_duplicates := stores_duplicates t;
     stores_tuples := stores_tuples t |}.

(** [DuplicateNode::SetNextUnMatched]: link and clear the matched flag. *)
Definition SetNextUnMatched (n : DuplicateNode) (p : NodePtr) : DuplicateNode :=
  {| htdata := htdata n; node_matched := false; Next := p |}.

Definition set_htdata (n : DuplicateNode) (h : HtData) : DuplicateNode :=
  {| htdata := h; node_matched := node_matched n; Next := Next n |}.

(** [Bucket::SetDuplicate], [SetTuple] and [SetFlatRow] store a word in the
    bucket; [SetHasDuplicates] sets the flag (accessors of hash-table.h). *)
Definition SetBucketData (b : Bucket) (w : Z) : Bucket :=
  {| IsFilled := IsFilled b; IsMatched := IsMatched b;
     HasDuplicates := HasDuplicates b; GetBucketData := w |}.

Definition SetHasDuplicates (b : Bucket) : Bucket :=
  {| IsFilled := IsFilled b; IsMatched := IsMatched b;
     HasDuplicates := true; GetBucketData := GetBucketData b |}.

(** Modelled from the spec: [Bucket::PrepareBucketForInsert] (hash-table.h is
    not among the sources) takes a bucket from empty to filled; it is
    neither matched nor duplicated then. *)
Definition Bucket_PrepareBucketForInsert (b : Bucket) : Bucket :=
  {| IsFilled := true; IsMatched := false; HasDuplicates := false;
     GetBucketData := GetBucketData b |}.

(** [HashTable::PrepareBucketForInsert]. *)
Definition PrepareBucketForInsert (t : HashTable) (bucket_idx hash : Z) : HashTable :=
  let b := Bucket_PrepareBucketForInsert (bucket_at (buckets_ t) bucket_idx) in
  {| buckets_ := if bucket_idx <? 0 then buckets_ t
                 else <[Z.to_nat bucket_idx := b]> (buckets_ t);
     hash_array_ := if bucket_idx <? 0 then hash_array_ t
                    else <[Z.to_nat bucket_idx := hash]> (hash_array_ t);
     num_buckets_ := num_buckets_ t;
     num_filled_buckets_ := num_filled_buckets_ t + 1;
     num_duplicate_nodes_ := num_duplicate_nodes_ t;
     num_buckets_with_duplicates_ := num_buckets_with_duplicates_ t;
     node_remaining_current_page_ := node_remaining_current_page_ t;
     next_node_ := next_node_ t;
     node_memory := node_memory t;
     num_data_pages := num_data_pages t;
     quadratic_probing := quadratic_probing t;
     stores_duplicates := stores_duplicates t;
     stores_tuples := stores_tuples t |}.

(** [HashTable::AppendNextNode]: hang [next_node_] on the bucket and hand
    it out. *)
Definition AppendNextNode (t : HashTable) (bucket_idx : Z) : NodePtr * HashTable :=
  let t1 := set_bucket t bucket_idx
              (SetBucketData (bucket_at (buckets_ t) bucket_idx) (next_node_ t)) in
  (next_node_ t,
   {| buckets_ := buckets_ t1;
      hash_array_ := hash_array_ t;
      num_buckets_ := num_buckets_ t;
      num_filled_buckets_ := num_filled_buckets_ t;
      num_duplicate_nodes_ := num_duplicate_nodes_ t + 1;
      num_buckets_with_duplicates_ := num_buckets_with_duplicates_ t;
      node_remaining_current_page_ := node_remaining_current_page_ t - 1;
      next_node_ := next_node_ t + 1;
      node_memory := node_memory t;
      num_data_pages := num_data_pages t;
      quadratic_probing := quadratic_probing t;
      stores_duplicates := stores_duplicates t;
      stores_tuples := stores_tuples t |}).

Section WithPages.

(** Nodes per data page ([DATA_PAGE_SIZE / sizeof(DuplicateNode)]); both
    constants are in files that are not among the sources. *)
Variable NODES_PER_PAGE : Z.

(** Modelled from the spec: [HashTable::GrowNodeArray] (hash-table.cc is not
    among the sources). "Duplicate-node pages are owned by the hash table;
    [GrowNodeArray] may fail, returned through an out-status." The
    allocator is the number of pages it can still hand out; a new page
    starts at a fresh address, past the page in use. *)
Definition GrowNodeArray (allocator : nat) (status : Status) (t : HashTable)
  : bool * Status * nat * HashTable :=
  match allocator with
  | O => (false, MEM_LIMIT_EXCEEDED, O, t)
  | S allocator' =>
      (true, status, allocator',
       {| buckets_ := buckets_ t;
          hash_array_ := hash_array_ t;
          num_buckets_ := num_buckets_ t;
          num_filled_buckets_ := num_filled_buckets_ t;
          num_duplicate_nodes_ := num_duplicate_nodes_ t;
          num_buckets_with_duplicates_ := num_buckets_with_duplicates_ t;
          node_remaining_current_page_ := NODES_PER_PAGE;
          next_node_ :=
            1 + Z.max 0 (next_node_ t + Z.max 0 (node_remaining_current_page_ t));
          node_memory := node_memory t;
          num_data_pages := num_data_pages t + 1;
          quadratic_probing := quadratic_probing t;
          stores_duplicates := stores_duplicates t;
          stores_tuples := stores_tuples t |})
  end.

(** The loop of lines 245-247:
    [while (node_remaining_current_page_ < need) if (!GrowNodeArray(status)) return NULL;]
    Every successful call uses up a page of the allocator, which is what
    the recursion descends on. *)
Fixpoint grow_nodes (allocator : nat) (need : Z) (status : Status) (t : HashTable)
  : bool * Status * nat * HashTable :=
  if node_remaining_current_page_ t <? need then
    match GrowNodeArray allocator status t, allocator with
    | (false, status', allocator', t'), _ => (false, status', allocator', t')
    | (true, status', _, t'), S allocator' => grow_nodes allocator' need status' t'
    | r, O => r
    end
  else (true, status, allocator, t).

(** Lines 249-256: the first duplicate of a bucket. The entry of the bucket
    becomes a node, and the bucket is linked to it. *)
Definition convert_entry_to_node (t1 : HashTable) (bucket_idx bucket_data : Z)
  : HashTable :=
  let n := SetNextUnMatched
             (set_htdata (node_at t1 (next_node_ t1)) bucket_data) 0 in
  let t1a := (AppendNextNode (set_node t1 (next_node_ t1) n) bucket_idx).2 in
  let t1b := set_bucket t1a bucket_idx
               (SetHasDuplicates (bucket_at (buckets_ t1a) bucket_idx)) in
  {| buckets_ := buckets_ t1b;
     hash_array_ := hash_array_ t1b;
     num_buckets_ := num_buckets_ t1b;
     num_filled_buckets_ := num_filled_buckets_ t1b;
     num_duplicate_nodes_ := num_duplicate_nodes_ t1b;
     num_buckets_with_duplicates_ := num_buckets_with_duplicates_ t1b + 1;
     node_remaining_current_page_ := node_remaining_current_page_ t1b;
     next_node_ := next_node_ t1b;
     node_memory := node_memory t1b;
     num_data_pages := num_data_pages t1b;
     quadratic_probing := quadratic_probing t1b;
     stores_duplicates := stores_duplicates t1b;
     stores_tuples := stores_tuples t1b |}.

(** Lines 258-260: link a new node in front of the bucket's chain. *)
Definition link_new_node (t2 : HashTable) (bucket_idx : Z) : NodePtr * HashTable :=
  let n := SetNextUnMatched (node_at t2 (next_node_ t2))
             (GetDuplicate (bucket_at (buckets_ t2) bucket_idx)) in
  AppendNextNode (set_node t2 (next_node_ t2) n) bucket_idx.

(** [HashTable::InsertDuplicateNode]; the node pointer is [None] for [NULL]. *)
Definition InsertDuplicateNode (allocator : nat) (t : HashTable) (bucket_idx : Z)
    (status : Status) (bucket_data : Z)
  : option NodePtr * Status * nat * HashTable :=
  let has_duplicates := HasDuplicates (bucket_at (buckets_ t) bucket_idx) in
  match grow_nodes allocator (1 + (if has_duplicates then 0 else 1)) status t with
  | (false, status', allocator', t') => (None, status', allocator', t')
  | (true, status', allocator', t1) =>
      let t2 := if has_duplicates then t1
                else convert_entry_to_node t1 bucket_idx bucket_data in
      let '(p, t3) := link_new_node t2 bucket_idx in
      (Some p, status', allocator', t3)
  end.

Record InsertResult := {
  ir_ok : bool;                 (* what Insert returns *)
  ir_status : Status;           (* *status afterwards *)
  ir_allocator : nat;
  ir_table : HashTable;
  ir_ctx : HashTableCtx
}.

(** [HashTable::InsertInternal]; the bucket pointer is the index of the
    bucket, [None] for [NULL]. The outer [None] is the undefined behaviour
    of inserting into a full table ([DCHECK_NE(bucket_idx, BUCKET_NOT_FOUND)]). *)
Definition InsertInternal (allocator : nat) (t : HashTable) (ht_ctx : HashTableCtx)
    (status : Status) (bd0 : Z)
  : option (option Z * Status * nat * HashTable * HashTableCtx) :=
  let hash := CurExprValuesHash ht_ctx in
  let pr := Probe t true true (buckets_ t) (hash_array_ t) (num_buckets_ t)
              ht_ctx hash bd0 in
  let bucket_idx := pr_bucket_idx pr in
  if bucket_idx =? BUCKET_NOT_FOUND then None
  else if pr_found pr then
    match InsertDuplicateNode allocator t bucket_idx status (pr_bd pr) with
    | (None, status', allocator', t') =>
        Some (None, status', allocator', t', pr_ctx pr)
    | (Some _, status', allocator', t') =>
        Some (Some bucket_idx, status', allocator', t', pr_ctx pr)
    end
  else
    Some (Some bucket_idx, status, allocator,
          PrepareBucketForInsert t bucket_idx hash, pr_ctx pr).

(** [HashTable::Insert]. [flat_row] is the row's place in the tuple stream,
    [tuple] is [row->GetTuple(0)]; [bd0] is what the uninitialised local
    [bd] of [InsertInternal] happens to hold. *)
Definition Insert (allocator : nat) (t : HashTable) (ht_ctx : HashTableCtx)
    (flat_row tuple : HtData) (status : Status) (bd0 : Z) : option InsertResult :=
  match InsertInternal allocator t ht_ctx status bd0 with
  | None => None
  | Some (None, status', allocator', t', ctx') =>
      Some {| ir_ok := false; ir_status := status'; ir_allocator := allocator';
              ir_table := t'; ir_ctx := ctx' |}
  | Some (Some bucket_idx, status', allocator', t', ctx') =>
      let bucket := bucket_at (buckets_ t') bucket_idx in
      let h := if stores_tuples t' then tuple else flat_row in
      if HasDuplicates bucket then
        let node := GetDuplicate bucket in
        if node =? 0 then
          Some {| ir_ok := false; ir_status := status'; ir_allocator := allocator';
                  ir_table := t'; ir_ctx := ctx' |}
        else
          Some {| ir_ok := true; ir_status := status'; ir_allocator := allocator';
                  ir_table := set_node t' node (set_htdata (node_at t' node) h);
                  ir_ctx := ctx' |}
      else
        Some {| ir_ok := true; ir_status := status'; ir_allocator := allocator';
                ir_table := set_bucket t' bucket_idx (SetBucketData bucket h);
                ir_ctx := ctx' |}
  end.

(** The rows of a bucket's duplicate chain, head first; [fuel] bounds the
    nodes followed. *)
Fixpoint chain_from (fuel : nat) (t : HashTable) (p : NodePtr) : list HtData :=
  match fuel with
  | O => []
  | S fuel' =>
      if p =? 0 then []
      else htdata (node_at t p) :: chain_from fuel' t (Next (node_at t p))
  end.

Definition bucket_rows (fuel : nat) (t : HashTable) (bucket_idx : Z) : list HtData :=
  let b := bucket_at (buckets_ t) bucket_idx in
  if negb (IsFilled b) then []
  else if HasDuplicates b then chain_from fuel t (GetDuplicate b)
  else [GetBucketData b].

End WithPages.

(** ** Lookup and iteration *)

(** The position of an [Iterator]: a bucket and, in a bucket with
    duplicates, a node of its chain. *)
Record Iterator := {
  bucket_idx_ : Z;
  node_ : NodePtr
}.

(** [Iterator::SetAtEnd]; [End()] is an iterator in this state. *)
Definition SetAtEnd (it : Iterator) : Iterator :=
  {| bucket_idx_ := BUCKET_NOT_FOUND; node_ := 0 |}.

Definition End_ : Iterator := {| bucket_idx_ := BUCKET_NOT_FOUND; node_ := 0 |}.

Definition AtEnd (it : Iterator) : bool := bucket_idx_ it =? BUCKET_NOT_FOUND.

(** [HashTable::FindProbeRow]: [Probe<false, true>]. On a hit the node of
    the iterator is [bd.duplicates], the bucket's word read as a pointer. *)
Definition FindProbeRow (t : HashTable) (ht_ctx : HashTableCtx) (bd0 : Z)
  : Iterator * HashTableCtx :=
  let pr := Probe t false true (buckets_ t) (hash_array_ t) (num_buckets_ t)
              ht_ctx (CurExprValuesHash ht_ctx) bd0 in
  (if pr_found pr then
     {| bucket_idx_ := pr_bucket_idx pr;
        node_ := if stores_duplicates t then pr_bd pr else 0 |}
   else End_,
   pr_ctx pr).

(** [HashTable::FindBuildRowBucket]: [Probe<true, true, TYPE>]; the second
    component is [*found]. *)
Definition FindBuildRowBucket (t : HashTable) (ht_ctx : HashTableCtx) (bd0 : Z)
  : Iterator * bool * HashTableCtx :=
  let pr := Probe t true true (buckets_ t) (hash_array_ t) (num_buckets_ t)
              ht_ctx (CurExprValuesHash ht_ctx) bd0 in
  let bucket_idx := pr_bucket_idx pr in
  let duplicates :=
    if stores_duplicates t && negb (bucket_idx =? BUCKET_NOT_FOUND)
    then pr_bd pr else 0 in
  ({| bucket_idx_ := bucket_idx; node_ := duplicates |}, pr_found pr, pr_ctx pr).

(** The [for] loop of [NextFilledBucket], entered at [bucket_idx] (already
    incremented). It runs while [bucket_idx < num_buckets_]; [fuel] counts
    the iterations that are left, [num_buckets_ - bucket_idx] at most. *)
Fixpoint NextFilledBucket_loop (fuel : nat) (t : HashTable) (bucket_idx : Z)
  : Z * NodePtr :=
  if bucket_idx <? num_buckets_ t then
    match fuel with
    | O => (BUCKET_NOT_FOUND, 0)
    | S fuel' =>
        if IsFilled (bucket_at (buckets_ t) bucket_idx) then
          (bucket_idx,
           if stores_duplicates t
           then GetDuplicate (bucket_at (buckets_ t) bucket_idx) else 0)
        else NextFilledBucket_loop fuel' t (bucket_idx + 1)
    end
  else (BUCKET_NOT_FOUND, 0).

(** [HashTable::NextFilledBucket(&bucket_idx, &node)]. *)
Definition NextFilledBucket (t : HashTable) (bucket_idx : Z) : Z * NodePtr :=
  NextFilledBucket_loop (Z.to_nat (num_buckets_ t - (bucket_idx + 1))) t
    (bucket_idx + 1).

(** [HashTable::Begin]. *)
Definition Begin (t : HashTable) : Iterator :=
  let '(bucket_idx, node) := NextFilledBucket t BUCKET_NOT_FOUND in
  {| bucket_idx_ := bucket_idx; node_ := node |}.

(** Whether the iterator stands in a chain of duplicates. *)
Definition in_chain (t : HashTable) (it : Iterator) : bool :=
  stores_duplicates t && HasDuplicates (bucket_at (buckets_ t) (bucket_idx_ it)).

(** [Iterator::GetRow]: the handle of the row the iterator stands on. *)
Definition Iterator_GetRow (t : HashTable) (it : Iterator) : HtData :=
  if in_chain t it then htdata (node_at t (node_ it))
  else GetBucketData (bucket_at (buckets_ t) (bucket_idx_ it)).

(** [Iterator::Next]. *)
Definition Iterator_Next (t : HashTable) (it : Iterator) : Iterator :=
  if in_chain t it && negb (Next (node_at t (node_ it)) =? 0) then
    {| bucket_idx_ := bucket_idx_ it; node_ := Next (node_at t (node_ it)) |}
  else
    let '(bucket_idx, node) := NextFilledBucket t (bucket_idx_ it) in
    {| bucket_idx_ := bucket_idx; node_ := node |}.

(** [Iterator::NextDuplicate]. *)
Definition Iterator_NextDuplicate (t : HashTable) (it : Iterator) : Iterator :=
  if in_chain t it && negb (Next (node_at t (node_ it)) =? 0) then
    {| bucket_idx_ := bucket_idx_ it; node_ := Next (node_at t (node_ it)) |}
  else End_.

(** [Iterator::IsMatched]. *)
Definition Iterator_IsMatched (t : HashTable) (it : Iterator) : bool :=
  if in_chain t it then node_matched (node_at t (node_ it))
  else IsMatched (bucket_at (buckets_ t) (bucket_idx_ it)).

(** [Bucket::SetMatched] and [DuplicateNode::SetMatched] set the flag. *)
Definition Bucket_SetMatched (b : Bucket) : Bucket :=
  {| IsFilled := IsFilled b; IsMatched := true;
     HasDuplicates := HasDuplicates b; GetBucketData := GetBucketData b |}.

Definition Node_SetMatched (n : DuplicateNode) : DuplicateNode :=
  {| htdata := htdata n; node_matched := true; Next := Next n |}.

(** [Iterator::SetMatched]; the second component is the table's
    [has_matches_] afterwards. *)
Definition Iterator_SetMatched (t : HashTable) (it : Iterator) : HashTable * bool :=
  (if in_chain t it
   then set_node t (node_ it) (Node_SetMatched (node_at t (node_ it)))
   else set_bucket t (bucket_idx_ it)
          (Bucket_SetMatched (bucket_at (buckets_ t) (bucket_idx_ it))),
   true).

(** [Iterator::SetTuple]. *)
Definition Iterator_SetTuple (t : HashTable) (it : Iterator) (tuple : HtData)
    (hash : Z) : HashTable :=
  let t1 := PrepareBucketForInsert t (bucket_idx_ it) hash in
  set_bucket t1 (bucket_idx_ it)
    (SetBucketData (bucket_at (buckets_ t1) (bucket_idx_ it)) tuple).

(** The first loop of [NextUnmatched] (lines 389-393): the next unmatched
    node after [node] in its chain, if any. [fuel] bounds the nodes
    followed; the outer [None] is a chain longer than that. *)
Fixpoint next_unmatched_in_chain (fuel : nat) (t : HashTable) (next_node : NodePtr)
  : option (option NodePtr) :=
  if next_node =? 0 then Some None
  else
    match fuel with
    | O => None
    | S fuel' =>
        if negb (node_matched (node_at t next_node)) then Some (Some next_node)
        else next_unmatched_in_chain fuel' t (Next (node_at t next_node))
    end.

(** The inner loop of lines 403-407: skip matched nodes while there is a
    next one. *)
Fixpoint skip_matched (fuel : nat) (t : HashTable) (node : NodePtr)
  : option NodePtr :=
  if node_matched (node_at t node) && negb (Next (node_at t node) =? 0) then
    match fuel with
    | O => None
    | S fuel' => skip_matched fuel' t (Next (node_at t node))
    end
  else Some node.

(** The loop of lines 398-411 over the filled buckets, entered after a
    call of [NextFilledBucket]; [buckets_left] bounds its iterations by the
    number of buckets. *)
Fixpoint NextUnmatched_buckets (buckets_left fuel : nat) (t : HashTable)
    (it : Iterator) : option Iterator :=
  if AtEnd it then Some it
  else
    match buckets_left with
    | O => None
    | S buckets_left' =>
        let advance :=
          let '(bucket_idx, node) := NextFilledBucket t (bucket_idx_ it) in
          NextUnmatched_buckets buckets_left' fuel t
            {| bucket_idx_ := bucket_idx; node_ := node |} in
        if negb (in_chain t it) then
          if negb (IsMatched (bucket_at (buckets_ t) (bucket_idx_ it)))
          then Some it else advance
        else
          match skip_matched fuel t (node_ it) with
          | None => None
          | Some node =>
              if negb (node_matched (node_at t node))
              then Some {| bucket_idx_ := bucket_idx_ it; node_ := node |}
              else advance
          end
    end.

(** [Iterator::NextUnmatched]; [None] when a chain has more than [fuel]
    nodes (a chain that is a cycle never ends). *)
Definition Iterator_NextUnmatched (fuel : nat) (t : HashTable) (it : Iterator)
  : option Iterator :=
  let in_this_chain :=
    if in_chain t it
    then next_unmatched_in_chain fuel t (Next (node_at t (node_ it)))
    else Some None in
  match in_this_chain with
  | None => None
  | Some (Some node) => Some {| bucket_idx_ := bucket_idx_ it; node_ := node |}
  | Some None =>
      let '(bucket_idx, node) := NextFilledBucket t (bucket_idx_ it) in
      NextUnmatched_buckets (Z.to_nat (num_buckets_ t)) fuel t
        {| bucket_idx_ := bucket_idx; node_ := node |}
  end.

(** [HashTable::FirstUnmatched]. On a table without a filled bucket
    [bucket_idx] is [BUCKET_NOT_FOUND] after [NextFilledBucket], and
    [buckets_[bucket_idx]] reads in front of the array: undefined
    behaviour, [None] here, as is a chain of more than [fuel] nodes. *)
Definition FirstUnmatched (fuel : nat) (t : HashTable) : option Iterator :=
  let it := Begin t in
  if AtEnd it then None
  else
    let bucket := bucket_at (buckets_ t) (bucket_idx_ it) in
    let has_duplicates := stores_duplicates t && HasDuplicates bucket in
    if (negb has_duplicates && IsMatched bucket)
       || (has_duplicates && node_matched (node_at t (node_ it)))
    then Iterator_NextUnmatched fuel t it
    else Some it.

(** The entries seen by walking the table from [it] with [Next] until
    [AtEnd], at most [n] of them: the bucket and the row of each. *)
Fixpoint iterate (n : nat) (t : HashTable) (it : Iterator) : list (Z * HtData) :=
  match n with
  | O => []
  | S n' =>
      if AtEnd it then []
      else (bucket_idx_ it, Iterator_GetRow t it) :: iterate n' t (Iterator_Next t it)
  end.

(** Whether the chain from [p] ends within [fuel] nodes. *)
Fixpoint chain_ends (fuel : nat) (t : HashTable) (p : NodePtr) : bool :=
  if p =? 0 then true
  else
    match fuel with
    | O => false
    | S fuel' => chain_ends fuel' t (Next (node_at t p))
    end.

(** Every bucket that has duplicates heads a chain that is not empty and
    ends within [fuel] nodes. *)
Definition chains_end (fuel : nat) (t : HashTable) : bool :=
  forallb
    (fun i =>
       let b := bucket_at (buckets_ t) i in
       negb (IsFilled b && stores_duplicates t && HasDuplicates b)
       || (negb (GetDuplicate b =? 0) && chain_ends fuel t (GetDuplicate b)))
    (seqZ 0 (num_buckets_ t)).

(** The entries of a bucket, as the iterator reads them: none when it is
    not filled, its chain when the table stores duplicates and the bucket
    has some, else the bucket's own row. *)
Definition bucket_entries (fuel : nat) (t : HashTable) (i : Z) : list (Z * HtData) :=
  let b := bucket_at (buckets_ t) i in
  if negb (IsFilled b) then []
  else if stores_duplicates t && HasDuplicates b
       then pair i <$> chain_from fuel t (GetDuplicate b)
       else [(i, GetBucketData b)].

(** The entries of the buckets [i], [i + 1], ..., [i + k - 1]. *)
Fixpoint entries_from (k : nat) (fuel : nat) (t : HashTable) (i : Z)
  : list (Z * HtData) :=
  match k with
  | O => []
  | S k' => bucket_entries fuel t i ++ entries_from k' fuel t (i + 1)
  end.

Definition table_entries (fuel : nat) (t : HashTable) : list (Z * HtData) :=
  entries_from (Z.to_nat (num_buckets_ t)) fuel t 0.

(** The nodes of the chain from [p], head first; [fuel] bounds the nodes
    followed. *)
Fixpoint chain_nodes (fuel : nat) (t : HashTable) (p : NodePtr) : list NodePtr :=
  match fuel with
  | O => []
  | S fuel' =>
      if p =? 0 then []
      else p :: chain_nodes fuel' t (Next (node_at t p))
  end.

(** The positions an iterator takes in bucket [i], in the order of [Next]:
    none when the bucket is not filled, the nodes of its chain when the
    table stores duplicates and the bucket has some, else the bucket
    itself, with the node that [NextFilledBucket] sets. *)
Definition bucket_positions (fuel : nat) (t : HashTable) (i : Z) : list Iterator :=
  let b := bucket_at (buckets_ t) i in
  if negb (IsFilled b) then []
  else if stores_duplicates t && HasDuplicates b
       then Build_Iterator i <$> chain_nodes fuel t (GetDuplicate b)
       else [{| bucket_idx_ := i;
                node_ := if stores_duplicates t then GetDuplicate b else 0 |}].

(** The positions in the buckets [i], [i + 1], ..., [i + k - 1]. *)
Fixpoint positions_from (k : nat) (fuel : nat) (t : HashTable) (i : Z)
  : list Iterator :=
  match k with
  | O => []
  | S k' => bucket_positions fuel t i ++ positions_from k' fuel t (i + 1)
  end.

(** The positions after [it]: the nodes that follow its own in its chain,
    if it stands in one, then the positions in the buckets after its
    own. *)
Definition positions_after (fuel : nat) (t : HashTable) (it : Iterator)
  : list Iterator :=
  (if in_chain t it
   then Build_Iterator (bucket_idx_ it)
          <$> chain_nodes fuel t (Next (node_at t (node_ it)))
   else [])
  ++ positions_from (Z.to_nat (num_buckets_ t - (bucket_idx_ it + 1))) fuel t
       (bucket_idx_ it + 1).

(** The first position after [it] whose entry is not matched, and the end
    when there is none. *)
Definition next_unmatched_position (fuel : nat) (t : HashTable) (it : Iterator)
  : Iterator :=
  default End_
    (List.find (fun p => negb (Iterator_IsMatched t p)) (positions_after fuel t it)).

(** ** Counters *)

(** The number of filled buckets of an array, and of buckets that have
    duplicates. *)
Definition count_filled (bs : list Bucket) : Z :=
  Z.of_nat (length (List.filter IsFilled bs)).

Definition count_with_duplicates (bs : list Bucket) : Z :=
  Z.of_nat (length (List.filter HasDuplicates bs)).

(** The probe sequence of linear probing. *)
Definition linear_index (N base k : Z) : Z := (base + k) mod N.

(** The counters of a table agree with its bucket array: the array has
    [num_buckets_] buckets and as many hashes, [num_filled_buckets_] of the
    buckets are filled, [num_buckets_with_duplicates_] have duplicates, and
    only filled buckets have duplicates. *)
Definition counters_agree (t : HashTable) : Prop :=
  1 <= num_buckets_ t
  /\ Z.of_nat (length (buckets_ t)) = num_buckets_ t
  /\ length (hash_array_ t) = length (buckets_ t)
  /\ num_filled_buckets_ t = count_filled (buckets_ t)
  /\ num_buckets_with_duplicates_ t = count_with_duplicates (buckets_ t)
  /\ (forall i, HasDuplicates (bucket_at (buckets_ t) i) = true ->
                IsFilled (bucket_at (buckets_ t) i) = true).

(** ** A small table, for the examples *)

(** Four buckets; bucket 1 holds row [100] with hash [5]. *)
Definition table4 : HashTable :=
  {| buckets_ := [empty_bucket;
                  {| IsFilled := true; IsMatched := false; HasDuplicates := false;
                     GetBucketData := 100 |};
                  empty_bucket; empty_bucket];
     hash_array_ := [0; 5; 0; 0];
     num_buckets_ := 4;
     num_filled_buckets_ := 1;
     num_duplicate_nodes_ := 0;
     num_buckets_with_duplicates_ := 0;
     node_remaining_current_page_ := 0;
     next_node_ := 0;
     node_memory := ∅;
     num_data_pages := 0;
     quadratic_probing := true;
     stores_duplicates := true;
     stores_tuples := false |}.

(** A probe-side context whose current row hashes to [5] and equals every
    build row. *)
Definition ctx5 : HashTableCtx :=
  {| CurExprValuesHash := 5; Equals := fun _ _ => true;
     num_probes_ := 0; num_hash_collisions_ := 0; travel_length_ := 0 |}.

(** [table4] after [GrowNodeArray] with pages of 8 nodes. *)
Definition table4_grown : HashTable :=
  (GrowNodeArray 8 1%nat OK table4).2.

(** A build-side context whose current row hashes to [9] (bucket 1, then
    bucket 2 of [table4]) and equals every build row. *)
Definition ctx9 : HashTableCtx :=
  {| CurExprValuesHash := 9; Equals := fun _ _ => true;
     num_probes_ := 0; num_hash_collisions_ := 0; travel_length_ := 0 |}.

(** A context whose row hashes to [7] and equals no build row. *)
Definition ctx7 : HashTableCtx :=
  {| CurExprValuesHash := 7; Equals := fun _ _ => false;
     num_probes_ := 0; num_hash_collisions_ := 0; travel_length_ := 0 |}.

(** Two buckets, both filled. *)
Definition table2_full : HashTable :=
  {| buckets_ := [{| IsFilled := true; IsMatched := false; HasDuplicates := false;
                     GetBucketData := 100 |};
                  {| IsFilled := true; IsMatched := false; HasDuplicates := false;
                     GetBucketData := 200 |}];
     hash_array_ := [1; 2];
     num_buckets_ := 2;
     num_filled_buckets_ := 2;
     num_duplicate_nodes_ := 0;
     num_buckets_with_duplicates_ := 0;
     node_remaining_current_page_ := 0;
     next_node_ := 0;
     node_memory := ∅;
     num_data_pages := 0;
     quadratic_probing := true;
     stores_duplicates := false;
     stores_tuples := true |}.

(** Four buckets, all filled; the rows of buckets 0 and 3 have hash [7]. *)
Definition table4_full : HashTable :=
  {| buckets_ := [{| IsFilled := true; IsMatched := false; HasDuplicates := false;
                     GetBucketData := 100 |};
                  {| IsFilled := true; IsMatched := false; HasDuplicates := false;
                     GetBucketData := 200 |};
                  {| IsFilled := true; IsMatched := false; HasDuplicates := false;
                     GetBucketData := 300 |};
                  {| IsFilled := true; IsMatched := false; HasDuplicates := false;
                     GetBucketData := 400 |}];
     hash_array_ := [7; 5; 6; 7];
     num_buckets_ := 4;
     num_filled_buckets_ := 4;
     num_duplicate_nodes_ := 0;
     num_buckets_with_duplicates_ := 0;
     node_remaining_current_page_ := 0;
     next_node_ := 0;
     node_memory := ∅;
     num_data_pages := 0;
     quadratic_probing := true;
     stores_duplicates := false;
     stores_tuples := true |}.

(** [table4] after the insertion of row [101], which equals the resident
    row [100]: bucket 1 heads the chain of node 2 (row [101]) and node 1
    (row [100]), on a page of 8 nodes. *)
Definition table4_chain : HashTable :=
  from_option ir_table table4 (Insert 8 1%nat table4 ctx5 101 101 OK 0).

End HT.

(* ===================================================================== *)
(** * The cluster membership manager *)
(* ===================================================================== *)

Module CMM.

(** ** Descriptors (the Thrift types the manager handles) *)

Record TNetworkAddress := { hostname : string; port : Z }.

Record TExecutorGroupDesc := { name : string; min_size : Z }.

(** Modelled from the spec: [TBackendDescriptor] (the generated Thrift
    headers are not among the sources), "identity (address, ip, id), role
    flags ([is_executor], [is_coordinator], [is_quiescing]), and a list of
    names of [executor_groups] the backend belongs to". The id is the key
    of the backend in the topic and in [current_backends]. *)
Record TBackendDescriptor := {
  address : TNetworkAddress;
  ip_address : string;
  is_coordinator : bool;
  is_executor : bool;
  is_quiescing : bool;
  executor_groups : list TExecutorGroupDesc
}.

#[global] Instance TNetworkAddress_eq_dec : EqDecision TNetworkAddress.
Proof. solve_decision. Defined.

(** Modelled from the spec: an entry of
    "[TopicDelta { is_delta: bool, topic_entries: [{key, value, deleted}] }]".
    [value] is the descriptor that [DeserializeThriftMsg] reads from the
    entry's bytes, [None] when it reports an error. *)
Record TTopicItem := {
  key : string;
  value : option TBackendDescriptor;
  deleted : bool
}.

Record TTopicDelta := {
  topic_name : string;
  is_delta : bool;
  topic_entries : list TTopicItem
}.

(** Modelled from the spec: [Statestore::IMPALA_MEMBERSHIP_TOPIC] ("the
    membership topic name is fixed"; its definition is not among the
    sources). *)
Definition IMPALA_MEMBERSHIP_TOPIC : string := "impala-membership".

(** ** Executor groups *)

(** Modelled from the spec: [ExecutorGroup] (executor-group.h is not among
    the sources), "name + ordered set of executors keyed by address" with
    [AddExecutor], [RemoveExecutor], [LookUpBackendDesc(address)]. *)
Record ExecutorGroup := {
  group_name : string;
  GetAllExecutorDescriptors : list TBackendDescriptor
}.

Definition new_ExecutorGroup (group : TExecutorGroupDesc) : ExecutorGroup :=
  {| group_name := name group; GetAllExecutorDescriptors := [] |}.

Definition same_address (a : TNetworkAddress) (be : TBackendDescriptor) : bool :=
  bool_decide (address be = a).

Definition LookUpBackendDesc (g : ExecutorGroup) (a : TNetworkAddress)
  : option TBackendDescriptor :=
  List.find (same_address a) (GetAllExecutorDescriptors g).

Definition AddExecutor (be_desc : TBackendDescriptor) (g : ExecutorGroup)
  : ExecutorGroup :=
  match LookUpBackendDesc g (address be_desc) with
  | Some _ => g
  | None =>
      {| group_name := group_name g;
         GetAllExecutorDescriptors := GetAllExecutorDescriptors g ++ [be_desc] |}
  end.

Definition RemoveExecutor (be_desc : TBackendDescriptor) (g : ExecutorGroup)
  : ExecutorGroup :=
  {| group_name := group_name g;
     GetAllExecutorDescriptors :=
       List.filter (fun be => negb (same_address (address be_desc) be))
         (GetAllExecutorDescriptors g) |}.

(** [FindOrInsertExecutorGroup(group, executor_groups)] followed by a call
    on the group it returns. *)
Definition on_group (f : ExecutorGroup -> ExecutorGroup) (group : TExecutorGroupDesc)
    (groups : gmap string ExecutorGroup) : gmap string ExecutorGroup :=
  match groups !! name group with
  | Some g => <[name group := f g]> groups
  | None => <[name group := f (new_ExecutorGroup group)]> groups
  end.

(** [for (const auto& group : be_desc.executor_groups)
       FindOrInsertExecutorGroup(group, groups)->f(be_desc);] *)
Definition on_groups_of (f : TBackendDescriptor -> ExecutorGroup -> ExecutorGroup)
    (be_desc : TBackendDescriptor) (groups : gmap string ExecutorGroup)
  : gmap string ExecutorGroup :=
  foldl (fun gs group => on_group (f be_desc) group gs) groups
    (executor_groups be_desc).

(** ** The executor blacklist *)

Inductive BlacklistState := NOT_BLACKLISTED | ON_PROBATION | BLACKLISTED.

#[global] Instance BlacklistState_eq_dec : EqDecision BlacklistState.
Proof. solve_decision. Defined.

Record BlacklistEntry := {
  entry_be_desc : TBackendDescriptor;
  entry_state : BlacklistState;
  entry_deadline : Z          (* when the state times out *)
}.

Section WithTimeouts.

(** How long an executor stays blacklisted, and how long on probation. *)
Variable blacklist_timeout probation_timeout : Z.

(** Modelled from the spec: [ExecutorBlacklist] (executor-blacklist.h is not
    among the sources), a "set of (backend -> state) with timeouts driving
    probation -> not-blacklisted transitions; exposes [Blacklist],
    [FindAndRemove] (returns prior state), [IsBlacklisted],
    [NeedsMaintenance], [Maintenance(out probation_list)]". Backends are
    told apart by address; the wall clock is an argument. *)
Definition ExecutorBlacklist := list BlacklistEntry.

Definition entry_for (be_desc : TBackendDescriptor) (e : BlacklistEntry) : bool :=
  same_address (address be_desc) (entry_be_desc e).

Definition Blacklist (now : Z) (be_desc : TBackendDescriptor) (bl : ExecutorBlacklist)
  : ExecutorBlacklist :=
  let e := {| entry_be_desc := be_desc; entry_state := BLACKLISTED;
              entry_deadline := now + blacklist_timeout |} in
  match List.find (entry_for be_desc) bl with
  | Some old =>
      if decide (entry_state old = BLACKLISTED) then bl
      else (fun x => if entry_for be_desc x then e else x) <$> bl
  | None => bl ++ [e]
  end.

Definition FindAndRemove (be_desc : TBackendDescriptor) (bl : ExecutorBlacklist)
  : BlacklistState * ExecutorBlacklist :=
  match List.find (entry_for be_desc) bl with
  | Some old =>
      (entry_state old, List.filter (fun x => negb (entry_for be_desc x)) bl)
  | None => (NOT_BLACKLISTED, bl)
  end.

Definition IsBlacklisted (be_desc : TBackendDescriptor) (bl : ExecutorBlacklist) : bool :=
  match List.find (entry_for be_desc) bl with
  | Some old => bool_decide (entry_state old = BLACKLISTED)
  | None => false
  end.

Definition timed_out (now : Z) (e : BlacklistEntry) : bool := entry_deadline e <=? now.

Definition NeedsMaintenance (now : Z) (bl : ExecutorBlacklist) : bool :=
  existsb (timed_out now) bl.

(** Entries whose time is up move on: a blacklisted one goes on probation
    and is reported in the probation list, one on probation is dropped. *)
Fixpoint Maintenance (now : Z) (bl : ExecutorBlacklist)
  : ExecutorBlacklist * list TBackendDescriptor :=
  match bl with
  | [] => ([], [])
  | e :: bl' =>
      let '(rest, probation_list) := Maintenance now bl' in
      if timed_out now e then
        match entry_state e with
        | BLACKLISTED =>
            ({| entry_be_desc := entry_be_desc e; entry_state := ON_PROBATION;
                entry_deadline := now + probation_timeout |} :: rest,
             entry_be_desc e :: probation_list)
        | _ => (rest, probation_list)
        end
      else (e :: rest, probation_list)
  end.

(** ** Snapshots and the manager *)

(** Modelled from the spec: "[Snapshot]: value containing [version],
    [current_backends] (id -> descriptor), [executor_groups] (name ->
    group), [executor_blacklist], and [local_be_desc]" (declared in
    cluster-membership-mgr.h, not among the sources). *)
Record Snapshot := {
  local_be_desc : option TBackendDescriptor;      (* BeDescSharedPtr *)
  current_backends : gmap string TBackendDescriptor;
  executor_groups_ : gmap string ExecutorGroup;    (* executor_groups *)
  executor_blacklist : ExecutorBlacklist;
  version : Z
}.

(** Modelled from the spec: [Snapshot()], what [std::make_shared<Snapshot>()]
    holds (the declaration of [Snapshot] is in cluster-membership-mgr.h, not
    among the sources): no local descriptor, empty maps, an empty blacklist
    and the initial version. Every fresh snapshot starts from the same
    version, whatever its value. *)
Definition empty_Snapshot : Snapshot :=
  {| local_be_desc := None; current_backends := ∅; executor_groups_ := ∅;
     executor_blacklist := []; version := 0 |}.

(** The members of the manager that the file's functions read and write. *)
Record ClusterMembershipMgr := {
  current_membership_ : option Snapshot;        (* shared_ptr; None is null *)
  recovering_membership_ : option Snapshot;
  local_backend_id_ : string;
  published : list Snapshot         (* ghost: the arguments of SetState, in order *)
}.

(** The constructor. *)
Definition new_ClusterMembershipMgr (local_backend_id : string) : ClusterMembershipMgr :=
  {| current_membership_ := Some empty_Snapshot;
     recovering_membership_ := None;
     local_backend_id_ := local_backend_id;
     published := [] |}.

Definition GetSnapshot (m : ClusterMembershipMgr) : option Snapshot :=
  current_membership_ m.

Definition SetState (new_state : option Snapshot) (m : ClusterMembershipMgr)
  : ClusterMembershipMgr :=
  {| current_membership_ := new_state;
     recovering_membership_ := recovering_membership_ m;
     local_backend_id_ := local_backend_id_ m;
     published := published m ++ from_option (fun s => [s]) [] new_state |}.

Definition NeedsLocalBackendUpdate (local_backend_id : string) (state : Snapshot)
    (local : option TBackendDescriptor) : bool :=
  match local with
  | None => false
  | Some l =>
      match local_be_desc state with
      | None => true
      | Some _ =>
          match current_backends state !! local_backend_id with
          | None => true
          | Some be => negb (eqb (is_quiescing be) (is_quiescing l))
          end
      end
  end.

(** [CheckConsistency]. The map from addresses to backends is filled with
    [emplace], which keeps the first descriptor of an address; which one is
    first is the iteration order of [current_backends] and matters only when
    two backends share an address. *)
Definition CheckConsistency (backends : gmap string TBackendDescriptor)
    (groups : gmap string ExecutorGroup) (blacklist : ExecutorBlacklist) : bool :=
  let address_to_backend (a : TNetworkAddress) : option TBackendDescriptor :=
    List.find (same_address a) (snd <$> map_to_list backends) in
  forallb (fun group_it : string * ExecutorGroup =>
    forallb (fun group_be =>
      is_executor group_be
      && negb (is_quiescing group_be)
      && match address_to_backend (address group_be) with
         | None => false
         | Some current_be =>
             eqb (is_quiescing current_be) (is_quiescing group_be)
             && eqb (is_executor current_be) (is_executor group_be)
         end
      && negb (IsBlacklisted group_be blacklist))
      (GetAllExecutorDescriptors group_it.2))
    (map_to_list groups).

Definition consistent (s : Snapshot) : bool :=
  CheckConsistency (current_backends s) (executor_groups_ s) (executor_blacklist s).

(** ** [UpdateMembership] *)

(** What a call reads from outside the manager: the result of
    [GetLocalBackendDescriptor()], whether the statestore subscriber is in
    its post-recovery grace period ([false] without a subscriber), and the
    clock. *)
Record UpdateEnv := {
  env_local_be_desc : option TBackendDescriptor;
  env_ss_is_recovering : bool;
  env_now : Z
}.

(** The parts of [new_state] the loop over the topic entries works on,
    and the flag [update_local_server]. *)
Record Working := {
  w_backends : gmap string TBackendDescriptor;
  w_groups : gmap string ExecutorGroup;
  w_blacklist : ExecutorBlacklist;
  w_update_local_server : bool
}.

(** One iteration of the loop of lines 197-288, as a release build runs it:
    the [DCHECK]s are assertions and compiled out, so the [FindAndRemove]
    inside the [DCHECK_EQ] of line 284 is not run, and a failing
    [DCHECK(CheckConsistency(...))] stops nothing. *)
Definition process_topic_item (local_backend_id : string) (w : Working)
    (item : TTopicItem) : Working :=
  if deleted item then
    match w_backends w !! key item with
    | Some be_desc =>
        let '(prior, bl) := FindAndRemove be_desc (w_blacklist w) in
        let blacklisted := bool_decide (prior = BLACKLISTED) in
        {| w_backends := delete (key item) (w_backends w);
           w_groups :=
             if is_executor be_desc && negb (is_quiescing be_desc) && negb blacklisted
             then on_groups_of RemoveExecutor be_desc (w_groups w)
             else w_groups w;
           w_blacklist := bl;
           w_update_local_server := true |}
    | None => w
    end
  else
    match value item with
    | None => w                                        (* does not deserialize *)
    | Some be_desc =>
        if bool_decide (ip_address be_desc = "") then w
        else if bool_decide (key item = local_backend_id) then w
        else
          match w_backends w !! key item with
          | Some existing =>
              (* Update *)
              let '(prior, bl) := FindAndRemove be_desc (w_blacklist w) in
              let blacklisted := bool_decide (prior = BLACKLISTED) in
              {| w_backends := <[key item := be_desc]> (w_backends w);
                 w_groups :=
                   if is_quiescing be_desc && negb (is_quiescing existing)
                      && is_executor existing && negb blacklisted
                   then on_groups_of RemoveExecutor be_desc (w_groups w)
                   else w_groups w;
                 w_blacklist := bl;
                 w_update_local_server := w_update_local_server w |}
          | None =>
              (* Create *)
              {| w_backends := <[key item := be_desc]> (w_backends w);
                 w_groups :=
                   if negb (is_quiescing be_desc) && is_executor be_desc
                   then on_groups_of AddExecutor be_desc (w_groups w)
                   else w_groups w;
                 w_blacklist := w_blacklist w;
                 w_update_local_server := w_update_local_server w |}
          end
    end.

(** Lines 290-303. *)
Definition blacklist_maintenance (now : Z) (w : Working) : Working :=
  let '(bl, probation_list) := Maintenance now (w_blacklist w) in
  {| w_backends := w_backends w;
     w_groups := foldl (fun gs be_desc => on_groups_of AddExecutor be_desc gs)
                   (w_groups w) probation_list;
     w_blacklist := bl;
     w_update_local_server := w_update_local_server w |}.

(** Lines 309-320. *)
Definition apply_local_backend (local_backend_id : string) (l : TBackendDescriptor)
    (w : Working) : Working :=
  {| w_backends := <[local_backend_id := l]> (w_backends w);
     w_groups :=
       if is_quiescing l then on_groups_of RemoveExecutor l (w_groups w)
       else if is_executor l then on_groups_of AddExecutor l (w_groups w)
       else w_groups w;
     w_blacklist := w_blacklist w;
     w_update_local_server := w_update_local_server w |}.

(** [AddLocalBackendToStatestore]: the topic update that advertises the
    local backend. *)
Definition local_backend_update (local_backend_id : string) (l : TBackendDescriptor)
  : TTopicDelta :=
  {| topic_name := IMPALA_MEMBERSHIP_TOPIC; is_delta := true;
     topic_entries := [{| key := local_backend_id; value := Some l; deleted := false |}] |}.

Record UpdateResult := {
  ur_mgr : ClusterMembershipMgr;
  ur_subscriber_topic_updates : list TTopicDelta;
  ur_notified_local_server : bool;   (* NotifyLocalServerForDeletedBackend ran *)
  ur_updated_frontend : bool         (* UpdateFrontendExecutorMembership ran *)
}.

(** The snapshot a writer starts from: the recovering one if there is one. *)
Definition base_snapshot (m : ClusterMembershipMgr) : option Snapshot :=
  match recovering_membership_ m with
  | Some r => Some r
  | None => current_membership_ m
  end.

Definition unchanged (m : ClusterMembershipMgr) (updates : list TTopicDelta)
  : UpdateResult :=
  {| ur_mgr := m; ur_subscriber_topic_updates := updates;
     ur_notified_local_server := false; ur_updated_frontend := false |}.

(** [UpdateMembership]. [None] is the undefined behaviour of dereferencing
    a null [base_snapshot]. *)
Definition UpdateMembership (env : UpdateEnv)
    (incoming_topic_deltas : gmap string TTopicDelta)
    (subscriber_topic_updates : list TTopicDelta) (m : ClusterMembershipMgr)
  : option UpdateResult :=
  match incoming_topic_deltas !! IMPALA_MEMBERSHIP_TOPIC with
  | None => Some (unchanged m subscriber_topic_updates)
  | Some update =>
      let no_ss_update :=
        is_delta update && bool_decide (topic_entries update = []) in
      match base_snapshot m with
      | None => None
      | Some base =>
          let local := env_local_be_desc env in
          let needs_local_be_update :=
            NeedsLocalBackendUpdate (local_backend_id_ m) base local in
          let ss_is_recovering := env_ss_is_recovering env in
          let update_local_server :=
            bool_decide (recovering_membership_ m <> None) && negb ss_is_recovering in
          let needs_blacklist_maintenance :=
            NeedsMaintenance (env_now env) (executor_blacklist base) in
          if no_ss_update && negb needs_local_be_update && negb update_local_server
             && negb needs_blacklist_maintenance
          then Some (unchanged m subscriber_topic_updates)
          else
            (* a new state: fresh, the recovering one, or a copy of the current one *)
            let start := if is_delta update then base else empty_Snapshot in
            let update_local_server :=
              if is_delta update then update_local_server else true in
            let new_local := match local with Some l => Some l | None => local_be_desc start end in
            let new_version := version start + 1 in
            let w0 := {| w_backends := current_backends start;
                         w_groups := executor_groups_ start;
                         w_blacklist := executor_blacklist start;
                         w_update_local_server := update_local_server |} in
            let w1 := foldl (process_topic_item (local_backend_id_ m)) w0
                        (topic_entries update) in
            let w2 := if needs_blacklist_maintenance
                      then blacklist_maintenance (env_now env) w1 else w1 in
            let state2 := {| local_be_desc := new_local;
                             current_backends := w_backends w2;
                             executor_groups_ := w_groups w2;
                             executor_blacklist := w_blacklist w2;
                             version := new_version |} in
            let '(w3, updates) :=
              match local with
              | Some l =>
                  if NeedsLocalBackendUpdate (local_backend_id_ m) state2 local
                  then (apply_local_backend (local_backend_id_ m) l w2,
                        subscriber_topic_updates
                          ++ [local_backend_update (local_backend_id_ m) l])
                  else (w2, subscriber_topic_updates)
              | None => (w2, subscriber_topic_updates)
              end in
            let new_state := {| local_be_desc := new_local;
                                current_backends := w_backends w3;
                                executor_groups_ := w_groups w3;
                                executor_blacklist := w_blacklist w3;
                                version := new_version |} in
            if ss_is_recovering then
              Some {| ur_mgr :=
                        {| current_membership_ := current_membership_ m;
                           recovering_membership_ := Some new_state;
                           local_backend_id_ := local_backend_id_ m;
                           published := published m |};
                      ur_subscriber_topic_updates := updates;
                      ur_notified_local_server := false;
                      ur_updated_frontend := false |}
            else
              let m' := SetState (Some new_state) m in
              Some {| ur_mgr :=
                        {| current_membership_ := current_membership_ m';
                           recovering_membership_ := None;
                           local_backend_id_ := local_backend_id_ m';
                           published := published m' |};
                      ur_subscriber_topic_updates := updates;
                      ur_notified_local_server := w_update_local_server w3;
                      ur_updated_frontend := true |}
      end
  end.

(** ** [BlacklistExecutor] *)

(** Whether some group of [be_desc] holds a backend with its address
    (lines 363-371). *)
Definition exists_in_groups (be_desc : TBackendDescriptor) (base : Snapshot) : bool :=
  existsb (fun group =>
    match executor_groups_ base !! name group with
    | Some g => bool_decide (LookUpBackendDesc g (address be_desc) <> None)
    | None => false
    end) (executor_groups be_desc).

(** [BlacklistExecutor]; [BlacklistingEnabled] is the value of
    [ExecutorBlacklist::BlacklistingEnabled()]. [None] is the undefined
    behaviour of dereferencing a null [current_membership_] or a null
    [local_be_desc] in lines 348-349. *)
Definition BlacklistExecutor (BlacklistingEnabled : bool) (now : Z)
    (be_desc : TBackendDescriptor) (m : ClusterMembershipMgr)
  : option ClusterMembershipMgr :=
  if negb BlacklistingEnabled then Some m
  else
    match current_membership_ m with
    | None => None
    | Some current =>
        match local_be_desc current with
        | None => None
        | Some l =>
            if bool_decide (ip_address be_desc = ip_address l)
               && bool_decide (port (address be_desc) = port (address l))
            then Some m
            else
              let base := default current (recovering_membership_ m) in
              if negb (exists_in_groups be_desc base) then Some m
              else
                let new_state :=
                  {| local_be_desc := local_be_desc base;
                     current_backends := current_backends base;
                     executor_groups_ :=
                       on_groups_of RemoveExecutor be_desc (executor_groups_ base);
                     executor_blacklist :=
                       Blacklist now be_desc (executor_blacklist base);
                     version := version base |} in
                match recovering_membership_ m with
                | Some _ =>
                    (* applied to the recovering snapshot in place *)
                    Some {| current_membership_ := current_membership_ m;
                            recovering_membership_ := Some new_state;
                            local_backend_id_ := local_backend_id_ m;
                            published := published m |}
                | None => Some (SetState (Some new_state) m)
                end
        end
    end.

(** ** Runs of the manager *)

Inductive Call :=
  | CallUpdateMembership (env : UpdateEnv)
      (incoming_topic_deltas : gmap string TTopicDelta)
  | CallBlacklistExecutor (BlacklistingEnabled : bool) (now : Z)
      (be_desc : TBackendDescriptor).

Definition call (c : Call) (m : ClusterMembershipMgr) : option ClusterMembershipMgr :=
  match c with
  | CallUpdateMembership env deltas => ur_mgr <$> UpdateMembership env deltas [] m
  | CallBlacklistExecutor enabled now be_desc => BlacklistExecutor enabled now be_desc m
  end.

(** The calls are serialized by [update_membership_lock_]. *)
Fixpoint run (calls : list Call) (m : ClusterMembershipMgr)
  : option ClusterMembershipMgr :=
  match calls with
  | [] => Some m
  | c :: calls' =>
      match call c m with
      | Some m' => run calls' m'
      | None => None
      end
  end.

End WithTimeouts.

(** ** Groups without an address *)

(** The environment of the same call once the statestore subscriber is out
    of its grace period. *)
Definition after_grace_period (env : UpdateEnv) : UpdateEnv :=
  {| env_local_be_desc := env_local_be_desc env;
     env_ss_is_recovering := false;
     env_now := env_now env |}.

(** The group of the given name, if there is one, holds no executor at the
    address. *)
Definition group_lacks (a : TNetworkAddress) (groups : gmap string ExecutorGroup)
    (n : string) : Prop :=
  match groups !! n with
  | Some g => LookUpBackendDesc g a = None
  | None => True
  end.

(** ** Data for the scenarios *)

Definition g1 : TExecutorGroupDesc := {| name := "g1"; min_size := 1 |}.
Definition g2 : TExecutorGroupDesc := {| name := "g2"; min_size := 1 |}.

(** A backend on the given host. *)
Definition backend (host : string) (executor quiescing : bool)
    (groups : list TExecutorGroupDesc) : TBackendDescriptor :=
  {| address := {| hostname := host; port := 22000 |}; ip_address := host;
     is_coordinator := true; is_executor := executor; is_quiescing := quiescing;
     executor_groups := groups |}.

Definition topic_update (delta : bool) (items : list TTopicItem)
  : gmap string TTopicDelta :=
  {[ IMPALA_MEMBERSHIP_TOPIC :=
       {| topic_name := IMPALA_MEMBERSHIP_TOPIC; is_delta := delta;
          topic_entries := items |} ]}.

Definition put (k : string) (be_desc : TBackendDescriptor) : TTopicItem :=
  {| key := k; value := Some be_desc; deleted := false |}.

Definition del (k : string) : TTopicItem :=
  {| key := k; value := None; deleted := true |}.

(** The local backend has not started; the statestore is not recovering. *)
Definition env_no_local (now : Z) : UpdateEnv :=
  {| env_local_be_desc := None; env_ss_is_recovering := false; env_now := now |}.

(** The local backend is a coordinator only. *)
Definition env_local (now : Z) : UpdateEnv :=
  {| env_local_be_desc := Some (backend "local" false false []);
     env_ss_is_recovering := false; env_now := now |}.

Definition A : TBackendDescriptor := backend "hostA" true false [g1].
Definition B : TBackendDescriptor := backend "hostB" true false [g1; g2].

(** Blacklisted for 12 s, on probation for 5 s (the clock is in ms). *)
Definition run_ms := run 12000 5000.

(** Groups of a snapshot as lists of host names. *)
Definition hosts_of (s : Snapshot) : list (string * list string) :=
  (fun '(n, g) => (n, (fun be => hostname (address be)) <$> GetAllExecutorDescriptors g))
    <$> map_to_list (executor_groups_ s).

(** The statestore subscriber is in its grace period after a recovery. *)
Definition env_recovering (now : Z) : UpdateEnv :=
  {| env_local_be_desc := None; env_ss_is_recovering := true; env_now := now |}.

(** A manager "local" with an empty snapshot waiting in
    [recovering_membership_]. *)
Definition mgr_recovering : ClusterMembershipMgr :=
  {| current_membership_ := Some empty_Snapshot;
     recovering_membership_ := Some empty_Snapshot;
     local_backend_id_ := "local";
     published := [] |}.

(** A manager "local" that has learnt of backend [A] under the id "a":
    before its local backend has started, and with it. *)
Definition mgr_A : ClusterMembershipMgr :=
  default (new_ClusterMembershipMgr "local")
    (run_ms [CallUpdateMembership (env_no_local 0) (topic_update true [put "a" A])]
       (new_ClusterMembershipMgr "local")).

Definition mgr_local_A : ClusterMembershipMgr :=
  default (new_ClusterMembershipMgr "local")
    (run_ms [CallUpdateMembership (env_local 0) (topic_update true [put "a" A])]
       (new_ClusterMembershipMgr "local")).

End CMM.

(* ===================================================================== *)
(** * Properties of the sink *)
(* ===================================================================== *)

Module SinkProofs.
Import Sink.

Section WithEvaluators.

Variable output_expr_evals : TupleRow -> option ResultRow.

Local Abbreviation AddRows := (Sink.AddRows output_expr_evals).
Local Abbreviation Send_pass := (Sink.Send_pass output_expr_evals).
Local Abbreviation exec := (Sink.exec output_expr_evals).
Local Abbreviation run := (Sink.run output_expr_evals).

Lemma batch_rows_length (batch : RowBatch) (cur n : Z) :
  0 <= cur -> 0 <= n -> cur + n <= num_rows batch ->
  Z.of_nat (length (batch_rows batch cur n)) = n.
Proof.
  unfold batch_rows, num_rows. intros Hc Hn Hle.
  rewrite length_take, length_drop. lia.
Qed.

Lemma num_to_fetch_bounds (batch : RowBatch) (cur req : Z) :
  0 <= cur < num_rows batch ->
  0 < num_to_fetch batch cur req <= num_rows batch - cur.
Proof.
  unfold num_to_fetch. intros H.
  destruct (0 <? req) eqn:E; [apply Z.ltb_lt in E|]; lia.
Qed.

(** What a pass does once it is past the cancellation check: it asks
    [AddRows] for exactly [num_to_fetch] rows and, when that succeeds,
    advances, clears [results_] and notifies the consumer. *)
Lemma Send_pass_copy (state : RuntimeState) (batch : RowBatch) (cur : Z)
    (s : SinkState) (p : ptr) (vs : list ResultRow) :
  results_ s = Some p ->
  is_cancelled state = false ->
  mapM output_expr_evals
    (batch_rows batch cur (num_to_fetch batch cur (num_rows_requested_ s))) = Some vs ->
  Send_pass state batch cur s =
    (Continue (cur + num_to_fetch batch cur (num_rows_requested_ s)),
     {| sender_state_ := sender_state_ s;
        results_ := None;
        num_rows_requested_ := num_rows_requested_ s;
        memory := <[p := {| rs_rows := rs_rows (memory s !!! p) ++ vs |}]> (memory s);
        sender_cv_notified := sender_cv_notified s;
        consumer_cv_notified := S (consumer_cv_notified s) |}).
Proof.
  intros Hres Hc Hev. unfold Send_pass, AddRows.
  rewrite Hres, Hc, Hev. reflexivity.
Qed.

(** C5. On a producer pass that finds a result set published by the
    consumer, [Send] copies [min (remaining, num_rows_requested)] rows when
    [num_rows_requested > 0] and all remaining rows when it is [0]; the
    cursor moves on by that count, [results_] is [nullptr] again and
    [consumer_cv_] has been notified. The pass is the one that reaches the
    copy: the query is not cancelled and the evaluators produce the rows
    ([vs] are the converted rows appended to the consumer's result set). *)
Theorem Send_pass_fetches (state : RuntimeState) (batch : RowBatch) (cur : Z)
    (s : SinkState) (p : ptr) (vs : list ResultRow) :
  let remaining := num_rows batch - cur in
  let n := if decide (num_rows_requested_ s = 0) then remaining
           else Z.min remaining (num_rows_requested_ s) in
  results_ s = Some p ->
  is_cancelled state = false ->
  0 <= cur < num_rows batch ->
  0 <= num_rows_requested_ s ->
  mapM output_expr_evals (batch_rows batch cur n) = Some vs ->
  let '(r, s') := Send_pass state batch cur s in
  r = Continue (cur + n)
  /\ Z.of_nat (length vs) = n
  /\ memory s' !! p = Some {| rs_rows := rs_rows (memory s !!! p) ++ vs |}
  /\ results_ s' = None
  /\ consumer_cv_notified s' = S (consumer_cv_notified s)
  /\ sender_state_ s' = sender_state_ s.
Proof.
  intros remaining n Hres Hc Hcur Hreq Hev.
  assert (Hn : num_to_fetch batch cur (num_rows_requested_ s) = n).
  { unfold num_to_fetch, n, remaining.
    destruct (decide (num_rows_requested_ s = 0)) as [->|Hne]; [reflexivity|].
    destruct (0 <? num_rows_requested_ s) eqn:E; [reflexivity|].
    apply Z.ltb_ge in E. lia. }
  rewrite (Send_pass_copy state batch cur s p vs Hres Hc) by (rewrite Hn; exact Hev).
  rewrite Hn. cbn [memory results_ consumer_cv_notified sender_state_].
  repeat split.
  - apply length_mapM in Hev. rewrite <- Hev.
    pose proof (num_to_fetch_bounds batch cur (num_rows_requested_ s) Hcur).
    apply batch_rows_length; lia.
  - apply lookup_insert_eq.
Qed.

(** C10. A [GetNext] with [num_results <= 0] is served like an unbounded
    one: the next pass of [Send] copies every remaining row of the batch. *)
Theorem GetNext_nonpositive_is_unbounded (state : RuntimeState)
    (batch : RowBatch) (cur : Z) (s : SinkState) (p : ptr) (num_results : Z)
    (vs : list ResultRow) :
  num_results <= 0 ->
  is_cancelled state = false ->
  0 <= cur < num_rows batch ->
  mapM output_expr_evals (drop (Z.to_nat cur) batch) = Some vs ->
  let s1 := GetNext_publish p num_results s in
  let '(r, s') := Send_pass state batch cur s1 in
  num_to_fetch batch cur (num_rows_requested_ s1) = num_rows batch - cur
  /\ r = Continue (num_rows batch)
  /\ Z.of_nat (length vs) = num_rows batch - cur
  /\ memory s' !! p = Some {| rs_rows := rs_rows (memory s !!! p) ++ vs |}
  /\ results_ s' = None.
Proof.
  intros Hn Hc Hcur Hev s1.
  assert (Hf : num_to_fetch batch cur (num_rows_requested_ s1) = num_rows batch - cur).
  { unfold num_to_fetch, s1. cbn. destruct (0 <? num_results) eqn:E; [|reflexivity].
    apply Z.ltb_lt in E. lia. }
  assert (Hall : batch_rows batch cur (num_rows batch - cur) = drop (Z.to_nat cur) batch).
  { unfold batch_rows, num_rows in *. apply take_ge. rewrite length_drop. lia. }
  rewrite (Send_pass_copy state batch cur s1 p vs eq_refl Hc)
    by (rewrite Hf, Hall; exact Hev).
  rewrite Hf. cbn [memory results_]. repeat split.
  - f_equal. lia.
  - apply length_mapM in Hev. rewrite <- Hev, length_drop. unfold num_rows in *. lia.
  - apply lookup_insert_eq.
Qed.

Lemma exec_keeps_closed (o : Op) (s : SinkState) :
  is_FlushFinal o = false ->
  sender_state_ s = CLOSED_NOT_EOS ->
  sender_state_ (exec o s).1 = CLOSED_NOT_EOS.
Proof.
  intros Ho Hs. destruct o as [state batch cur| | | |q n|state]; try discriminate; cbn.
  - unfold Send_pass.
    destruct (results_ s), (is_cancelled state); try exact Hs.
    destruct (AddRows _ _ _ _) as [[] ?]; exact Hs.
  - rewrite Hs. reflexivity.
  - exact Hs.
  - exact Hs.
  - exact Hs.
Qed.

Lemma exec_closed_eos (o : Op) (s : SinkState) (r : bool * Status) :
  sender_state_ s = CLOSED_NOT_EOS ->
  (exec o s).2 = Some r -> r.1 = false.
Proof.
  intros Hs. destruct o; cbn; try discriminate.
  unfold GetNext_return. destruct (GetNext_waits state s); [discriminate|].
  intros [= <-]. cbn. rewrite Hs. reflexivity.
Qed.

Lemma run_closed_eos (ops : list Op) (s : SinkState) :
  forallb (fun o => negb (is_FlushFinal o)) ops = true ->
  sender_state_ s = CLOSED_NOT_EOS ->
  Forall (fun r : bool * Status => r.1 = false) (run ops s).2.
Proof.
  revert s. induction ops as [|o ops IH]; intros s Hops Hs; cbn.
  - constructor.
  - cbn in Hops. apply andb_true_iff in Hops as [Ho Hops].
    apply negb_true_iff in Ho.
    pose proof (exec_keeps_closed o s Ho Hs) as Hk.
    pose proof (exec_closed_eos o s) as He.
    destruct (exec o s) as [s1 r]. cbn in Hk, He.
    specialize (IH s1 Hops Hk).
    destruct (run ops s1) as [s2 rs]. cbn in IH |- *.
    destruct r as [x|]; [constructor; [apply He; auto | exact IH] | exact IH].
Qed.

(** A [GetNext] issued after the sink was closed does not block. *)
Lemma GetNext_after_close_returns (state : RuntimeState) (s : SinkState) :
  sender_state_ s = CLOSED_NOT_EOS ->
  GetNext_return state s = Some (false, GetQueryStatus state).
Proof.
  intros Hs. unfold GetNext_return, GetNext_waits. rewrite Hs. reflexivity.
Qed.

(** C4. [Close] in state [ROWS_PENDING] (no [FlushFinal] so far) leaves
    [CLOSED_NOT_EOS]; whatever the two threads do afterwards, short of
    [FlushFinal], every [GetNext] that returns reports [eos = false], and
    a [GetNext] does return then. *)
Theorem Close_before_FlushFinal (s : SinkState) (ops : list Op) :
  sender_state_ s = ROWS_PENDING ->
  forallb (fun o => negb (is_FlushFinal o)) ops = true ->
  sender_state_ (Close s) = CLOSED_NOT_EOS
  /\ Forall (fun r : bool * Status => r.1 = false) (run ops (Close s)).2
  /\ forall state results num_results,
       GetNext_return state (GetNext_publish results num_results (run ops (Close s)).1)
       = Some (false, GetQueryStatus state).
Proof.
  intros Hs Hops.
  assert (Hc : sender_state_ (Close s) = CLOSED_NOT_EOS) by (cbn; rewrite Hs; reflexivity).
  split; [exact Hc|]. split; [apply run_closed_eos; assumption|].
  intros state results num_results. apply GetNext_after_close_returns. cbn.
  clear Hs. revert Hc Hops. generalize (Close s). clear s.
  induction ops as [|o ops IH]; intros s Hc Hops; cbn; [exact Hc|].
  cbn in Hops. apply andb_true_iff in Hops as [Ho Hops]. apply negb_true_iff in Ho.
  pose proof (exec_keeps_closed o s Ho Hc) as Hk.
  destruct (exec o s) as [s1 r]. cbn in Hk. specialize (IH s1 Hk Hops).
  destruct (run ops s1) as [s2 rs]. exact IH.
Qed.


Local Abbreviation Send_loop := (Sink.Send_loop output_expr_evals).
Local Abbreviation Send := (Sink.Send output_expr_evals).

(** ** [Send], with its consumer *)

Lemma mapM_batch_rows (batch : RowBatch) (vs : list ResultRow) (cur n : Z) :
  mapM output_expr_evals batch = Some vs ->
  mapM output_expr_evals (batch_rows batch cur n)
  = Some (take (Z.to_nat n) (drop (Z.to_nat cur) vs)).
Proof.
  intros H. apply mapM_Some. apply mapM_Some in H.
  unfold batch_rows. apply Forall2_take, Forall2_drop. exact H.
Qed.

Lemma rows_fetched_none (remaining : Z) (ns : list Z) :
  remaining <= 0 -> rows_fetched remaining ns = 0.
Proof.
  intros H. destruct ns as [|n ns]; [reflexivity|]. cbn [rows_fetched].
  destruct (remaining <=? 0) eqn:E; [reflexivity|]. apply Z.leb_gt in E. lia.
Qed.

Lemma rows_fetched_bounds (ns : list Z) (remaining : Z) :
  0 <= remaining -> 0 <= rows_fetched remaining ns <= remaining.
Proof.
  revert remaining. induction ns as [|n ns IH]; intros remaining H; cbn [rows_fetched];
    [lia|].
  destruct (remaining <=? 0) eqn:E; [lia|]. apply Z.leb_gt in E.
  destruct (0 <? n) eqn:En; [apply Z.ltb_lt in En|].
  - pose proof (IH (remaining - Z.min remaining n) ltac:(lia)). lia.
  - pose proof (IH (remaining - remaining) ltac:(lia)). lia.
Qed.

(** The loop, from any row of the batch. *)
Lemma Send_rounds (state : RuntimeState) (batch : RowBatch)
    (vs : list ResultRow) (p : ptr) :
  is_cancelled state = false ->
  mapM output_expr_evals batch = Some vs ->
  forall (fuel : nat) (requests : list (ptr * Z)) (cur : Z) (s : SinkState),
    Forall (fun q => q.1 = p) requests ->
    (2 * length requests + match results_ s with Some _ => 2 | None => 1 end <= fuel)%nat ->
    0 <= cur <= num_rows batch ->
    results_ s = None \/ results_ s = Some p ->
    let k := cur + rows_fetched (num_rows batch - cur)
                     (pending_request s ++ (snd <$> requests)) in
    exists r s',
      Send_loop fuel state batch cur requests s = Some (r, s')
      /\ rs_rows (memory s' !!! p)
         = rs_rows (memory s !!! p)
           ++ take (Z.to_nat (k - cur)) (drop (Z.to_nat cur) vs)
      /\ (forall q, q <> p -> memory s' !! q = memory s !! q)
      /\ (r = Returned OK /\ k = num_rows batch
          \/ r = Waiting /\ k < num_rows batch /\ results_ s' = None)
      /\ sender_state_ s' = sender_state_ s.
Proof.
  intros Hc Hev fuel.
  induction fuel as [|fuel IH]; intros requests cur s Hreqs Hfuel Hcur Hres k;
    [destruct (results_ s); lia|].
  cbn [Sink.Send_loop].
  destruct (cur <? num_rows batch) eqn:Hlt.
  2:{ apply Z.ltb_ge in Hlt.
      assert (Hk : k = cur) by (unfold k; rewrite rows_fetched_none by lia; lia).
      exists (Returned OK), s. split; [reflexivity|].
      rewrite Hk. replace (Z.to_nat (cur - cur)) with 0%nat by lia.
      rewrite take_0, app_nil_r.
      split; [reflexivity|]. split; [reflexivity|]. split; [|reflexivity].
      left. split; [reflexivity|lia]. }
  apply Z.ltb_lt in Hlt.
  destruct Hres as [Hres|Hres].
  - (* the producer waits for a request *)
    unfold Sink.Send_pass at 1. rewrite Hres, Hc.
    destruct requests as [|[q n] requests].
    + assert (Hk : k = cur).
      { unfold k, pending_request. rewrite Hres. cbn. lia. }
      exists Waiting, s. split; [reflexivity|].
      rewrite Hk. replace (Z.to_nat (cur - cur)) with 0%nat by lia.
      rewrite take_0, app_nil_r.
      split; [reflexivity|]. split; [reflexivity|]. split; [|reflexivity].
      right. split; [reflexivity|]. split; [lia|exact Hres].
    + apply Forall_cons in Hreqs as [Hq Hreqs]. cbn in Hq. subst q.
      rewrite Hres in Hfuel. cbn [length] in Hfuel.
      destruct (IH requests cur (GetNext_publish p n s) Hreqs)
        as (r & s' & Hsend & Hrows & Hframe & Hout & Hst);
        [cbn; lia|lia|right; reflexivity|].
      assert (Hk : cur + rows_fetched (num_rows batch - cur)
                         (pending_request (GetNext_publish p n s) ++ (snd <$> requests))
                   = k).
      { unfold k, pending_request. rewrite Hres. reflexivity. }
      rewrite Hk in Hrows, Hout.
      exists r, s'. auto 10.
  - (* a request is pending: the pass copies *)
    rewrite Hres in Hfuel.
    set (m := num_to_fetch batch cur (num_rows_requested_ s)).
    pose proof (num_to_fetch_bounds batch cur (num_rows_requested_ s) ltac:(lia)) as Hm.
    fold m in Hm.
    rewrite (Send_pass_copy state batch cur s p
               (take (Z.to_nat m) (drop (Z.to_nat cur) vs)) Hres Hc)
      by (apply mapM_batch_rows; exact Hev).
    fold m. set (s2 := {| sender_state_ := sender_state_ s |}).
    destruct (IH requests (cur + m) s2 Hreqs)
      as (r & s' & Hsend & Hrows & Hframe & Hout & Hst);
      [cbn; lia|lia|left; reflexivity|].
    assert (Hk : cur + m + rows_fetched (num_rows batch - (cur + m))
                           (pending_request s2 ++ (snd <$> requests)) = k).
    { unfold k, pending_request. rewrite Hres. cbn [results_ s2 app rows_fetched].
      destruct (num_rows batch - cur <=? 0) eqn:E; [apply Z.leb_le in E; lia|].
      fold (num_to_fetch batch cur (num_rows_requested_ s)). fold m.
      rewrite <- Z.add_assoc. do 3 f_equal. lia. }
    rewrite Hk in Hrows, Hout.
    assert (Hkm : cur + m <= k).
    { rewrite <- Hk.
      pose proof (rows_fetched_bounds (pending_request s2 ++ (snd <$> requests))
                    (num_rows batch - (cur + m)) ltac:(lia)). lia. }
    exists r, s'. split; [exact Hsend|].
    split.
    { rewrite Hrows. unfold s2. cbn [memory]. rewrite lookup_total_insert_eq.
      cbn [rs_rows]. rewrite <- app_assoc. f_equal.
      replace (Z.to_nat (k - cur)) with (Z.to_nat m + Z.to_nat (k - (cur + m)))%nat
        by lia.
      rewrite <- take_take_drop, drop_drop. do 3 f_equal. lia. }
    split.
    { intros q Hq. rewrite (Hframe q Hq). unfold s2. cbn [memory].
      rewrite lookup_insert_ne by congruence. reflexivity. }
    split; [exact Hout|]. rewrite Hst. reflexivity.
Qed.

(** X1. [Send] delivers the rows of the batch in order, each once. When
    the pre-check of line 42 fails, [Send] returns its error and touches
    nothing. When it passes, the query is not cancelled, the evaluators
    convert every row ([vs] are the converted rows) and the consumer
    fetches into one result set [p], the loop comes to an end within two
    passes per request, and the result set gains the first [k] converted
    rows of the batch, none left out, none twice, where [k] is what the
    requests add up to ([rows_fetched]); no other result set changes;
    [Send] returns, with [OK], exactly when [k] is the whole batch, and
    else waits for the next [GetNext]. *)
Theorem Send_delivers_in_order (state : RuntimeState) (batch : RowBatch)
    (vs : list ResultRow) (p : ptr) (requests : list (ptr * Z)) (s : SinkState) :
  is_cancelled state = false ->
  mapM output_expr_evals batch = Some vs ->
  Forall (fun q => q.1 = p) requests ->
  results_ s = None \/ results_ s = Some p ->
  let k := rows_fetched (num_rows batch) (pending_request s ++ (snd <$> requests)) in
  (forall fuel err, err <> OK ->
     Send fuel state batch err requests s = Some (Returned err, s))
  /\ exists r s',
       Send (2 * length requests + 2) state batch OK requests s = Some (r, s')
       /\ 0 <= k <= num_rows batch
       /\ rs_rows (memory s' !!! p) = rs_rows (memory s !!! p) ++ take (Z.to_nat k) vs
       /\ (forall q, q <> p -> memory s' !! q = memory s !! q)
       /\ (r = Returned OK /\ k = num_rows batch
           \/ r = Waiting /\ k < num_rows batch /\ results_ s' = None)
       /\ sender_state_ s' = sender_state_ s.
Proof.
  intros Hc Hev Hreqs Hres k.
  split; [intros fuel err Herr; destruct err; [contradiction|reflexivity..]|].
  assert (Hn : 0 <= num_rows batch) by (unfold num_rows; lia).
  destruct (Send_rounds state batch vs p Hc Hev (2 * length requests + 2) requests 0 s
              Hreqs) as (r & s' & Hsend & Hrows & Hframe & Hout & Hst);
    [destruct (results_ s); lia|lia|exact Hres|].
  rewrite Z.sub_0_r, Z.add_0_l in Hrows, Hout. fold k in Hrows, Hout.
  rewrite Z.sub_0_r in Hrows. cbn [Z.to_nat drop] in Hrows.
  exists r, s'. split; [exact Hsend|].
  split; [apply rows_fetched_bounds; exact Hn|]. auto.
Qed.

(** ** After [FlushFinal] *)

Lemma exec_keeps_eos (o : Op) (s : SinkState) :
  sender_state_ s = EOS -> sender_state_ (exec o s).1 = EOS.
Proof.
  intros Hs. destruct o as [state batch cur| | | |q n|state]; cbn;
    try exact Hs; try reflexivity.
  - unfold Sink.Send_pass.
    destruct (results_ s), (is_cancelled state); try exact Hs.
    destruct (AddRows _ _ _ _) as [[] ?]; exact Hs.
  - rewrite Hs. reflexivity.
Qed.

Lemma run_eos (ops : list Op) (s : SinkState) :
  sender_state_ s = EOS ->
  sender_state_ (run ops s).1 = EOS
  /\ (run ops s).2
     = omap (fun o => match o with
                      | OpGetNextReturn state => Some (true, GetQueryStatus state)
                      | _ => None
                      end) ops.
Proof.
  revert s. induction ops as [|o ops IH]; intros s Hs; cbn [Sink.run omap list_omap].
  - split; [exact Hs|reflexivity].
  - pose proof (exec_keeps_eos o s Hs) as Hk.
    assert (Hr : (exec o s).2
                 = match o with
                   | OpGetNextReturn state => Some (true, GetQueryStatus state)
                   | _ => None
                   end).
    { destruct o; try reflexivity. cbn. unfold GetNext_return, GetNext_waits.
      rewrite Hs. reflexivity. }
    destruct (exec o s) as [s1 r]. cbn [fst snd] in Hk, Hr. subst r.
    destruct (IH s1 Hk) as [IH1 IH2].
    destruct (run ops s1) as [s2 rs]. cbn [fst snd] in IH1, IH2 |- *.
    split; [exact IH1|]. rewrite IH2. destruct o; reflexivity.
Qed.

(** X2. [EOS] is final. After [FlushFinal], whatever the two threads do
    ([Close] and [Cancel] included), every [GetNext] returns without
    waiting and reports [eos = true] with the status of the query. *)
Theorem FlushFinal_is_final (s : SinkState) (ops : list Op) :
  let s0 := (FlushFinal s).2 in
  sender_state_ (run ops s0).1 = EOS
  /\ (run ops s0).2
     = omap (fun o => match o with
                      | OpGetNextReturn state => Some (true, GetQueryStatus state)
                      | _ => None
                      end) ops
  /\ forall state results num_results,
       GetNext_return state (GetNext_publish results num_results (run ops s0).1)
       = Some (true, GetQueryStatus state).
Proof.
  intros s0. destruct (run_eos ops s0 eq_refl) as [H1 H2].
  split; [exact H1|]. split; [exact H2|].
  intros state results num_results. unfold GetNext_return, GetNext_waits.
  cbn [sender_state_ GetNext_publish]. rewrite H1. reflexivity.
Qed.

(** ** The result sets the sink writes *)

Lemma exec_memory (o : Op) (s : SinkState) (q : ptr) :
  results_ s <> Some q ->
  match o with OpGetNextPublish p _ => p <> q | _ => True end ->
  results_ (exec o s).1 <> Some q
  /\ memory (exec o s).1 !! q = memory s !! q.
Proof.
  intros Hres Ho. destruct o as [state batch cur| | | |p n|state]; cbn;
    try (split; [exact Hres|reflexivity]).
  - unfold Sink.Send_pass.
    destruct (results_ s) as [p|] eqn:Hp, (is_cancelled state); cbn [snd];
      try (split; [rewrite Hp; exact Hres|reflexivity]).
    destruct (AddRows _ _ _ _) as [[] rs']; cbn [snd];
      try (split; [rewrite Hp; exact Hres|reflexivity]).
    cbn. split; [discriminate|]. apply lookup_insert_ne. congruence.
  - split; [congruence|reflexivity].
Qed.

(** X3. The sink writes only into result sets that were handed to [GetNext]:
    over any run, a result set that is not the one published at the start
    and is not published during the run stays as it is. *)
Theorem only_published_results_change (ops : list Op) (s : SinkState) (q : ptr) :
  results_ s <> Some q ->
  Forall (fun o => match o with OpGetNextPublish p _ => p <> q | _ => True end) ops ->
  memory (run ops s).1 !! q = memory s !! q.
Proof.
  revert s. induction ops as [|o ops IH]; intros s Hres Hops; cbn [Sink.run];
    [reflexivity|].
  apply Forall_cons in Hops as [Ho Hops].
  destruct (exec_memory o s q Hres Ho) as [H1 H2].
  destruct (exec o s) as [s1 r]. cbn [fst] in H1, H2.
  specialize (IH s1 H1 Hops). destruct (run ops s1) as [s2 rs].
  cbn [fst] in IH |- *. congruence.
Qed.

(** ** An error of the evaluators *)

(** X4. When [AddRows] returns an error, [Send] returns that error at once
    ([RETURN_IF_ERROR], line 62): it neither clears [results_] nor signals
    the consumer. So the [GetNext] that published the result set keeps
    waiting, and does so until [Close] releases it, with [eos = false].
    Nothing is said of what the failed [AddRows] left in the result set. *)
Theorem Send_error_leaves_GetNext_waiting (state : RuntimeState) (batch : RowBatch)
    (cur : Z) (s : SinkState) (p : ptr) (err : Status) :
  results_ s = Some p ->
  is_cancelled state = false ->
  sender_state_ s = ROWS_PENDING ->
  (AddRows (memory s !!! p) batch cur
     (num_to_fetch batch cur (num_rows_requested_ s))).1 = err ->
  err <> OK ->
  let '(r, s') := Send_pass state batch cur s in
  r = Returned err
  /\ results_ s' = Some p
  /\ sender_state_ s' = ROWS_PENDING
  /\ consumer_cv_notified s' = consumer_cv_notified s
  /\ GetNext_return state s' = None
  /\ GetNext_return state (Close s') = Some (false, GetQueryStatus state).
Proof.
  intros Hres Hc Hs Hadd Herr. unfold Sink.Send_pass. rewrite Hres, Hc.
  destruct (AddRows _ _ _ _) as [st rs']. cbn [fst] in Hadd. subst st.
  assert (Hwait : GetNext_return state s = None
                  /\ GetNext_return state (Close s) = Some (false, GetQueryStatus state)).
  { unfold GetNext_return, GetNext_waits. cbn [sender_state_ results_ Close].
    rewrite Hs, Hres, Hc. cbn. split; reflexivity. }
  destruct Hwait as [W1 W2].
  destruct err; [contradiction|..]; auto 10.
Qed.



End WithEvaluators.

(** ** Scenarios *)

(** A batch of five rows, [GetNext(3)] then [GetNext(10)], then
    [FlushFinal]: three rows, two rows, and [eos]. *)
Example sink_happy_path :
  run Some [OpGetNextPublish 0%nat 3; OpSendPass running five_rows 0;
            OpGetNextReturn running;
            OpGetNextPublish 0%nat 10; OpSendPass running five_rows 3;
            OpGetNextReturn running;
            OpFlushFinal;
            OpGetNextPublish 0%nat 10; OpGetNextReturn running] initial
  = ({| sender_state_ := EOS; results_ := Some 0%nat; num_rows_requested_ := 10;
        memory := {[ 0%nat := {| rs_rows := [10; 20; 30; 40; 50] |} ]};
        sender_cv_notified := 3; consumer_cv_notified := 3 |},
     [(false, OK); (false, OK); (true, OK)]).
Proof. vm_compute. reflexivity. Qed.

(** Cancellation while the producer holds rows: [Send] returns
    [CANCELLED] without touching the result set, and [GetNext] returns the
    query's status with [eos = false]. *)
Example sink_cancel_mid_produce :
  let cancelled := {| is_cancelled := true; GetQueryStatus := CANCELLED |} in
  let s := GetNext_publish 0%nat 10 initial in
  Send_pass Some cancelled five_rows 0 s = (Returned CANCELLED, s)
  /\ GetNext_return cancelled s = Some (false, CANCELLED).
Proof. split; reflexivity. Qed.

Lemma Send_pass_fetches_witness :
  let '(r, s') := Send_pass Some running five_rows 0 (GetNext_publish 0%nat 3 initial) in
  r = Continue (0 + 3)
  /\ Z.of_nat (length [10; 20; 30]) = 3
  /\ memory s' !! 0%nat = Some {| rs_rows := [] ++ [10; 20; 30] |}
  /\ results_ s' = None
  /\ consumer_cv_notified s' = 1%nat
  /\ sender_state_ s' = ROWS_PENDING.
Proof.
  apply (Send_pass_fetches Some running five_rows 0 (GetNext_publish 0%nat 3 initial)
           0%nat [10; 20; 30]).
  - reflexivity.
  - reflexivity.
  - unfold num_rows, five_rows. cbn. lia.
  - cbn. lia.
  - reflexivity.
Defined.

Lemma GetNext_nonpositive_is_unbounded_witness :
  let s1 := GetNext_publish 0%nat (-1) initial in
  let '(r, s') := Send_pass Some running five_rows 2 s1 in
  num_to_fetch five_rows 2 (num_rows_requested_ s1) = num_rows five_rows - 2
  /\ r = Continue (num_rows five_rows)
  /\ Z.of_nat (length [30; 40; 50]) = num_rows five_rows - 2
  /\ memory s' !! 0%nat = Some {| rs_rows := [] ++ [30; 40; 50] |}
  /\ results_ s' = None.
Proof.
  apply (GetNext_nonpositive_is_unbounded Some running five_rows 2 initial 0%nat (-1)
           [30; 40; 50]).
  - lia.
  - reflexivity.
  - unfold num_rows, five_rows. cbn. lia.
  - reflexivity.
Defined.

Lemma Close_before_FlushFinal_witness :
  sender_state_ (Close initial) = CLOSED_NOT_EOS
  /\ Forall (fun r : bool * Status => r.1 = false)
       (run Some [OpGetNextPublish 0%nat 10; OpGetNextReturn running;
                  OpCancel; OpClose] (Close initial)).2
  /\ forall state results num_results,
       GetNext_return state
         (GetNext_publish results num_results
            (run Some [OpGetNextPublish 0%nat 10; OpGetNextReturn running;
                       OpCancel; OpClose] (Close initial)).1)
       = Some (false, GetQueryStatus state).
Proof.
  apply (Close_before_FlushFinal Some initial
           [OpGetNextPublish 0%nat 10; OpGetNextReturn running; OpCancel; OpClose]);
    reflexivity.
Defined.

(** A batch of five rows fetched by [GetNext(3)] and [GetNext(10)]. *)
Example Send_five_rows :
  Sink.Send Some 6 running five_rows OK [(0%nat, 3); (0%nat, 10)] initial
  = Some (Returned OK,
          {| sender_state_ := ROWS_PENDING; results_ := None; num_rows_requested_ := 10;
             memory := {[ 0%nat := {| rs_rows := [10; 20; 30; 40; 50] |} ]};
             sender_cv_notified := 2; consumer_cv_notified := 2 |}).
Proof. vm_compute. reflexivity. Qed.

(** The same batch when the query has produced too many rows. *)
Example Send_limit_exceeded :
  Sink.Send Some 6 running five_rows ROWS_PRODUCED_LIMIT_EXCEEDED
    [(0%nat, 3); (0%nat, 10)] initial
  = Some (Returned ROWS_PRODUCED_LIMIT_EXCEEDED, initial).
Proof. reflexivity. Qed.

Lemma Send_delivers_in_order_witness :
  let requests := [(0%nat, 3); (0%nat, 10)] in
  let k := rows_fetched (num_rows five_rows)
             (pending_request initial ++ (snd <$> requests)) in
  (forall fuel err, err <> OK ->
     Sink.Send Some fuel running five_rows err requests initial
     = Some (Returned err, initial))
  /\ exists r s',
       Sink.Send Some (2 * length requests + 2) running five_rows OK requests initial
       = Some (r, s')
       /\ 0 <= k <= num_rows five_rows
       /\ rs_rows (memory s' !!! 0%nat)
          = rs_rows (memory initial !!! 0%nat) ++ take (Z.to_nat k) five_rows
       /\ (forall q, q <> 0%nat -> memory s' !! q = memory initial !! q)
       /\ (r = Returned OK /\ k = num_rows five_rows
           \/ r = Waiting /\ k < num_rows five_rows /\ results_ s' = None)
       /\ sender_state_ s' = sender_state_ initial.
Proof.
  apply (Send_delivers_in_order Some running five_rows five_rows 0%nat
           [(0%nat, 3); (0%nat, 10)] initial).
  - reflexivity.
  - reflexivity.
  - repeat constructor.
  - left. reflexivity.
Defined.

Lemma only_published_results_change_witness :
  memory (Sink.run Some [OpGetNextPublish 0%nat 3; OpSendPass running five_rows 0;
                         OpGetNextReturn running; OpClose] initial).1 !! 1%nat
  = memory initial !! 1%nat.
Proof.
  apply (only_published_results_change Some
           [OpGetNextPublish 0%nat 3; OpSendPass running five_rows 0;
            OpGetNextReturn running; OpClose] initial 1%nat).
  - discriminate.
  - repeat (constructor; [first [exact I | discriminate]|]). constructor.
Defined.

Lemma Send_error_leaves_GetNext_waiting_witness :
  let s := GetNext_publish 0%nat 10 initial in
  let '(r, s') := Sink.Send_pass (fails_on 30) running five_rows 0 s in
  r = Returned EXPR_ERROR
  /\ results_ s' = Some 0%nat
  /\ sender_state_ s' = ROWS_PENDING
  /\ consumer_cv_notified s' = consumer_cv_notified s
  /\ GetNext_return running s' = None
  /\ GetNext_return running (Close s') = Some (false, GetQueryStatus running).
Proof.
  apply (Send_error_leaves_GetNext_waiting (fails_on 30) running five_rows 0
           (GetNext_publish 0%nat 10 initial) 0%nat EXPR_ERROR).
  - reflexivity.
  - reflexivity.
  - reflexivity.
  - vm_compute. reflexivity.
  - discriminate.
Defined.

End SinkProofs.

(* ===================================================================== *)
(** * Properties of the hash table *)
(* ===================================================================== *)

Module HTProofs.
Import HT.

(** ** Triangular numbers modulo a power of two *)

Lemma tri_double (k : Z) : 2 * (k * (k + 1) / 2) = k * (k + 1).
Proof.
  destruct (Z.Even_or_Odd k) as [[q ->]|[q ->]].
  - replace (2 * q * (2 * q + 1)) with (q * (2 * q + 1) * 2) by lia.
    rewrite Z.div_mul by lia. lia.
  - replace ((2 * q + 1) * (2 * q + 1 + 1)) with ((2 * q + 1) * (q + 1) * 2) by lia.
    rewrite Z.div_mul by lia. lia.
Qed.

Lemma pow2_coprime_odd (n a : Z) :
  0 <= n -> Z.odd a = true -> Z.gcd (2 ^ n) a = 1.
Proof.
  intros Hn Ha. apply Z.coprime_pow_l; [exact Hn|].
  apply Z.coprime_prime_l; [exact Z.prime_2|].
  intros [q Hq]. rewrite Hq, Z.mul_comm, Z.odd_mul in Ha. discriminate.
Qed.

Lemma pow2_divide_small (n a : Z) :
  0 <= n -> 0 < a < 2 ^ n -> ~ (2 ^ n | a).
Proof.
  intros Hn Ha [q Hq]. assert (0 < 2 ^ n) by (apply Z.pow_pos_nonneg; lia).
  destruct (Z.le_gt_cases q 0); nia.
Qed.

Lemma triangular_distinct (n i j : Z) :
  0 <= n -> 0 <= i -> i < j -> j < 2 ^ n ->
  ~ (2 ^ n | j * (j + 1) / 2 - i * (i + 1) / 2).
Proof.
  intros Hn Hi Hij Hj [q Hq].
  assert (Hprod : (2 ^ (n + 1) | (j - i) * (j + i + 1))).
  { exists q. rewrite Z.pow_add_r, Z.pow_1_r by lia.
    pose proof (tri_double i). pose proof (tri_double j). nia. }
  assert (Hpos : 0 < 2 ^ n) by (apply Z.pow_pos_nonneg; lia).
  assert (Hp1 : 2 ^ (n + 1) = 2 * 2 ^ n) by (rewrite Z.pow_add_r, Z.pow_1_r by lia; lia).
  destruct (Z.odd (j - i)) eqn:Hodd.
  - apply (pow2_divide_small (n + 1) (j + i + 1)); [lia|lia|].
    apply Z.gauss with (m := j - i); [exact Hprod|].
    apply pow2_coprime_odd; [lia|exact Hodd].
  - apply (pow2_divide_small (n + 1) (j - i)); [lia|lia|].
    apply Z.gauss with (m := j + i + 1); [rewrite Z.mul_comm; exact Hprod|].
    apply pow2_coprime_odd; [lia|].
    replace (j + i + 1) with ((j - i) + (2 * i + 1)) by lia.
    rewrite Z.odd_add, Hodd. replace (2 * i + 1) with (1 + 2 * i) by lia.
    rewrite Z.odd_add_mul_2. reflexivity.
Qed.

Lemma triangular_index_inj (n base i j : Z) :
  0 <= n -> 0 <= i < 2 ^ n -> 0 <= j < 2 ^ n ->
  triangular_index (2 ^ n) base i = triangular_index (2 ^ n) base j -> i = j.
Proof.
  intros Hn Hi Hj Heq. unfold triangular_index in Heq.
  assert (Hpos : 0 < 2 ^ n) by (apply Z.pow_pos_nonneg; lia).
  assert (Hd : forall a b, (base + a) mod 2 ^ n = (base + b) mod 2 ^ n -> (2 ^ n | b - a)).
  { intros a b E. apply Z.mod_divide; [lia|].
    replace (b - a) with ((base + b) - (base + a)) by lia.
    rewrite Zminus_mod, E, Z.sub_diag. apply Z.mod_0_l. lia. }
  destruct (Z.lt_trichotomy i j) as [Hlt|[->|Hgt]]; [|reflexivity|].
  - exfalso. apply (triangular_distinct n i j); try lia. apply Hd. exact Heq.
  - exfalso. apply (triangular_distinct n j i); try lia. apply Hd. symmetry. exact Heq.
Qed.

Lemma triangular_sequence_NoDup (n base : Z) :
  0 <= n -> NoDup (triangular_sequence (2 ^ n) base).
Proof.
  intros Hn. unfold triangular_sequence.
  apply NoDup_fmap_2_strong; [|apply NoDup_seqZ].
  intros i j Hi Hj. apply elem_of_seqZ in Hi, Hj.
  apply triangular_index_inj; lia.
Qed.

Lemma triangular_sequence_perm (n base : Z) :
  0 <= n -> triangular_sequence (2 ^ n) base ≡ₚ seqZ 0 (2 ^ n).
Proof.
  intros Hn.
  assert (Hpos : 0 < 2 ^ n) by (apply Z.pow_pos_nonneg; lia).
  apply submseteq_length_Permutation.
  - apply NoDup_submseteq; [apply triangular_sequence_NoDup; exact Hn|].
    intros x Hx. unfold triangular_sequence in Hx.
    apply list_elem_of_fmap in Hx as (k & -> & _).
    apply elem_of_seqZ. unfold triangular_index.
    pose proof (Z.mod_pos_bound (base + k * (k + 1) / 2) (2 ^ n) Hpos). lia.
  - unfold triangular_sequence. rewrite length_fmap. reflexivity.
Qed.

(** ** The probe loop *)

Lemma land_mask (n x : Z) : 0 <= n -> Z.land x (2 ^ n - 1) = x mod 2 ^ n.
Proof.
  intros Hn. rewrite <- Z.land_ones by exact Hn.
  rewrite Z.ones_equiv, <- Z.sub_1_r. reflexivity.
Qed.

Lemma triangular_index_succ (n base k : Z) :
  0 <= n ->
  Z.land (triangular_index (2 ^ n) base k + (k + 1)) (2 ^ n - 1)
  = triangular_index (2 ^ n) base (k + 1).
Proof.
  intros Hn. rewrite land_mask by exact Hn. unfold triangular_index.
  rewrite Zplus_mod_idemp_l. f_equal.
  pose proof (tri_double k). pose proof (tri_double (k + 1)). lia.
Qed.

Lemma triangular_index_0 (n hash : Z) :
  0 <= n -> Z.land hash (2 ^ n - 1) = triangular_index (2 ^ n) hash 0.
Proof.
  intros Hn. rewrite land_mask by exact Hn. unfold triangular_index.
  change (0 * (0 + 1) / 2) with 0. f_equal. lia.
Qed.

(** The loop returns: [Probe_fuel] iterations are enough, whatever the
    table holds. *)
Lemma Probe_loop_returns (fuel : nat) (t : HashTable) (incl cmp : bool)
    (buckets : list Bucket) (hash_array : list Z) (N : Z) (ctx : HashTableCtx)
    (hash idx step bd : Z) (examined : list Z) :
  (Z.to_nat (Z.max 1 (N - step)) <= fuel)%nat ->
  is_Some (Probe_loop fuel t incl cmp buckets hash_array N ctx hash idx step bd examined).
Proof.
  revert ctx idx step bd examined.
  induction fuel as [|fuel IH]; intros ctx idx step bd examined Hf; [lia|].
  cbn [Probe_loop].
  destruct (negb (IsFilled (bucket_at buckets idx))); [eexists; reflexivity|].
  destruct (_ && _ && _); [eexists; reflexivity|].
  destruct (step + 1 <? N) eqn:E; [|eexists; reflexivity].
  apply Z.ltb_lt in E. apply IH. lia.
Qed.

Lemma Probe_opt_returns (t : HashTable) (incl cmp : bool)
    (buckets : list Bucket) (hash_array : list Z) (N : Z) (ctx : HashTableCtx)
    (hash bd : Z) :
  Probe_opt t incl cmp buckets hash_array N ctx hash bd
  = Some (Probe t incl cmp buckets hash_array N ctx hash bd).
Proof.
  unfold Probe.
  destruct (Probe_loop_returns (Probe_fuel N) t incl cmp buckets hash_array N
              (count_probe ctx) hash (Z.land hash (N - 1)) 0 bd []) as [r Hr].
  { unfold Probe_fuel. rewrite Z.sub_0_r. lia. }
  unfold Probe_opt. rewrite Hr. reflexivity.
Qed.

(** With quadratic probing and [2^n] buckets the loop looks at the buckets
    [triangular_index N hash 0], [triangular_index N hash 1], ... in this
    order; it passes every bucket at which neither test stops it, ends at
    the first at which one does, and has looked at [N] of them when it
    gives up. *)
Lemma Probe_loop_quadratic (fuel : nat) (t : HashTable) (incl cmp : bool)
    (buckets : list Bucket) (hash_array : list Z) (n : Z) (ctx0 ctx : HashTableCtx)
    (hash step bd : Z) (r : ProbeResult) :
  quadratic_probing t = true -> 0 <= n -> 0 <= step < 2 ^ n ->
  Equals ctx = Equals ctx0 ->
  Probe_loop fuel t incl cmp buckets hash_array (2 ^ n) ctx hash
    (triangular_index (2 ^ n) hash step) step bd
    (triangular_index (2 ^ n) hash <$> seqZ 0 step) = Some r ->
  exists m, step < m <= 2 ^ n
    /\ pr_examined r = triangular_index (2 ^ n) hash <$> seqZ 0 m
    /\ (pr_bucket_idx r = BUCKET_NOT_FOUND -> m = 2 ^ n)
    /\ (pr_bucket_idx r <> BUCKET_NOT_FOUND ->
        pr_bucket_idx r = triangular_index (2 ^ n) hash (m - 1))
    /\ (forall k, step <= k < m - 1 ->
          probe_stops t incl cmp buckets hash_array ctx0 hash
            (triangular_index (2 ^ n) hash k) = false)
    /\ (if probe_stops t incl cmp buckets hash_array ctx0 hash
             (triangular_index (2 ^ n) hash (m - 1))
        then pr_bucket_idx r = triangular_index (2 ^ n) hash (m - 1)
        else m = 2 ^ n /\ pr_bucket_idx r = BUCKET_NOT_FOUND).
Proof.
  intros Hq Hn. revert ctx step bd.
  assert (Hsnoc : forall step, 0 <= step ->
    (triangular_index (2 ^ n) hash <$> seqZ 0 step) ++ [triangular_index (2 ^ n) hash step]
    = triangular_index (2 ^ n) hash <$> seqZ 0 (step + 1)).
  { intros step Hs. rewrite seqZ_app by lia. rewrite fmap_app. reflexivity. }
  assert (Hrange : forall k, 0 <= triangular_index (2 ^ n) hash k < 2 ^ n).
  { intros k. apply Z.mod_pos_bound, Z.pow_pos_nonneg; lia. }
  induction fuel as [|fuel IH]; intros ctx step bd Hs Heq; [discriminate|].
  cbn [Probe_loop]. rewrite Hsnoc by lia. rewrite Heq.
  set (idx := triangular_index (2 ^ n) hash step).
  assert (Hstops : probe_stops t incl cmp buckets hash_array ctx0 hash idx
                   = negb (IsFilled (bucket_at buckets idx))
                     || ((hash =? hash_at hash_array idx) && cmp
                         && Equals ctx0 incl (GetRow t (bucket_at buckets idx))))
    by reflexivity.
  assert (Hhere : forall r, pr_bucket_idx r = idx ->
            pr_examined r = triangular_index (2 ^ n) hash <$> seqZ 0 (step + 1) ->
            probe_stops t incl cmp buckets hash_array ctx0 hash idx = true ->
            exists m, step < m <= 2 ^ n
              /\ pr_examined r = triangular_index (2 ^ n) hash <$> seqZ 0 m
              /\ (pr_bucket_idx r = BUCKET_NOT_FOUND -> m = 2 ^ n)
              /\ (pr_bucket_idx r <> BUCKET_NOT_FOUND ->
                  pr_bucket_idx r = triangular_index (2 ^ n) hash (m - 1))
              /\ (forall k, step <= k < m - 1 ->
                    probe_stops t incl cmp buckets hash_array ctx0 hash
                      (triangular_index (2 ^ n) hash k) = false)
              /\ (if probe_stops t incl cmp buckets hash_array ctx0 hash
                       (triangular_index (2 ^ n) hash (m - 1))
                  then pr_bucket_idx r = triangular_index (2 ^ n) hash (m - 1)
                  else m = 2 ^ n /\ pr_bucket_idx r = BUCKET_NOT_FOUND)).
  { intros r0 Hidx Hex Hst. exists (step + 1).
    replace (step + 1 - 1) with step by lia. fold idx. rewrite Hst.
    split; [lia|]. split; [exact Hex|]. split.
    - intros E. pose proof (Hrange step). fold idx in H.
      unfold BUCKET_NOT_FOUND in E. lia.
    - split; [intros _; exact Hidx|]. split; [intros k Hk; lia|exact Hidx]. }
  destruct (negb (IsFilled (bucket_at buckets idx))) eqn:Efilled.
  { intros [= <-]. apply Hhere; [reflexivity|reflexivity|].
    rewrite Hstops. reflexivity. }
  destruct ((hash =? hash_at hash_array idx) && cmp
            && Equals ctx0 incl (GetRow t (bucket_at buckets idx))) eqn:Ematch.
  { intros [= <-]. apply Hhere; [reflexivity|reflexivity|].
    rewrite Hstops. reflexivity. }
  cbn [orb] in Hstops.
  destruct (step + 1 <? 2 ^ n) eqn:E.
  - apply Z.ltb_lt in E. unfold next_bucket_idx. rewrite Hq.
    unfold idx. rewrite triangular_index_succ by exact Hn.
    intros Hr. apply IH in Hr; [|lia|destruct (hash =? _); exact Heq].
    destruct Hr as (m & Hm & Hex & Hnf & Hf & Hpass & Hlast). exists m.
    split; [lia|]. split; [exact Hex|]. split; [exact Hnf|]. split; [exact Hf|].
    split; [|exact Hlast].
    intros k Hk. destruct (Z.eq_dec k step) as [->|Hne]; [exact Hstops|].
    apply Hpass. lia.
  - apply Z.ltb_ge in E. intros [= <-]. exists (step + 1). cbn.
    replace (step + 1 - 1) with step by lia. fold idx. rewrite Hstops.
    split; [lia|]. split; [reflexivity|]. split; [intros _; lia|].
    split; [intros Hne; exfalso; apply Hne; reflexivity|].
    split; [intros k Hk; lia|]. split; [lia|reflexivity].
Qed.

(** ** Insertion of duplicates *)

Lemma bucket_at_filled_range (bs : list Bucket) (i : Z) :
  IsFilled (bucket_at bs i) = true -> 0 <= i < Z.of_nat (length bs).
Proof.
  unfold bucket_at. destruct (i <? 0) eqn:E; [discriminate|].
  apply Z.ltb_ge in E. destruct (bs !! Z.to_nat i) eqn:L; [|discriminate].
  intros _. apply lookup_lt_Some in L. lia.
Qed.

Lemma bucket_at_insert_eq (bs : list Bucket) (i : Z) (b : Bucket) :
  0 <= i < Z.of_nat (length bs) ->
  bucket_at (<[Z.to_nat i := b]> bs) i = b.
Proof.
  intros H. unfold bucket_at. destruct (i <? 0) eqn:E; [apply Z.ltb_lt in E; lia|].
  rewrite list_lookup_insert_eq by lia. reflexivity.
Qed.

Lemma bucket_at_insert_ne (bs : list Bucket) (i j : Z) (b : Bucket) :
  0 <= i -> i <> j ->
  bucket_at (<[Z.to_nat i := b]> bs) j = bucket_at bs j.
Proof.
  intros Hi Hne. unfold bucket_at. destruct (j <? 0) eqn:E; [reflexivity|].
  apply Z.ltb_ge in E. rewrite list_lookup_insert_ne by lia. reflexivity.
Qed.

(** A successful probe stands on a filled bucket of the table and has
    stored that bucket's word in [*bd]. *)
Lemma Probe_loop_found (fuel : nat) (t : HashTable) (incl : bool)
    (buckets : list Bucket) (hash_array : list Z) (N : Z) (ctx : HashTableCtx)
    (hash idx step bd : Z) (examined : list Z) (r : ProbeResult) :
  Probe_loop fuel t incl true buckets hash_array N ctx hash idx step bd examined
    = Some r ->
  pr_found r = true ->
  IsFilled (bucket_at buckets (pr_bucket_idx r)) = true
  /\ pr_bd r = GetBucketData (bucket_at buckets (pr_bucket_idx r))
  /\ hash_at hash_array (pr_bucket_idx r) = hash
  /\ Equals ctx incl (GetRow t (bucket_at buckets (pr_bucket_idx r))) = true.
Proof.
  revert ctx idx step bd examined.
  induction fuel as [|fuel IH]; intros ctx idx step bd examined; [discriminate|].
  cbn [Probe_loop].
  destruct (IsFilled (bucket_at buckets idx)) eqn:Hf; cbn [negb];
    [|intros [= <-]; discriminate].
  destruct (hash =? hash_at hash_array idx) eqn:Hh; cbn [andb].
  - destruct (Equals ctx incl (GetRow t (bucket_at buckets idx))) eqn:He.
    + intros [= <-] _. cbn. apply Z.eqb_eq in Hh. auto.
    + destruct (step + 1 <? N); [|intros [= <-]; discriminate].
      intros Hr Hfound. destruct (IH _ _ _ _ _ Hr Hfound) as (H1 & H2 & H3 & H4).
      auto.
  - destruct (step + 1 <? N); [|intros [= <-]; discriminate].
    apply IH.
Qed.

Lemma Probe_found (t : HashTable) (incl : bool) (ctx : HashTableCtx) (hash bd : Z) :
  let r := Probe t incl true (buckets_ t) (hash_array_ t) (num_buckets_ t) ctx hash bd in
  pr_found r = true ->
  IsFilled (bucket_at (buckets_ t) (pr_bucket_idx r)) = true
  /\ pr_bd r = GetBucketData (bucket_at (buckets_ t) (pr_bucket_idx r))
  /\ 0 <= pr_bucket_idx r < Z.of_nat (length (buckets_ t)).
Proof.
  intros r Hf.
  pose proof (Probe_opt_returns t incl true (buckets_ t) (hash_array_ t)
                (num_buckets_ t) ctx hash bd) as Hr.
  fold r in Hr. unfold Probe_opt in Hr.
  destruct (Probe_loop_found _ _ _ _ _ _ _ _ _ _ _ _ _ Hr Hf) as (H1 & H2 & _).
  split; [exact H1|]. split; [exact H2|]. apply bucket_at_filled_range. exact H1.
Qed.

Lemma AppendNextNode_spec (t : HashTable) (idx : Z) :
  0 <= idx < Z.of_nat (length (buckets_ t)) ->
  let t' := (AppendNextNode t idx).2 in
  (AppendNextNode t idx).1 = next_node_ t
  /\ bucket_at (buckets_ t') idx
     = SetBucketData (bucket_at (buckets_ t) idx) (next_node_ t)
  /\ (forall i, i <> idx -> bucket_at (buckets_ t') i = bucket_at (buckets_ t) i)
  /\ length (buckets_ t') = length (buckets_ t)
  /\ node_memory t' = node_memory t
  /\ next_node_ t' = next_node_ t + 1
  /\ stores_tuples t' = stores_tuples t
  /\ num_duplicate_nodes_ t' = num_duplicate_nodes_ t + 1
  /\ num_buckets_with_duplicates_ t' = num_buckets_with_duplicates_ t.
Proof.
  intros H t'. assert (Hneg : (idx <? 0) = false) by (apply Z.ltb_ge; lia).
  unfold t', AppendNextNode, set_bucket. cbn [fst snd buckets_ node_memory
    next_node_ stores_tuples num_duplicate_nodes_ num_buckets_with_duplicates_].
  rewrite Hneg. split; [reflexivity|]. split; [apply bucket_at_insert_eq; exact H|].
  split; [intros i Hi; apply bucket_at_insert_ne; lia|].
  split; [apply length_insert|]. auto.
Qed.

Lemma set_bucket_spec (t : HashTable) (idx : Z) (b : Bucket) :
  0 <= idx < Z.of_nat (length (buckets_ t)) ->
  bucket_at (buckets_ (set_bucket t idx b)) idx = b
  /\ (forall i, i <> idx ->
        bucket_at (buckets_ (set_bucket t idx b)) i = bucket_at (buckets_ t) i)
  /\ length (buckets_ (set_bucket t idx b)) = length (buckets_ t).
Proof.
  intros H. assert (Hneg : (idx <? 0) = false) by (apply Z.ltb_ge; lia).
  unfold set_bucket. cbn [buckets_]. rewrite Hneg.
  split; [apply bucket_at_insert_eq; exact H|].
  split; [intros i Hi; apply bucket_at_insert_ne; lia|apply length_insert].
Qed.

(** What the conversion of a bucket's entry into a node leaves behind. *)
Lemma convert_entry_to_node_spec (t1 : HashTable) (idx bd : Z) :
  0 <= idx < Z.of_nat (length (buckets_ t1)) ->
  let t2 := convert_entry_to_node t1 idx bd in
  bucket_at (buckets_ t2) idx
  = SetHasDuplicates (SetBucketData (bucket_at (buckets_ t1) idx) (next_node_ t1))
  /\ (forall i, i <> idx -> bucket_at (buckets_ t2) i = bucket_at (buckets_ t1) i)
  /\ length (buckets_ t2) = length (buckets_ t1)
  /\ node_memory t2
     = <[next_node_ t1 := {| htdata := bd; node_matched := false; Next := 0 |}]>
         (node_memory t1)
  /\ next_node_ t2 = next_node_ t1 + 1
  /\ stores_tuples t2 = stores_tuples t1
  /\ num_duplicate_nodes_ t2 = num_duplicate_nodes_ t1 + 1
  /\ num_buckets_with_duplicates_ t2 = num_buckets_with_duplicates_ t1 + 1.
Proof.
  intros H t2. unfold t2, convert_entry_to_node.
  set (n := SetNextUnMatched _ 0).
  set (t0 := set_node t1 (next_node_ t1) n).
  assert (H0 : 0 <= idx < Z.of_nat (length (buckets_ t0))) by exact H.
  destruct (AppendNextNode_spec t0 idx H0) as (_ & A1 & A2 & A3 & A4 & A5 & A6 & A7 & A8).
  set (t1a := (AppendNextNode t0 idx).2) in *.
  assert (H1a : 0 <= idx < Z.of_nat (length (buckets_ t1a))) by (rewrite A3; exact H0).
  destruct (set_bucket_spec t1a idx (SetHasDuplicates (bucket_at (buckets_ t1a) idx)) H1a)
    as (B1 & B2 & B3).
  cbn [buckets_ node_memory next_node_ stores_tuples num_duplicate_nodes_
       num_buckets_with_duplicates_].
  split; [rewrite B1, A1; reflexivity|].
  split; [intros i Hi; rewrite B2, A2 by exact Hi; reflexivity|].
  split; [rewrite B3, A3; reflexivity|].
  split; [change (node_memory (set_bucket t1a idx _)) with (node_memory t1a);
          rewrite A4; reflexivity|].
  split; [change (next_node_ (set_bucket t1a idx _)) with (next_node_ t1a);
          rewrite A5; reflexivity|].
  split; [change (stores_tuples (set_bucket t1a idx _)) with (stores_tuples t1a);
          rewrite A6; reflexivity|].
  split; [change (num_duplicate_nodes_ (set_bucket t1a idx _))
            with (num_duplicate_nodes_ t1a); rewrite A7; reflexivity|].
  change (num_buckets_with_duplicates_ (set_bucket t1a idx _))
    with (num_buckets_with_duplicates_ t1a). rewrite A8. reflexivity.
Qed.

(** What linking a new node in front leaves behind. *)
Lemma link_new_node_spec (t2 : HashTable) (idx : Z) :
  0 <= idx < Z.of_nat (length (buckets_ t2)) ->
  let t3 := (link_new_node t2 idx).2 in
  (link_new_node t2 idx).1 = next_node_ t2
  /\ bucket_at (buckets_ t3) idx
     = SetBucketData (bucket_at (buckets_ t2) idx) (next_node_ t2)
  /\ (forall i, i <> idx -> bucket_at (buckets_ t3) i = bucket_at (buckets_ t2) i)
  /\ length (buckets_ t3) = length (buckets_ t2)
  /\ node_memory t3
     = <[next_node_ t2 :=
           SetNextUnMatched (node_at t2 (next_node_ t2))
             (GetDuplicate (bucket_at (buckets_ t2) idx))]> (node_memory t2)
  /\ stores_tuples t3 = stores_tuples t2
  /\ num_duplicate_nodes_ t3 = num_duplicate_nodes_ t2 + 1
  /\ num_buckets_with_duplicates_ t3 = num_buckets_with_duplicates_ t2.
Proof.
  intros H t3. unfold t3, link_new_node.
  set (n := SetNextUnMatched _ _).
  set (t0 := set_node t2 (next_node_ t2) n).
  assert (H0 : 0 <= idx < Z.of_nat (length (buckets_ t0))) by exact H.
  destruct (AppendNextNode_spec t0 idx H0) as (A0 & A1 & A2 & A3 & A4 & A5 & A6 & A7 & A8).
  auto 10.
Qed.

Section WithPagesFacts.

Variable NODES_PER_PAGE : Z.

(** Growing the node array leaves buckets, nodes and flags alone. *)
Lemma grow_nodes_frame (allocator : nat) (need : Z) (status : Status) (t : HashTable)
    (ok : bool) (status' : Status) (allocator' : nat) (t' : HashTable) :
  grow_nodes NODES_PER_PAGE allocator need status t = (ok, status', allocator', t') ->
  buckets_ t' = buckets_ t /\ hash_array_ t' = hash_array_ t
  /\ node_memory t' = node_memory t /\ stores_tuples t' = stores_tuples t
  /\ num_buckets_ t' = num_buckets_ t.
Proof.
  revert status t. induction allocator as [|a IH]; intros status t; cbn [grow_nodes].
  - destruct (_ <? need); cbn; intros [= <- <- <- <-]; auto.
  - destruct (_ <? need); [|intros [= <- <- <- <-]; auto].
    cbn [GrowNodeArray]. intros Hr. apply IH in Hr. cbn in Hr. exact Hr.
Qed.

(** The loop fails only through a failing [GrowNodeArray], whose status
    and table it returns. *)
Lemma grow_nodes_failure (allocator : nat) (need : Z) (status : Status) (t : HashTable)
    (status' : Status) (allocator' : nat) (t' : HashTable) :
  grow_nodes NODES_PER_PAGE allocator need status t = (false, status', allocator', t') ->
  exists a1 s1,
    GrowNodeArray NODES_PER_PAGE a1 s1 t' = (false, status', allocator', t').
Proof.
  revert status t. induction allocator as [|a IH]; intros status t; cbn [grow_nodes].
  - destruct (_ <? need); [|discriminate].
    cbn. intros [= <- <- <-]. exists O, status. reflexivity.
  - destruct (_ <? need); [|discriminate].
    cbn [GrowNodeArray]. apply IH.
Qed.

(** C7. When the allocation of a duplicate node fails (the loop of
    [InsertDuplicateNode] ends on a [GrowNodeArray] that returns false),
    [Insert] returns false and [*status] is what that [GrowNodeArray]
    wrote. *)
Theorem Insert_allocation_failure (allocator : nat) (t : HashTable)
    (ht_ctx : HashTableCtx) (flat_row tuple : HtData) (status : Status) (bd0 : Z)
    (status' : Status) (allocator' : nat) (t' : HashTable) :
  let pr := Probe t true true (buckets_ t) (hash_array_ t) (num_buckets_ t)
              ht_ctx (CurExprValuesHash ht_ctx) bd0 in
  let has_duplicates :=
    HasDuplicates (bucket_at (buckets_ t) (pr_bucket_idx pr)) in
  pr_found pr = true ->
  grow_nodes NODES_PER_PAGE allocator (1 + (if has_duplicates then 0 else 1)) status t
    = (false, status', allocator', t') ->
  (exists a1 s1,
      GrowNodeArray NODES_PER_PAGE a1 s1 t' = (false, status', allocator', t'))
  /\ Insert NODES_PER_PAGE allocator t ht_ctx flat_row tuple status bd0
     = Some {| ir_ok := false; ir_status := status'; ir_allocator := allocator';
               ir_table := t'; ir_ctx := pr_ctx pr |}.
Proof.
  intros pr has_duplicates Hfound Hgrow.
  split; [eapply grow_nodes_failure; exact Hgrow|].
  destruct (Probe_found t true ht_ctx (CurExprValuesHash ht_ctx) bd0 Hfound)
    as (_ & _ & Hrange). fold pr in Hrange.
  unfold Insert, InsertInternal. fold pr.
  destruct (pr_bucket_idx pr =? BUCKET_NOT_FOUND) eqn:E.
  { apply Z.eqb_eq in E. unfold BUCKET_NOT_FOUND in E. lia. }
  rewrite Hfound. unfold InsertDuplicateNode. fold has_duplicates.
  rewrite Hgrow. reflexivity.
Qed.

(** C6. [Insert] on a row equal to a resident one, when the nodes can be
    allocated ([t1] is the table once the loop of [InsertDuplicateNode] has
    made room, [n0] its free node). If the bucket had no duplicates, node
    [n0] receives the resident's data and ends the chain, the bucket is
    marked as having duplicates, and the new row goes to node [n0 + 1]
    pointing to [n0]; if it had, the new row goes to node [n0] pointing to
    the old head. Either way the bucket points to the new row's node. *)
Theorem Insert_duplicate (allocator : nat) (t : HashTable) (ht_ctx : HashTableCtx)
    (flat_row tuple : HtData) (status : Status) (bd0 : Z)
    (status' : Status) (allocator' : nat) (t1 : HashTable) :
  let pr := Probe t true true (buckets_ t) (hash_array_ t) (num_buckets_ t)
              ht_ctx (CurExprValuesHash ht_ctx) bd0 in
  let idx := pr_bucket_idx pr in
  let b := bucket_at (buckets_ t) idx in
  let h := if stores_tuples t then tuple else flat_row in
  let n0 := next_node_ t1 in
  pr_found pr = true ->
  grow_nodes NODES_PER_PAGE allocator (1 + (if HasDuplicates b then 0 else 1)) status t
    = (true, status', allocator', t1) ->
  0 < n0 ->
  exists r,
    Insert NODES_PER_PAGE allocator t ht_ctx flat_row tuple status bd0 = Some r
    /\ ir_ok r = true /\ ir_status r = status'
    /\ let t' := ir_table r in
       let b' := bucket_at (buckets_ t') idx in
       let new_node := GetDuplicate b' in
       IsFilled b' = true /\ HasDuplicates b' = true
       /\ node_at t' new_node
          = {| htdata := h; node_matched := false;
               Next := if HasDuplicates b then GetDuplicate b else n0 |}
       /\ (if HasDuplicates b then
             new_node = n0
             /\ num_duplicate_nodes_ t' = num_duplicate_nodes_ t1 + 1
             /\ forall p, p <> n0 -> node_memory t' !! p = node_memory t !! p
           else
             new_node = n0 + 1
             /\ node_at t' n0
                = {| htdata := GetBucketData b; node_matched := false; Next := 0 |}
             /\ num_duplicate_nodes_ t' = num_duplicate_nodes_ t1 + 2
             /\ num_buckets_with_duplicates_ t' = num_buckets_with_duplicates_ t1 + 1
             /\ forall p, p <> n0 -> p <> n0 + 1 ->
                  node_memory t' !! p = node_memory t !! p)
       /\ (forall i, i <> idx -> bucket_at (buckets_ t') i = bucket_at (buckets_ t) i)
       /\ forall fuel, bucket_rows (S fuel) t' idx
                       = h :: chain_from fuel t'
                                (if HasDuplicates b then GetDuplicate b else n0).
Proof.
  intros pr idx b h n0 Hfound Hgrow Hn0.
  destruct (Probe_found t true ht_ctx (CurExprValuesHash ht_ctx) bd0 Hfound)
    as (Hfilled & Hbd & Hrange).
  fold pr in Hfilled, Hbd, Hrange. fold idx in Hfilled, Hbd, Hrange.
  fold b in Hfilled, Hbd.
  destruct (grow_nodes_frame _ _ _ _ _ _ _ _ Hgrow) as (Hb1 & _ & Hm1 & Hst1 & _).
  assert (Hnf : (idx =? BUCKET_NOT_FOUND) = false).
  { apply Z.eqb_neq. unfold BUCKET_NOT_FOUND. lia. }
  assert (Hr1 : 0 <= idx < Z.of_nat (length (buckets_ t1))) by (rewrite Hb1; exact Hrange).
  unfold Insert, InsertInternal. fold pr idx. rewrite Hnf, Hfound.
  unfold InsertDuplicateNode. fold b. rewrite Hgrow.
  set (t2 := if HasDuplicates b then t1 else convert_entry_to_node t1 idx (pr_bd pr)).
  (* the table before the new node is linked *)
  assert (H2 : 0 <= idx < Z.of_nat (length (buckets_ t2))
               /\ HasDuplicates (bucket_at (buckets_ t2) idx) = true
               /\ IsFilled (bucket_at (buckets_ t2) idx) = true
               /\ GetDuplicate (bucket_at (buckets_ t2) idx)
                  = (if HasDuplicates b then GetDuplicate b else n0)
               /\ next_node_ t2 = (if HasDuplicates b then n0 else n0 + 1)
               /\ stores_tuples t2 = stores_tuples t
               /\ (forall i, i <> idx ->
                     bucket_at (buckets_ t2) i = bucket_at (buckets_ t) i)).
  { unfold t2. destruct (HasDuplicates b) eqn:Hd.
    - rewrite Hb1. fold b. auto 10.
    - destruct (convert_entry_to_node_spec t1 idx (pr_bd pr) Hr1)
        as (C1 & C2 & C3 & C4 & C5 & C6 & _).
      split; [rewrite C3; exact Hr1|].
      rewrite C1, C5, C6. unfold SetHasDuplicates, SetBucketData, GetDuplicate.
      cbn [HasDuplicates IsFilled GetBucketData]. rewrite Hb1. fold b.
      split; [reflexivity|]. split; [exact Hfilled|]. split; [reflexivity|].
      split; [reflexivity|]. split; [exact Hst1|].
      intros i Hi. rewrite C2, Hb1 by exact Hi. reflexivity. }
  destruct H2 as (Hr2 & Hd2 & Hf2 & Hg2 & Hn2 & Hs2 & Ho2).
  destruct (link_new_node_spec t2 idx Hr2) as (L0 & L1 & L2 & L3 & L4 & L5 & L6 & L7).
  destruct (link_new_node t2 idx) as [p t3]. cbn [fst snd] in *.
  assert (Hb3 : bucket_at (buckets_ t3) idx
                = {| IsFilled := true; IsMatched := IsMatched (bucket_at (buckets_ t2) idx);
                     HasDuplicates := true; GetBucketData := next_node_ t2 |}).
  { rewrite L1. unfold SetBucketData. rewrite Hd2, Hf2. reflexivity. }
  rewrite Hb3. cbn [HasDuplicates GetDuplicate GetBucketData].
  assert (Hnz : (next_node_ t2 =? 0) = false).
  { apply Z.eqb_neq. rewrite Hn2. destruct (HasDuplicates b); lia. }
  rewrite Hnz. eexists. split; [reflexivity|].
  cbn [ir_ok ir_status ir_table]. split; [reflexivity|]. split; [reflexivity|].
  cbv zeta.
  change (buckets_ (set_node t3 _ _)) with (buckets_ t3). rewrite Hb3.
  cbn [IsFilled HasDuplicates GetDuplicate GetBucketData].
  split; [reflexivity|]. split; [reflexivity|].
  assert (Hnew : node_at (set_node t3 (next_node_ t2)
                   (set_htdata (node_at t3 (next_node_ t2))
                      (if stores_tuples t3 then tuple else flat_row))) (next_node_ t2)
                 = {| htdata := h; node_matched := false;
                      Next := if HasDuplicates b then GetDuplicate b else n0 |}).
  { unfold node_at at 1. cbn [node_memory set_node]. rewrite lookup_insert_eq.
    cbn [default]. unfold node_at. rewrite L4, lookup_insert_eq. cbn [default].
    unfold set_htdata, SetNextUnMatched. cbn [htdata node_matched Next].
    rewrite L5, Hs2, Hg2. reflexivity. }
  split; [exact Hnew|].
  split.
  { destruct (HasDuplicates b) eqn:Hd.
    - split; [exact Hn2|]. split.
      + change (num_duplicate_nodes_ (set_node t3 _ _)) with (num_duplicate_nodes_ t3).
        rewrite L6. reflexivity.
      + intros q Hq. cbn [node_memory set_node].
        rewrite lookup_insert_ne by (rewrite Hn2; auto).
        rewrite L4, lookup_insert_ne by (rewrite Hn2; auto).
        unfold t2. rewrite Hm1. reflexivity.
    - destruct (convert_entry_to_node_spec t1 idx (pr_bd pr) Hr1)
        as (_ & _ & _ & C4 & _ & _ & C7 & C8).
      fold t2 in C4, C7, C8. fold n0 in C4.
      split; [exact Hn2|]. split.
      + unfold node_at. cbn [node_memory set_node].
        rewrite lookup_insert_ne by (rewrite Hn2; lia).
        rewrite L4, lookup_insert_ne by (rewrite Hn2; lia).
        rewrite C4, lookup_insert_eq. cbn [default]. rewrite Hbd. reflexivity.
      + split.
        { change (num_duplicate_nodes_ (set_node t3 _ _)) with (num_duplicate_nodes_ t3).
          rewrite L6, C7. lia. }
        split.
        { change (num_buckets_with_duplicates_ (set_node t3 _ _))
            with (num_buckets_with_duplicates_ t3).
          rewrite L7, C8. reflexivity. }
        intros q Hq Hq'. cbn [node_memory set_node].
        rewrite lookup_insert_ne by (rewrite Hn2; auto).
        rewrite L4, lookup_insert_ne by (rewrite Hn2; auto).
        rewrite C4, lookup_insert_ne by auto. rewrite Hm1. reflexivity. }
  split.
  { intros i Hi. change (buckets_ (set_node t3 _ _)) with (buckets_ t3).
    rewrite L2, Ho2 by exact Hi. reflexivity. }
  intros fuel. unfold bucket_rows.
  change (buckets_ (set_node t3 _ _)) with (buckets_ t3). rewrite Hb3.
  cbn [IsFilled HasDuplicates GetDuplicate GetBucketData negb chain_from].
  rewrite Hnz, Hnew. reflexivity.
Qed.

End WithPagesFacts.

(** C3. For [N = 2^n] buckets and any base, the triangular probe sequence
    [(base + k*(k+1)/2) mod N], [0 <= k < N], is a permutation of
    [0 .. N-1]. [Probe] with quadratic probing walks exactly this sequence
    from [hash]: the buckets it examines are an initial piece of it, so no
    bucket is examined twice, and when it stops after [N] steps with
    [BUCKET_NOT_FOUND] it has examined every bucket exactly once. The piece
    is the first [m] buckets of the sequence, [m >= 1]: the loop passes all
    buckets but the last of them, and the last is the first that stops it
    (and is what [Probe] returns), or else it is the last of all [N] and
    [Probe] gives up. So whenever no bucket stops the probe, the loop does
    examine all [N] buckets, in the order of the sequence, each once. *)
Theorem quadratic_probe_permutation (n : nat) (base : Z) :
  let N := 2 ^ Z.of_nat n in
  triangular_sequence N base ≡ₚ seqZ 0 N
  /\ forall (t : HashTable) (incl cmp : bool) (buckets : list Bucket)
       (hash_array : list Z) (ctx : HashTableCtx) (hash bd : Z),
       quadratic_probing t = true ->
       let r := Probe t incl cmp buckets hash_array N ctx hash bd in
       let stops := probe_stops t incl cmp buckets hash_array ctx hash in
       pr_examined r `prefix_of` triangular_sequence N hash
       /\ NoDup (pr_examined r)
       /\ (pr_bucket_idx r = BUCKET_NOT_FOUND -> pr_examined r ≡ₚ seqZ 0 N)
       /\ (exists m, 1 <= m <= N
             /\ pr_examined r = triangular_index N hash <$> seqZ 0 m
             /\ (forall k, 0 <= k < m - 1 -> stops (triangular_index N hash k) = false)
             /\ (if stops (triangular_index N hash (m - 1))
                 then pr_bucket_idx r = triangular_index N hash (m - 1)
                 else m = N /\ pr_bucket_idx r = BUCKET_NOT_FOUND))
       /\ ((forall i, 0 <= i < N -> stops i = false) ->
           pr_bucket_idx r = BUCKET_NOT_FOUND
           /\ pr_examined r = triangular_sequence N hash).
Proof.
  intros N. assert (Hn : 0 <= Z.of_nat n) by lia.
  assert (Hpos : 0 < N) by (apply Z.pow_pos_nonneg; lia).
  split; [apply triangular_sequence_perm; exact Hn|].
  intros t incl cmp buckets hash_array ctx hash bd Hq r stops.
  pose proof (Probe_opt_returns t incl cmp buckets hash_array N ctx hash bd) as Hr.
  fold r in Hr. unfold Probe_opt in Hr.
  unfold N in Hr. rewrite triangular_index_0 in Hr by exact Hn.
  change [] with (triangular_index (2 ^ Z.of_nat n) hash <$> seqZ 0 0) in Hr.
  apply (Probe_loop_quadratic _ _ _ _ _ _ _ ctx) in Hr;
    [|exact Hq|exact Hn|fold N; lia|reflexivity].
  destruct Hr as (m & Hm & Hex & Hnf & _ & Hpass & Hlast).
  fold N in Hm, Hex, Hnf, Hpass, Hlast. fold stops in Hpass, Hlast.
  assert (Hpre : pr_examined r `prefix_of` triangular_sequence N hash).
  { rewrite Hex. unfold triangular_sequence.
    assert (Hsplit : seqZ 0 N = seqZ 0 m ++ seqZ (0 + m) (N - m))
      by (rewrite <- seqZ_app by lia; f_equal; lia).
    rewrite Hsplit, fmap_app. apply prefix_app_r. reflexivity. }
  split; [exact Hpre|]. split.
  { destruct Hpre as [k Hk].
    pose proof (triangular_sequence_NoDup (Z.of_nat n) hash Hn) as Hnd.
    fold N in Hnd. rewrite Hk in Hnd. apply NoDup_app in Hnd. apply Hnd. }
  split.
  { intros Hb. rewrite Hex, (Hnf Hb). apply triangular_sequence_perm. exact Hn. }
  split.
  { exists m. split; [lia|]. split; [exact Hex|]. split; [exact Hpass|exact Hlast]. }
  intros Hall.
  assert (Hin : 0 <= triangular_index N hash (m - 1) < N)
    by (apply Z.mod_pos_bound; exact Hpos).
  rewrite (Hall _ Hin) in Hlast. destruct Hlast as [-> Hb].
  split; [exact Hb|exact Hex].
Qed.

(** ** Scenarios *)

(** A probe for hash [7] in [table4_full], where every bucket is filled and
    no row equals the current one: the probe looks at the buckets 3, 0, 2
    and 1 and gives up. *)
Lemma quadratic_probe_permutation_witness :
  let r := Probe table4_full true true (buckets_ table4_full)
             (hash_array_ table4_full) 4 ctx7 7 0 in
  triangular_sequence 4 7 ≡ₚ seqZ 0 4
  /\ pr_bucket_idx r = BUCKET_NOT_FOUND
  /\ pr_examined r = [3; 0; 2; 1]
  /\ NoDup (pr_examined r)
  /\ pr_examined r ≡ₚ seqZ 0 4.
Proof.
  intros r.
  destruct (quadratic_probe_permutation 2 7) as [Hperm Hprobe].
  destruct (Hprobe table4_full true true (buckets_ table4_full)
              (hash_array_ table4_full) ctx7 7 0 eq_refl)
    as (_ & Hnd & Hnf & _ & Hall).
  destruct Hall as [Hb Hex].
  { intros i Hi. change (2 ^ Z.of_nat 2) with 4 in Hi.
    assert (Hcases : i = 0 \/ i = 1 \/ i = 2 \/ i = 3) by lia.
    destruct Hcases as [-> | [-> | [-> | ->]]]; reflexivity. }
  split; [exact Hperm|]. split; [exact Hb|]. split; [exact Hex|].
  split; [exact Hnd|]. exact (Hnf Hb).
Defined.

Lemma Insert_allocation_failure_witness :
  Insert 8 0%nat table4 ctx5 200 300 OK 0
  = Some {| ir_ok := false; ir_status := MEM_LIMIT_EXCEEDED; ir_allocator := 0%nat;
            ir_table := table4;
            ir_ctx := pr_ctx (Probe table4 true true (buckets_ table4)
                                (hash_array_ table4) 4 ctx5 5 0) |}.
Proof.
  exact (proj2 (Insert_allocation_failure 8 0%nat table4 ctx5 200 300 OK 0
                  MEM_LIMIT_EXCEEDED 0%nat table4 eq_refl eq_refl)).
Defined.

Lemma Insert_duplicate_witness :
  exists r, Insert 8 1%nat table4 ctx5 200 300 OK 0 = Some r
            /\ ir_ok r = true
            /\ bucket_rows 2%nat (ir_table r) 1 = [200; 100].
Proof.
  destruct (Insert_duplicate 8 1%nat table4 ctx5 200 300 OK 0 OK 0%nat table4_grown
              eq_refl eq_refl eq_refl)
    as (r & Hr & Hok & _ & _ & _ & Hnew & (_ & Hold & _) & _ & Hrows).
  exists r. split; [exact Hr|]. split; [exact Hok|].
  pose proof (Hrows 1%nat
              : bucket_rows 2 (ir_table r) 1 = 200 :: chain_from 1 (ir_table r) 1) as E.
  pose proof (Hold : node_at (ir_table r) 1
                     = {| htdata := 100; node_matched := false; Next := 0 |}) as E1.
  rewrite E. cbn [chain_from Z.eqb]. rewrite E1. reflexivity.
Defined.

(** Scenario: three rows with equal hash and equal values end up in one
    bucket with a chain of three, the last inserted first. *)
Example three_equal_rows :
  exists r1 r2,
    Insert 8 1%nat table4 ctx5 200 0 OK 0 = Some r1
    /\ Insert 8 (ir_allocator r1) (ir_table r1) ctx5 300 0 OK 0 = Some r2
    /\ ir_ok r1 = true /\ ir_ok r2 = true
    /\ HasDuplicates (bucket_at (buckets_ (ir_table r2)) 1) = true
    /\ bucket_rows 8%nat (ir_table r2) 1 = [300; 200; 100]
    /\ num_duplicate_nodes_ (ir_table r2) = 3.
Proof.
  eexists. eexists. split; [vm_compute; reflexivity|].
  split; [vm_compute; reflexivity|]. vm_compute. auto 10.
Qed.

(* ------------------------------------------------------------------ *)
(** ** Probing, lookup and iteration: further properties *)
(** ** What a probe returns *)

Lemma land_bounds (a b : Z) : 0 <= b -> 0 <= Z.land a b <= b.
Proof.
  intros Hb. split; [apply Z.land_nonneg; right; exact Hb|].
  assert (Hdisj : Z.land (Z.land a b) (Z.land (Z.lnot a) b) = 0).
  { apply Z.bits_inj'. intros n Hn.
    rewrite !Z.land_spec, Z.lnot_spec, Z.bits_0 by exact Hn.
    destruct (Z.testbit a n), (Z.testbit b n); reflexivity. }
  assert (Hsum : Z.land a b + Z.land (Z.lnot a) b = b).
  { rewrite Z.add_nocarry_lxor by exact Hdisj.
    rewrite Z.lxor_lor by exact Hdisj.
    apply Z.bits_inj'. intros n Hn.
    rewrite Z.lor_spec, !Z.land_spec, Z.lnot_spec by exact Hn.
    destruct (Z.testbit a n), (Z.testbit b n); reflexivity. }
  assert (0 <= Z.land (Z.lnot a) b) by (apply Z.land_nonneg; right; exact Hb).
  lia.
Qed.

Lemma next_bucket_idx_range (q : bool) (N idx step : Z) :
  1 <= N -> 0 <= next_bucket_idx q N idx step < N.
Proof.
  intros HN. unfold next_bucket_idx.
  destruct q; [pose proof (land_bounds (idx + step) (N - 1))
              |pose proof (land_bounds (idx + 1) (N - 1))]; lia.
Qed.

Lemma Probe_loop_result (fuel : nat) (t : HashTable) (incl cmp : bool)
    (buckets : list Bucket) (hash_array : list Z) (N : Z) (ctx : HashTableCtx)
    (hash idx step bd : Z) (examined : list Z) (r : ProbeResult) :
  1 <= N -> 0 <= idx < N ->
  Probe_loop fuel t incl cmp buckets hash_array N ctx hash idx step bd examined
    = Some r ->
  (pr_bucket_idx r = BUCKET_NOT_FOUND /\ pr_found r = false)
  \/ (0 <= pr_bucket_idx r < N
      /\ if pr_found r
         then IsFilled (bucket_at buckets (pr_bucket_idx r)) = true
              /\ hash_at hash_array (pr_bucket_idx r) = hash
              /\ cmp = true
              /\ Equals ctx incl (GetRow t (bucket_at buckets (pr_bucket_idx r))) = true
              /\ pr_bd r = GetBucketData (bucket_at buckets (pr_bucket_idx r))
         else IsFilled (bucket_at buckets (pr_bucket_idx r)) = false).
Proof.
  intros HN. revert ctx idx step bd examined.
  induction fuel as [|fuel IH]; intros ctx idx step bd examined Hidx; [discriminate|].
  cbn [Probe_loop].
  destruct (IsFilled (bucket_at buckets idx)) eqn:Hf; cbn [negb].
  2:{ intros [= <-]. right. cbn. rewrite Hf. auto. }
  assert (Hnext : 0 <= next_bucket_idx (quadratic_probing t) N idx (step + 1) < N)
    by (apply next_bucket_idx_range; exact HN).
  destruct (hash =? hash_at hash_array idx) eqn:Hh; cbn [andb].
  - destruct cmp; cbn [andb].
    + destruct (Equals ctx incl (GetRow t (bucket_at buckets idx))) eqn:He.
      * intros [= <-]. right. cbn. apply Z.eqb_eq in Hh. auto 10.
      * destruct (step + 1 <? N); [|intros [= <-]; left; auto].
        intros Hr. apply IH in Hr; [exact Hr|exact Hnext].
    + destruct (step + 1 <? N); [|intros [= <-]; left; auto].
      intros Hr. apply IH in Hr; [exact Hr|exact Hnext].
  - destruct (step + 1 <? N); [|intros [= <-]; left; auto].
    intros Hr. apply IH in Hr; [exact Hr|exact Hnext].
Qed.

(** A probe returns [BUCKET_NOT_FOUND] or the index of a bucket. With
    [found] the bucket is filled, holds the probed hash and a row that
    [Equals] accepts, and [*bd] is the bucket's word; without, the bucket is
    free. *)
Lemma Probe_result (t : HashTable) (incl cmp : bool) (buckets : list Bucket)
    (hash_array : list Z) (N : Z) (ctx : HashTableCtx) (hash bd : Z) :
  1 <= N ->
  let r := Probe t incl cmp buckets hash_array N ctx hash bd in
  (pr_bucket_idx r = BUCKET_NOT_FOUND /\ pr_found r = false)
  \/ (0 <= pr_bucket_idx r < N
      /\ if pr_found r
         then IsFilled (bucket_at buckets (pr_bucket_idx r)) = true
              /\ hash_at hash_array (pr_bucket_idx r) = hash
              /\ cmp = true
              /\ Equals ctx incl (GetRow t (bucket_at buckets (pr_bucket_idx r))) = true
              /\ pr_bd r = GetBucketData (bucket_at buckets (pr_bucket_idx r))
         else IsFilled (bucket_at buckets (pr_bucket_idx r)) = false).
Proof.
  intros HN r.
  pose proof (Probe_opt_returns t incl cmp buckets hash_array N ctx hash bd) as Hr.
  fold r in Hr. unfold Probe_opt in Hr.
  apply Probe_loop_result in Hr; [exact Hr|exact HN|].
  pose proof (land_bounds hash (N - 1)). lia.
Qed.

Lemma Probe_loop_counters (fuel : nat) (t : HashTable) (incl cmp : bool)
    (buckets : list Bucket) (hash_array : list Z) (N : Z) (ctx : HashTableCtx)
    (hash idx step bd : Z) (examined : list Z) (r : ProbeResult) :
  0 <= step < N -> 0 <= idx < N ->
  Probe_loop fuel t incl cmp buckets hash_array N ctx hash idx step bd examined
    = Some r ->
  num_probes_ (pr_ctx r) = num_probes_ ctx
  /\ CurExprValuesHash (pr_ctx r) = CurExprValuesHash ctx
  /\ Equals (pr_ctx r) = Equals ctx
  /\ num_hash_collisions_ ctx <= num_hash_collisions_ (pr_ctx r)
     <= num_hash_collisions_ ctx
        + (Z.of_nat (length (pr_examined r)) - Z.of_nat (length examined))
  /\ travel_length_ (pr_ctx r)
     = travel_length_ ctx + (if pr_bucket_idx r =? BUCKET_NOT_FOUND then N else 0).
Proof.
  revert ctx idx step bd examined.
  induction fuel as [|fuel IH]; intros ctx idx step bd examined Hs Hidx; [discriminate|].
  cbn [Probe_loop].
  assert (Hnf : (idx =? BUCKET_NOT_FOUND) = false)
    by (apply Z.eqb_neq; unfold BUCKET_NOT_FOUND; lia).
  assert (Hlen : Z.of_nat (length (examined ++ [idx])) = Z.of_nat (length examined) + 1)
    by (rewrite length_app; cbn; lia).
  assert (Hnext : 0 <= next_bucket_idx (quadratic_probing t) N idx (step + 1) < N)
    by (apply next_bucket_idx_range; lia).
  destruct (negb (IsFilled (bucket_at buckets idx))).
  { intros [= <-]. cbn. rewrite Hnf, Hlen. repeat split; lia. }
  destruct (_ && _ && _).
  { intros [= <-]. cbn. rewrite Hnf, Hlen. repeat split; lia. }
  destruct (step + 1 <? N) eqn:E.
  - apply Z.ltb_lt in E. intros Hr.
    apply IH in Hr; [|lia|exact Hnext].
    destruct Hr as (H1 & H2 & H3 & H4 & H5).
    rewrite Hlen in H4.
    destruct (hash =? hash_at hash_array idx); cbn in H1, H2, H3, H4, H5 |- *;
      repeat split; try assumption; try lia.
  - apply Z.ltb_ge in E. intros [= <-]. cbn. rewrite Hlen.
    destruct (hash =? hash_at hash_array idx); cbn; repeat split; try lia;
      f_equal; lia.
Qed.

(** A probe leaves the row of the context and its equality alone. *)
Lemma Probe_ctx_frame (t : HashTable) (incl cmp : bool) (buckets : list Bucket)
    (hash_array : list Z) (N : Z) (ctx : HashTableCtx) (hash bd : Z) :
  1 <= N ->
  let r := Probe t incl cmp buckets hash_array N ctx hash bd in
  CurExprValuesHash (pr_ctx r) = CurExprValuesHash ctx
  /\ Equals (pr_ctx r) = Equals ctx.
Proof.
  intros HN r.
  pose proof (Probe_opt_returns t incl cmp buckets hash_array N ctx hash bd) as Hr.
  fold r in Hr. unfold Probe_opt in Hr.
  apply Probe_loop_counters in Hr; [|lia|pose proof (land_bounds hash (N - 1)); lia].
  cbn in Hr. destruct Hr as (_ & H2 & H3 & _). split; assumption.
Qed.

(** X5. Every probe counts as one in [num_probes_]; it counts at most one hash
    collision per bucket it looks at; and it adds to [travel_length_] only
    when it gives up, then the number of buckets. *)
Theorem Probe_counters (t : HashTable) (incl cmp : bool) (buckets : list Bucket)
    (hash_array : list Z) (N : Z) (ctx : HashTableCtx) (hash bd : Z) :
  1 <= N ->
  let r := Probe t incl cmp buckets hash_array N ctx hash bd in
  num_probes_ (pr_ctx r) = num_probes_ ctx + 1
  /\ CurExprValuesHash (pr_ctx r) = CurExprValuesHash ctx
  /\ Equals (pr_ctx r) = Equals ctx
  /\ num_hash_collisions_ ctx <= num_hash_collisions_ (pr_ctx r)
     <= num_hash_collisions_ ctx + Z.of_nat (length (pr_examined r))
  /\ travel_length_ (pr_ctx r)
     = travel_length_ ctx + (if pr_bucket_idx r =? BUCKET_NOT_FOUND then N else 0).
Proof.
  intros HN r.
  pose proof (Probe_opt_returns t incl cmp buckets hash_array N ctx hash bd) as Hr.
  fold r in Hr. unfold Probe_opt in Hr.
  apply Probe_loop_counters in Hr; [|lia|pose proof (land_bounds hash (N - 1)); lia].
  cbn in Hr. destruct Hr as (H1 & H2 & H3 & H4 & H5).
  repeat split; try assumption; lia.
Qed.

(** ** A probe gives up only on a full table *)

Lemma Probe_loop_gives_up (f : Z -> Z) (fuel : nat) (t : HashTable) (incl cmp : bool)
    (buckets : list Bucket) (hash_array : list Z) (N : Z) (ctx : HashTableCtx)
    (hash step bd : Z) (examined : list Z) (r : ProbeResult) :
  (forall k, 0 <= k -> next_bucket_idx (quadratic_probing t) N (f k) (k + 1) = f (k + 1)) ->
  (forall k, 0 <= f k) ->
  0 <= step < N ->
  Probe_loop fuel t incl cmp buckets hash_array N ctx hash (f step) step bd examined
    = Some r ->
  pr_bucket_idx r = BUCKET_NOT_FOUND ->
  forall k, step <= k < N ->
    IsFilled (bucket_at buckets (f k)) = true
    /\ (cmp = true -> hash_at hash_array (f k) = hash ->
        Equals ctx incl (GetRow t (bucket_at buckets (f k))) = false).
Proof.
  intros Hf Hpos. revert ctx step bd examined.
  induction fuel as [|fuel IH]; intros ctx step bd examined Hs; [discriminate|].
  cbn [Probe_loop].
  destruct (IsFilled (bucket_at buckets (f step))) eqn:Hfill; cbn [negb].
  2:{ intros [= <-]. cbn. intros E. pose proof (Hpos step).
      unfold BUCKET_NOT_FOUND in E. lia. }
  destruct (_ && _ && _) eqn:Hhit.
  { intros [= <-]. cbn. intros E. pose proof (Hpos step).
    unfold BUCKET_NOT_FOUND in E. lia. }
  assert (Hhere : cmp = true -> hash_at hash_array (f step) = hash ->
                  Equals ctx incl (GetRow t (bucket_at buckets (f step))) = false).
  { intros -> Hh. rewrite Hh, Z.eqb_refl in Hhit. cbn in Hhit. exact Hhit. }
  destruct (step + 1 <? N) eqn:E.
  - apply Z.ltb_lt in E. rewrite Hf by lia. intros Hr Hnf k Hk.
    destruct (Z.eq_dec k step) as [->|Hne]; [split; assumption|].
    pose proof (IH _ (step + 1) _ _ ltac:(lia) Hr Hnf k ltac:(lia)) as IH'.
    destruct (hash =? hash_at hash_array (f step)); exact IH'.
  - apply Z.ltb_ge in E. intros _ _ k Hk.
    assert (k = step) as -> by lia. split; assumption.
Qed.

Lemma linear_index_succ (n base k : Z) :
  0 <= n ->
  Z.land (linear_index (2 ^ n) base k + 1) (2 ^ n - 1) = linear_index (2 ^ n) base (k + 1).
Proof.
  intros Hn. rewrite land_mask by exact Hn. unfold linear_index.
  rewrite Zplus_mod_idemp_l. f_equal. lia.
Qed.

(** With a power of two for the number of buckets, either probing policy
    reaches every bucket. *)
Lemma probe_sequence_onto (q : bool) (n base i : Z) :
  0 <= n -> 0 <= i < 2 ^ n ->
  exists k, 0 <= k < 2 ^ n
            /\ i = (if q then triangular_index (2 ^ n) base k
                    else linear_index (2 ^ n) base k).
Proof.
  intros Hn Hi. destruct q.
  - pose proof (triangular_sequence_perm n base Hn) as Hp.
    assert (Hin : i ∈ seqZ 0 (2 ^ n)) by (apply elem_of_seqZ; lia).
    rewrite <- Hp in Hin. unfold triangular_sequence in Hin.
    apply list_elem_of_fmap in Hin as (k & -> & Hk).
    apply elem_of_seqZ in Hk. exists k. split; [lia|reflexivity].
  - exists ((i - base) mod 2 ^ n). split; [apply Z.mod_pos_bound; lia|].
    unfold linear_index. rewrite Zplus_mod_idemp_r.
    replace (base + (i - base)) with i by lia.
    symmetry. apply Z.mod_small. lia.
Qed.

(** [Probe] returns [BUCKET_NOT_FOUND] only when every bucket is filled and
    none that holds the probed hash holds a row that [Equals] accepts. *)
Lemma Probe_gives_up (n : nat) (t : HashTable) (incl cmp : bool)
    (buckets : list Bucket) (hash_array : list Z) (ctx : HashTableCtx) (hash bd : Z) :
  let N := 2 ^ Z.of_nat n in
  pr_bucket_idx (Probe t incl cmp buckets hash_array N ctx hash bd) = BUCKET_NOT_FOUND ->
  forall i, 0 <= i < N ->
    IsFilled (bucket_at buckets i) = true
    /\ (cmp = true -> hash_at hash_array i = hash ->
        Equals ctx incl (GetRow t (bucket_at buckets i)) = false).
Proof.
  intros N Hnf i Hi. assert (Hn : 0 <= Z.of_nat n) by lia.
  assert (Hpos : 0 < N) by (apply Z.pow_pos_nonneg; lia).
  pose proof (Probe_opt_returns t incl cmp buckets hash_array N ctx hash bd) as Hr.
  unfold Probe_opt in Hr.
  set (f := fun k => if quadratic_probing t then triangular_index N hash k
                     else linear_index N hash k).
  assert (H0 : Z.land hash (N - 1) = f 0).
  { unfold f, N. destruct (quadratic_probing t).
    - apply triangular_index_0. exact Hn.
    - rewrite land_mask by exact Hn. unfold linear_index. f_equal. lia. }
  rewrite H0 in Hr.
  destruct (probe_sequence_onto (quadratic_probing t) (Z.of_nat n) hash i Hn Hi)
    as (k & Hk & ->).
  fold N. change (if quadratic_probing t then triangular_index N hash k
                  else linear_index N hash k) with (f k).
  apply (Probe_loop_gives_up f _ _ _ _ _ _ _ _ _ _ _ _ _) with (k := k) in Hr;
    [exact Hr| | |lia|exact Hnf|lia].
  - intros j Hj. unfold f, next_bucket_idx, N. destruct (quadratic_probing t).
    + apply triangular_index_succ. exact Hn.
    + apply linear_index_succ. exact Hn.
  - intros j. unfold f, triangular_index, linear_index.
    destruct (quadratic_probing t); apply Z.mod_pos_bound; exact Hpos.
Qed.

(** ** Insert, then look the row up *)

Lemma Probe_loop_after_fill (fuel : nat) (t t' : HashTable) (incl incl' : bool)
    (buckets buckets' : list Bucket) (hash_array hash_array' : list Z) (N : Z)
    (ctx ctx' : HashTableCtx) (hash idx0 idx step bd bd' : Z)
    (examined examined' : list Z) (r : ProbeResult) :
  0 <= idx0 ->
  quadratic_probing t' = quadratic_probing t ->
  (forall b, GetRow t' b = GetRow t b) ->
  (forall i, i <> idx0 ->
     bucket_at buckets' i = bucket_at buckets i
     /\ hash_at hash_array' i = hash_at hash_array i) ->
  (forall h, Equals ctx' incl' h = Equals ctx incl h) ->
  IsFilled (bucket_at buckets idx0) = false ->
  IsFilled (bucket_at buckets' idx0) = true ->
  hash_at hash_array' idx0 = hash ->
  Equals ctx' incl' (GetRow t' (bucket_at buckets' idx0)) = true ->
  Probe_loop fuel t incl true buckets hash_array N ctx hash idx step bd examined
    = Some r ->
  pr_found r = false -> pr_bucket_idx r = idx0 ->
  exists r',
    Probe_loop fuel t' incl' true buckets' hash_array' N ctx' hash idx step bd' examined'
      = Some r'
    /\ pr_found r' = true /\ pr_bucket_idx r' = idx0
    /\ pr_bd r' = GetBucketData (bucket_at buckets' idx0).
Proof.
  intros H0 Hq Hrow Hsame Heq Hfree Hfull Hhash Hself.
  revert ctx ctx' Heq Hself idx step bd bd' examined examined'.
  induction fuel as [|fuel IH];
    intros ctx ctx' Heq Hself idx step bd bd' examined examined'; [discriminate|].
  cbn [Probe_loop].
  destruct (IsFilled (bucket_at buckets idx)) eqn:Hf; cbn [negb].
  - (* a bucket that was filled before: both probes pass it alike *)
    assert (Hne : idx <> idx0) by (intros ->; congruence).
    destruct (Hsame idx Hne) as [-> ->]. rewrite Hf. cbn [negb].
    rewrite Hrow, Heq, Hq.
    destruct (hash =? hash_at hash_array idx) eqn:Hh; cbn [andb].
    + destruct (Equals ctx incl (GetRow t (bucket_at buckets idx))).
      * intros [= <-]. discriminate.
      * destruct (step + 1 <? N).
        -- apply IH; [intros h; apply Heq|exact Hself].
        -- intros [= <-] _. cbn. intros E. unfold BUCKET_NOT_FOUND in E. lia.
    + destruct (step + 1 <? N).
      * apply IH; assumption.
      * intros [= <-] _. cbn. intros E. unfold BUCKET_NOT_FOUND in E. lia.
  - (* the free bucket the first probe stopped at *)
    intros [= <-] _. cbn. intros ->.
    rewrite Hfull, Hhash, Z.eqb_refl, Hself. cbn.
    eexists. split; [reflexivity|]. cbn. auto.
Qed.

(** ** Arrays of buckets *)

Lemma bucket_at_lookup (l : list Bucket) (i : nat) (b : Bucket) :
  l !! i = Some b -> bucket_at l (Z.of_nat i) = b.
Proof.
  intros H. unfold bucket_at.
  destruct (Z.of_nat i <? 0) eqn:E; [apply Z.ltb_lt in E; lia|].
  rewrite Nat2Z.id, H. reflexivity.
Qed.

(** An array that differs from another at one index. *)
Lemma bucket_array_updated (l l' : list Bucket) (idx : Z) (b' : Bucket) :
  0 <= idx < Z.of_nat (length l) ->
  bucket_at l' idx = b' ->
  (forall i, i <> idx -> bucket_at l' i = bucket_at l i) ->
  length l' = length l ->
  l' = <[Z.to_nat idx := b']> l.
Proof.
  intros Hidx Hat Hother Hlen. apply list_eq. intros i.
  destruct (decide (i = Z.to_nat idx)) as [->|Hne].
  - rewrite list_lookup_insert_eq by lia.
    destruct (l' !! Z.to_nat idx) as [b|] eqn:L.
    + apply bucket_at_lookup in L. rewrite Z2Nat.id in L by lia. congruence.
    + apply lookup_ge_None in L. lia.
  - rewrite list_lookup_insert_ne by congruence.
    destruct (l !! i) as [b|] eqn:L.
    + assert (Hi : (i < length l')%nat) by (rewrite Hlen; eapply lookup_lt_Some; eassumption).
      apply lookup_lt_is_Some in Hi as [b1 L1]. rewrite L1. f_equal.
      apply bucket_at_lookup in L, L1. rewrite Hother in L1 by lia. congruence.
    + apply lookup_ge_None. apply lookup_ge_None in L. lia.
Qed.

Lemma count_filter_insert (P : Bucket -> bool) (l : list Bucket) (i : nat)
    (b0 b : Bucket) :
  l !! i = Some b0 ->
  (length (List.filter P (<[i := b]> l)) + (if P b0 then 1 else 0)
   = length (List.filter P l) + (if P b then 1 else 0))%nat.
Proof.
  intros L. rewrite insert_take_drop by (eapply lookup_lt_Some; eassumption).
  rewrite <- (take_drop_middle l i b0 L) at 3.
  rewrite !List.filter_app, !length_app. cbn [List.filter].
  destruct (P b0), (P b); cbn [length]; lia.
Qed.

(** How the counts of an array change with one bucket. *)
Lemma counts_updated (l l' : list Bucket) (idx : Z) (b' : Bucket) :
  0 <= idx < Z.of_nat (length l) ->
  bucket_at l' idx = b' ->
  (forall i, i <> idx -> bucket_at l' i = bucket_at l i) ->
  length l' = length l ->
  count_filled l' + (if IsFilled (bucket_at l idx) then 1 else 0)
  = count_filled l + (if IsFilled b' then 1 else 0)
  /\ count_with_duplicates l' + (if HasDuplicates (bucket_at l idx) then 1 else 0)
     = count_with_duplicates l + (if HasDuplicates b' then 1 else 0).
Proof.
  intros Hidx Hat Hother Hlen.
  rewrite (bucket_array_updated l l' idx b' Hidx Hat Hother Hlen).
  assert (Hi : (Z.to_nat idx < length l)%nat) by lia.
  apply lookup_lt_is_Some in Hi as [b0 L].
  pose proof (bucket_at_lookup l _ _ L) as Hb0. rewrite Z2Nat.id in Hb0 by lia.
  rewrite Hb0. unfold count_filled, count_with_duplicates.
  pose proof (count_filter_insert IsFilled l _ b0 b' L).
  pose proof (count_filter_insert HasDuplicates l _ b0 b' L).
  destruct (IsFilled b0), (IsFilled b'), (HasDuplicates b0), (HasDuplicates b'); lia.
Qed.

Lemma hash_at_insert_eq (hs : list Z) (i h : Z) :
  0 <= i < Z.of_nat (length hs) -> hash_at (<[Z.to_nat i := h]> hs) i = h.
Proof.
  intros H. unfold hash_at. destruct (i <? 0) eqn:E; [apply Z.ltb_lt in E; lia|].
  rewrite list_lookup_insert_eq by lia. reflexivity.
Qed.

Lemma hash_at_insert_ne (hs : list Z) (i j h : Z) :
  0 <= i -> i <> j -> hash_at (<[Z.to_nat i := h]> hs) j = hash_at hs j.
Proof.
  intros Hi Hne. unfold hash_at. destruct (j <? 0) eqn:E; [reflexivity|].
  apply Z.ltb_ge in E. rewrite list_lookup_insert_ne by lia. reflexivity.
Qed.

(** What [PrepareBucketForInsert] and the store of the row's handle leave
    behind: the steps of [Insert] on a free bucket, and of
    [Iterator::SetTuple]. *)
Lemma fill_bucket_spec (t : HashTable) (idx hash : Z) (h : HtData) :
  0 <= idx < Z.of_nat (length (buckets_ t)) ->
  length (hash_array_ t) = length (buckets_ t) ->
  let t1 := PrepareBucketForInsert t idx hash in
  let t' := set_bucket t1 idx (SetBucketData (bucket_at (buckets_ t1) idx) h) in
  bucket_at (buckets_ t') idx
  = {| IsFilled := true; IsMatched := false; HasDuplicates := false;
       GetBucketData := h |}
  /\ (forall i, i <> idx -> bucket_at (buckets_ t') i = bucket_at (buckets_ t) i)
  /\ length (buckets_ t') = length (buckets_ t)
  /\ hash_at (hash_array_ t') idx = hash
  /\ (forall i, i <> idx -> hash_at (hash_array_ t') i = hash_at (hash_array_ t) i)
  /\ length (hash_array_ t') = length (hash_array_ t)
  /\ node_memory t' = node_memory t
  /\ stores_duplicates t' = stores_duplicates t
  /\ quadratic_probing t' = quadratic_probing t
  /\ num_buckets_ t' = num_buckets_ t
  /\ num_filled_buckets_ t' = num_filled_buckets_ t + 1
  /\ num_buckets_with_duplicates_ t' = num_buckets_with_duplicates_ t.
Proof.
  intros Hidx Hlen t1 t'.
  assert (Hneg : (idx <? 0) = false) by (apply Z.ltb_ge; lia).
  assert (Hb1 : bucket_at (buckets_ t1) idx
                = Bucket_PrepareBucketForInsert (bucket_at (buckets_ t) idx)).
  { unfold t1, PrepareBucketForInsert. cbn [buckets_]. rewrite Hneg.
    apply bucket_at_insert_eq. exact Hidx. }
  assert (Hl1 : length (buckets_ t1) = length (buckets_ t)).
  { unfold t1, PrepareBucketForInsert. cbn [buckets_]. rewrite Hneg.
    apply length_insert. }
  assert (Hidx1 : 0 <= idx < Z.of_nat (length (buckets_ t1))) by (rewrite Hl1; exact Hidx).
  pose proof (set_bucket_spec t1 idx (SetBucketData (bucket_at (buckets_ t1) idx) h) Hidx1)
    as HS.
  fold t' in HS. destruct HS as (S1 & S2 & S3).
  split; [rewrite S1, Hb1; reflexivity|].
  split.
  { intros i Hi. rewrite S2 by exact Hi. unfold t1, PrepareBucketForInsert.
    cbn [buckets_]. rewrite Hneg. apply bucket_at_insert_ne; lia. }
  split; [rewrite S3; exact Hl1|].
  unfold t', set_bucket, t1, PrepareBucketForInsert.
  cbn [hash_array_ node_memory stores_duplicates quadratic_probing num_buckets_
       num_filled_buckets_ num_buckets_with_duplicates_].
  rewrite Hneg.
  split; [apply hash_at_insert_eq; lia|].
  split; [intros i Hi; apply hash_at_insert_ne; lia|].
  split; [apply length_insert|]. auto 10.
Qed.

(** The probe for a row, repeated once the free bucket it ended at holds
    the row: it ends at that bucket, with the row found. [t'] is the table
    with the bucket filled. *)
Lemma Probe_again (t t' : HashTable) (ht_ctx : HashTableCtx) (bd0 bd1 : Z)
    (h : HtData) (incl' : bool) :
  let pr := Probe t true true (buckets_ t) (hash_array_ t) (num_buckets_ t)
              ht_ctx (CurExprValuesHash ht_ctx) bd0 in
  let idx := pr_bucket_idx pr in
  1 <= num_buckets_ t ->
  pr_found pr = false ->
  idx <> BUCKET_NOT_FOUND ->
  Equals ht_ctx true h = true ->
  (forall h', Equals ht_ctx incl' h' = Equals ht_ctx true h') ->
  bucket_at (buckets_ t') idx
  = {| IsFilled := true; IsMatched := false; HasDuplicates := false;
       GetBucketData := h |} ->
  (forall i, i <> idx -> bucket_at (buckets_ t') i = bucket_at (buckets_ t) i) ->
  hash_at (hash_array_ t') idx = CurExprValuesHash ht_ctx ->
  (forall i, i <> idx -> hash_at (hash_array_ t') i = hash_at (hash_array_ t) i) ->
  node_memory t' = node_memory t ->
  stores_duplicates t' = stores_duplicates t ->
  quadratic_probing t' = quadratic_probing t ->
  num_buckets_ t' = num_buckets_ t ->
  let pr' := Probe t' incl' true (buckets_ t') (hash_array_ t') (num_buckets_ t')
               (pr_ctx pr) (CurExprValuesHash (pr_ctx pr)) bd1 in
  pr_found pr' = true /\ pr_bucket_idx pr' = idx /\ pr_bd pr' = h
  /\ forall node, Iterator_GetRow t' {| bucket_idx_ := idx; node_ := node |} = h.
Proof.
  intros pr idx HN Hfound Hnf Hself Hincl B1 B2 H1 H2 Hm Hsd Hq Hnb pr'.
  destruct (Probe_result t true true (buckets_ t) (hash_array_ t) (num_buckets_ t)
              ht_ctx (CurExprValuesHash ht_ctx) bd0 HN) as [[E _]|[Hidx Hfree]];
    [exfalso; exact (Hnf E)|].
  fold pr idx in Hidx, Hfree. rewrite Hfound in Hfree.
  destruct (Probe_ctx_frame t true true (buckets_ t) (hash_array_ t) (num_buckets_ t)
              ht_ctx (CurExprValuesHash ht_ctx) bd0 HN) as (Hh & He).
  fold pr in Hh, He.
  assert (Hrow : forall b, GetRow t' b = GetRow t b).
  { intros b. unfold GetRow, node_at. rewrite Hsd, Hm. reflexivity. }
  assert (Hrow' : GetRow t' (bucket_at (buckets_ t') idx) = h).
  { rewrite B1. unfold GetRow. cbn. rewrite andb_false_r. reflexivity. }
  assert (Hget : forall node, Iterator_GetRow t' {| bucket_idx_ := idx; node_ := node |} = h).
  { intros node. unfold Iterator_GetRow, in_chain. cbn [bucket_idx_].
    rewrite B1. cbn. rewrite andb_false_r. reflexivity. }
  pose proof (Probe_opt_returns t true true (buckets_ t) (hash_array_ t)
                (num_buckets_ t) ht_ctx (CurExprValuesHash ht_ctx) bd0) as Hr.
  fold pr in Hr. unfold Probe_opt in Hr.
  pose proof (Probe_opt_returns t' incl' true (buckets_ t') (hash_array_ t')
                (num_buckets_ t') (pr_ctx pr) (CurExprValuesHash (pr_ctx pr)) bd1) as Hr'.
  fold pr' in Hr'. unfold Probe_opt in Hr'. rewrite Hnb, Hh in Hr'.
  assert (A0 : 0 <= idx) by lia.
  assert (A1 : forall i, i <> idx ->
            bucket_at (buckets_ t') i = bucket_at (buckets_ t) i
            /\ hash_at (hash_array_ t') i = hash_at (hash_array_ t) i).
  { intros i Hi. split; [apply B2|apply H2]; exact Hi. }
  assert (A2 : forall h', Equals (count_probe (pr_ctx pr)) incl' h'
                          = Equals (count_probe ht_ctx) true h').
  { intros h'. cbn. rewrite He. apply Hincl. }
  assert (A3 : IsFilled (bucket_at (buckets_ t') idx) = true)
    by (rewrite B1; reflexivity).
  assert (A4 : Equals (count_probe (pr_ctx pr)) incl'
                 (GetRow t' (bucket_at (buckets_ t') idx)) = true).
  { cbn. rewrite He, Hincl, Hrow'. exact Hself. }
  destruct (Probe_loop_after_fill (Probe_fuel (num_buckets_ t)) t t' true incl'
              (buckets_ t) (buckets_ t') (hash_array_ t) (hash_array_ t')
              (num_buckets_ t) (count_probe ht_ctx) (count_probe (pr_ctx pr))
              (CurExprValuesHash ht_ctx) idx
              (Z.land (CurExprValuesHash ht_ctx) (num_buckets_ t - 1)) 0 bd0 bd1
              [] [] pr A0 Hq Hrow A1 A2 Hfree A3 H1 A4 Hr Hfound eq_refl)
    as (r' & Hr2 & F1 & F2 & F3).
  rewrite Hr' in Hr2. injection Hr2 as <-.
  rewrite B1 in F3. auto.
Qed.

Section InsertFacts.

Variable NODES_PER_PAGE : Z.

(** [Insert] of a row that is not yet in the table, into the free bucket
    the probe stopped at. *)
Lemma Insert_fresh (allocator : nat) (t : HashTable) (ht_ctx : HashTableCtx)
    (flat_row tuple : HtData) (status : Status) (bd0 : Z) :
  let pr := Probe t true true (buckets_ t) (hash_array_ t) (num_buckets_ t)
              ht_ctx (CurExprValuesHash ht_ctx) bd0 in
  let idx := pr_bucket_idx pr in
  let h := if stores_tuples t then tuple else flat_row in
  let t1 := PrepareBucketForInsert t idx (CurExprValuesHash ht_ctx) in
  pr_found pr = false ->
  0 <= idx < Z.of_nat (length (buckets_ t)) ->
  Insert NODES_PER_PAGE allocator t ht_ctx flat_row tuple status bd0
  = Some {| ir_ok := true; ir_status := status; ir_allocator := allocator;
            ir_table := set_bucket t1 idx (SetBucketData (bucket_at (buckets_ t1) idx) h);
            ir_ctx := pr_ctx pr |}.
Proof.
  intros pr idx h t1 Hfound Hidx.
  assert (Hneg : (idx <? 0) = false) by (apply Z.ltb_ge; lia).
  assert (Hnf : (idx =? BUCKET_NOT_FOUND) = false)
    by (apply Z.eqb_neq; unfold BUCKET_NOT_FOUND; lia).
  unfold Insert, InsertInternal. fold pr idx. rewrite Hnf, Hfound. fold t1.
  assert (Hb1 : HasDuplicates (bucket_at (buckets_ t1) idx) = false).
  { unfold t1, PrepareBucketForInsert. cbn [buckets_]. rewrite Hneg.
    rewrite bucket_at_insert_eq by exact Hidx. reflexivity. }
  rewrite Hb1. reflexivity.
Qed.

(** X9. [Insert], then look the row up. A row inserted into a free bucket is
    found again by [FindBuildRowBucket], in the bucket it went to; and by
    [FindProbeRow] when the two equalities agree (no [NULL] is involved).
    The context's current row is the inserted one, so [Equals] accepts
    it. *)
Theorem Insert_then_find (allocator : nat) (t : HashTable) (ht_ctx : HashTableCtx)
    (flat_row tuple : HtData) (status : Status) (bd0 : Z) :
  let pr := Probe t true true (buckets_ t) (hash_array_ t) (num_buckets_ t)
              ht_ctx (CurExprValuesHash ht_ctx) bd0 in
  let idx := pr_bucket_idx pr in
  let h := if stores_tuples t then tuple else flat_row in
  1 <= num_buckets_ t ->
  Z.of_nat (length (buckets_ t)) = num_buckets_ t ->
  length (hash_array_ t) = length (buckets_ t) ->
  pr_found pr = false ->
  idx <> BUCKET_NOT_FOUND ->
  Equals ht_ctx true h = true ->
  exists r,
    Insert NODES_PER_PAGE allocator t ht_ctx flat_row tuple status bd0 = Some r
    /\ ir_ok r = true /\ ir_status r = status
    /\ (forall bd1,
          let '(it, found, _) := FindBuildRowBucket (ir_table r) (ir_ctx r) bd1 in
          found = true /\ bucket_idx_ it = idx
          /\ Iterator_GetRow (ir_table r) it = h)
    /\ ((forall h', Equals ht_ctx false h' = Equals ht_ctx true h') ->
        forall bd1,
          let it := (FindProbeRow (ir_table r) (ir_ctx r) bd1).1 in
          AtEnd it = false /\ bucket_idx_ it = idx
          /\ Iterator_GetRow (ir_table r) it = h).
Proof.
  intros pr idx h HN Hlen Hhl Hfound Hnf Hself.
  destruct (Probe_result t true true (buckets_ t) (hash_array_ t) (num_buckets_ t)
              ht_ctx (CurExprValuesHash ht_ctx) bd0 HN) as [[E _]|[Hidx _]];
    [exfalso; exact (Hnf E)|].
  fold pr idx in Hidx.
  assert (Hidx' : 0 <= idx < Z.of_nat (length (buckets_ t))) by lia.
  pose proof (Insert_fresh allocator t ht_ctx flat_row tuple status bd0 Hfound Hidx')
    as Hins.
  pose proof (fill_bucket_spec t idx (CurExprValuesHash ht_ctx) h Hidx' Hhl) as HS.
  cbn zeta in Hins, HS. fold pr idx h in Hins.
  set (t' := set_bucket _ idx _) in *.
  destruct HS as (B1 & B2 & B3 & H1 & H2 & H3 & Hm & Hsd & Hq & Hnb & _).
  eexists. split; [exact Hins|]. split; [reflexivity|]. split; [reflexivity|].
  cbn [ir_table ir_ctx].
  assert (Hagain : forall incl' bd1,
            (forall h', Equals ht_ctx incl' h' = Equals ht_ctx true h') ->
            let pr' := Probe t' incl' true (buckets_ t') (hash_array_ t') (num_buckets_ t')
                         (pr_ctx pr) (CurExprValuesHash (pr_ctx pr)) bd1 in
            pr_found pr' = true /\ pr_bucket_idx pr' = idx /\ pr_bd pr' = h
            /\ forall node,
                 Iterator_GetRow t' {| bucket_idx_ := idx; node_ := node |} = h).
  { intros incl' bd1 Hincl.
    apply (Probe_again t t' ht_ctx bd0 bd1 h incl' HN Hfound Hnf Hself Hincl
             B1 B2 H1 H2 Hm Hsd Hq Hnb). }
  split.
  - intros bd1. unfold FindBuildRowBucket.
    destruct (Hagain true bd1 ltac:(reflexivity)) as (F1 & F2 & F3 & F4).
    cbn zeta in F1, F2, F3. rewrite F1, F2. cbn [bucket_idx_].
    split; [reflexivity|]. split; [reflexivity|]. apply F4.
  - intros Hincl bd1. unfold FindProbeRow.
    destruct (Hagain false bd1 Hincl) as (F1 & F2 & F3 & F4).
    cbn zeta in F1, F2, F3. rewrite F1, F2. cbn [fst bucket_idx_].
    split; [|split; [reflexivity|apply F4]].
    unfold AtEnd. cbn. apply Z.eqb_neq. exact Hnf.
Qed.

End InsertFacts.

(** X10. [FindBuildRowBucket], [SetTuple], [FindBuildRowBucket]: when the first
    lookup finds no row but a free bucket, and [SetTuple] puts a tuple for
    the context's row there, the second lookup finds it in that bucket.
    This is how an aggregation adds a group to the table. *)
Theorem SetTuple_then_find (t : HashTable) (ht_ctx : HashTableCtx)
    (tuple : HtData) (bd0 bd1 : Z) :
  let r := FindBuildRowBucket t ht_ctx bd0 in
  let it := r.1.1 in
  let t' := Iterator_SetTuple t it tuple (CurExprValuesHash ht_ctx) in
  let r' := FindBuildRowBucket t' r.2 bd1 in
  1 <= num_buckets_ t ->
  Z.of_nat (length (buckets_ t)) = num_buckets_ t ->
  length (hash_array_ t) = length (buckets_ t) ->
  r.1.2 = false ->
  AtEnd it = false ->
  Equals ht_ctx true tuple = true ->
  r'.1.2 = true /\ bucket_idx_ r'.1.1 = bucket_idx_ it
  /\ Iterator_GetRow t' r'.1.1 = tuple
  /\ num_filled_buckets_ t' = num_filled_buckets_ t + 1.
Proof.
  intros r it t' r' HN Hlen Hhl Hfound Hend Hself.
  set (pr := Probe t true true (buckets_ t) (hash_array_ t) (num_buckets_ t)
               ht_ctx (CurExprValuesHash ht_ctx) bd0).
  set (idx := pr_bucket_idx pr).
  change (pr_found pr = false) in Hfound.
  change ((idx =? BUCKET_NOT_FOUND) = false) in Hend. apply Z.eqb_neq in Hend.
  destruct (Probe_result t true true (buckets_ t) (hash_array_ t) (num_buckets_ t)
              ht_ctx (CurExprValuesHash ht_ctx) bd0 HN) as [[E _]|[Hidx _]];
    [exfalso; exact (Hend E)|].
  fold pr idx in Hidx.
  assert (Hidx' : 0 <= idx < Z.of_nat (length (buckets_ t))) by lia.
  pose proof (fill_bucket_spec t idx (CurExprValuesHash ht_ctx) tuple Hidx' Hhl) as HS.
  cbn zeta in HS.
  change (set_bucket (PrepareBucketForInsert t idx (CurExprValuesHash ht_ctx)) idx
            (SetBucketData
               (bucket_at
                  (buckets_ (PrepareBucketForInsert t idx (CurExprValuesHash ht_ctx)))
                  idx) tuple)) with t' in HS.
  destruct HS as (B1 & B2 & B3 & H1 & H2 & H3 & Hm & Hsd & Hq & Hnb & Hnf & _).
  pose proof (Probe_again t t' ht_ctx bd0 bd1 tuple true HN Hfound Hend Hself
                ltac:(reflexivity) B1 B2 H1 H2 Hm Hsd Hq Hnb) as HP.
  cbn zeta in HP. fold pr in HP. fold idx in HP.
  set (pr' := Probe t' true true (buckets_ t') (hash_array_ t') (num_buckets_ t')
                (pr_ctx pr) (CurExprValuesHash (pr_ctx pr)) bd1) in HP.
  destruct HP as (F1 & F2 & F3 & F4).
  assert (R1 : r'.1.2 = pr_found pr') by reflexivity.
  assert (R2 : r'.1.1 = {| bucket_idx_ := pr_bucket_idx pr'; node_ := node_ r'.1.1 |})
    by reflexivity.
  assert (R3 : bucket_idx_ it = idx) by reflexivity.
  rewrite R1, R2, R3, F1, F2. cbn [bucket_idx_].
  split; [reflexivity|]. split; [reflexivity|]. split; [apply F4|exact Hnf].
Qed.

(** ** Lookups *)

Lemma Iterator_GetRow_bucket (t : HashTable) (idx : Z) :
  Iterator_GetRow t
    {| bucket_idx_ := idx;
       node_ := if stores_duplicates t
                then GetBucketData (bucket_at (buckets_ t) idx) else 0 |}
  = GetRow t (bucket_at (buckets_ t) idx).
Proof.
  unfold Iterator_GetRow, in_chain, GetRow, GetDuplicate. cbn [bucket_idx_ node_].
  destruct (stores_duplicates t); reflexivity.
Qed.

(** X7. [FindProbeRow] returns [End()] or an iterator on a bucket of the table
    that is filled, holds the hash of the probe row, and whose row the
    context's equality (without [NULL = NULL]) accepts. The iterator's node
    is the head of the bucket's chain when the table stores duplicates. *)
Theorem FindProbeRow_result (t : HashTable) (ht_ctx : HashTableCtx) (bd0 : Z) :
  1 <= num_buckets_ t ->
  let it := (FindProbeRow t ht_ctx bd0).1 in
  it = End_
  \/ (0 <= bucket_idx_ it < num_buckets_ t
      /\ IsFilled (bucket_at (buckets_ t) (bucket_idx_ it)) = true
      /\ hash_at (hash_array_ t) (bucket_idx_ it) = CurExprValuesHash ht_ctx
      /\ node_ it = (if stores_duplicates t
                     then GetDuplicate (bucket_at (buckets_ t) (bucket_idx_ it))
                     else 0)
      /\ Equals ht_ctx false (Iterator_GetRow t it) = true).
Proof.
  intros HN it. unfold it, FindProbeRow. cbn [fst].
  destruct (Probe_result t false true (buckets_ t) (hash_array_ t) (num_buckets_ t)
              ht_ctx (CurExprValuesHash ht_ctx) bd0 HN) as [[_ E]|[Hidx H]].
  - rewrite E. left. reflexivity.
  - destruct (pr_found _); [|left; reflexivity].
    destruct H as (H1 & H2 & _ & H4 & H5). right. cbn [bucket_idx_ node_].
    rewrite H5. rewrite Iterator_GetRow_bucket. auto 10.
Qed.

(** X8. [FindBuildRowBucket] with [*found] set: the iterator is on a filled
    bucket that holds the hash and a row equal to the context's (with
    [NULL = NULL]). Without: the iterator is on a free bucket, where the row
    can go, or the probe gave up. *)
Theorem FindBuildRowBucket_result (t : HashTable) (ht_ctx : HashTableCtx) (bd0 : Z) :
  1 <= num_buckets_ t ->
  let '(it, found, _) := FindBuildRowBucket t ht_ctx bd0 in
  if found then
    0 <= bucket_idx_ it < num_buckets_ t
    /\ IsFilled (bucket_at (buckets_ t) (bucket_idx_ it)) = true
    /\ hash_at (hash_array_ t) (bucket_idx_ it) = CurExprValuesHash ht_ctx
    /\ node_ it = (if stores_duplicates t
                   then GetDuplicate (bucket_at (buckets_ t) (bucket_idx_ it))
                   else 0)
    /\ Equals ht_ctx true (Iterator_GetRow t it) = true
  else
    it = End_
    \/ (0 <= bucket_idx_ it < num_buckets_ t
        /\ IsFilled (bucket_at (buckets_ t) (bucket_idx_ it)) = false).
Proof.
  intros HN. unfold FindBuildRowBucket.
  destruct (Probe_result t true true (buckets_ t) (hash_array_ t) (num_buckets_ t)
              ht_ctx (CurExprValuesHash ht_ctx) bd0 HN) as [[E1 E2]|[Hidx H]].
  - rewrite E2, E1. left. rewrite andb_false_r. reflexivity.
  - assert (Hnf : (pr_bucket_idx
                     (Probe t true true (buckets_ t) (hash_array_ t) (num_buckets_ t)
                        ht_ctx (CurExprValuesHash ht_ctx) bd0) =? BUCKET_NOT_FOUND) = false)
      by (apply Z.eqb_neq; unfold BUCKET_NOT_FOUND; lia).
    destruct (pr_found _).
    + destruct H as (H1 & H2 & _ & H4 & H5). cbn [bucket_idx_ node_].
      rewrite Hnf, H5, andb_true_r. rewrite Iterator_GetRow_bucket. auto 10.
    + right. cbn [bucket_idx_]. split; assumption.
Qed.

(** ** The counters of a table *)

(** A table that differs from one whose counters agree in one bucket, with
    the counters moved accordingly. *)
Lemma counters_agree_step (t t' : HashTable) (idx : Z) :
  counters_agree t ->
  0 <= idx < num_buckets_ t ->
  num_buckets_ t' = num_buckets_ t ->
  length (hash_array_ t') = length (hash_array_ t) ->
  length (buckets_ t') = length (buckets_ t) ->
  (forall i, i <> idx -> bucket_at (buckets_ t') i = bucket_at (buckets_ t) i) ->
  num_filled_buckets_ t' + (if IsFilled (bucket_at (buckets_ t) idx) then 1 else 0)
  = num_filled_buckets_ t + (if IsFilled (bucket_at (buckets_ t') idx) then 1 else 0) ->
  num_buckets_with_duplicates_ t'
  + (if HasDuplicates (bucket_at (buckets_ t) idx) then 1 else 0)
  = num_buckets_with_duplicates_ t
    + (if HasDuplicates (bucket_at (buckets_ t') idx) then 1 else 0) ->
  (HasDuplicates (bucket_at (buckets_ t') idx) = true ->
   IsFilled (bucket_at (buckets_ t') idx) = true) ->
  counters_agree t'.
Proof.
  intros (C1 & C2 & C3 & C4 & C5 & C6) Hidx HN Hh Hl Hother Hf Hd Himp.
  destruct (counts_updated (buckets_ t) (buckets_ t') idx (bucket_at (buckets_ t') idx))
    as [U1 U2]; [lia|reflexivity|exact Hother|exact Hl|].
  unfold counters_agree. rewrite HN, Hh, Hl.
  split; [exact C1|]. split; [exact C2|]. split; [exact C3|].
  split; [lia|]. split; [lia|].
  intros i. destruct (Z.eq_dec i idx) as [->|Hne]; [exact Himp|].
  rewrite Hother by exact Hne. apply C6.
Qed.

(** The same buckets and counters. *)
Lemma counters_agree_same (t t' : HashTable) :
  counters_agree t ->
  buckets_ t' = buckets_ t -> hash_array_ t' = hash_array_ t ->
  num_buckets_ t' = num_buckets_ t ->
  num_filled_buckets_ t' = num_filled_buckets_ t ->
  num_buckets_with_duplicates_ t' = num_buckets_with_duplicates_ t ->
  counters_agree t'.
Proof.
  unfold counters_agree. intros H -> -> -> -> ->. exact H.
Qed.

Section CounterFacts.

Variable NODES_PER_PAGE : Z.

Lemma grow_nodes_counters (allocator : nat) (need : Z) (status : Status) (t : HashTable)
    (ok : bool) (status' : Status) (allocator' : nat) (t' : HashTable) :
  grow_nodes NODES_PER_PAGE allocator need status t = (ok, status', allocator', t') ->
  num_filled_buckets_ t' = num_filled_buckets_ t
  /\ num_buckets_with_duplicates_ t' = num_buckets_with_duplicates_ t
  /\ stores_duplicates t' = stores_duplicates t
  /\ quadratic_probing t' = quadratic_probing t.
Proof.
  revert status t. induction allocator as [|a IH]; intros status t; cbn [grow_nodes].
  - destruct (_ <? need); cbn; intros [= <- <- <- <-]; auto.
  - destruct (_ <? need); [|intros [= <- <- <- <-]; auto].
    cbn [GrowNodeArray]. intros Hr. apply IH in Hr. cbn in Hr. exact Hr.
Qed.

(** X11. [Insert] keeps the counters of the table in step with its buckets,
    whether it succeeds or fails for lack of memory: [num_filled_buckets_]
    counts the filled buckets, [num_buckets_with_duplicates_] those with
    duplicates, and only filled buckets have duplicates. *)
Theorem Insert_keeps_counters (allocator : nat) (t : HashTable) (ht_ctx : HashTableCtx)
    (flat_row tuple : HtData) (status : Status) (bd0 : Z) (r : InsertResult) :
  counters_agree t ->
  Insert NODES_PER_PAGE allocator t ht_ctx flat_row tuple status bd0 = Some r ->
  counters_agree (ir_table r).
Proof.
  intros HC. pose proof HC as (C1 & C2 & C3 & C4 & C5 & C6).
  set (pr := Probe t true true (buckets_ t) (hash_array_ t) (num_buckets_ t)
               ht_ctx (CurExprValuesHash ht_ctx) bd0).
  set (idx := pr_bucket_idx pr).
  destruct (Probe_result t true true (buckets_ t) (hash_array_ t) (num_buckets_ t)
              ht_ctx (CurExprValuesHash ht_ctx) bd0 C1) as [[E _]|[Hidx H]];
    fold pr in E || fold pr idx in Hidx, H.
  { unfold Insert, InsertInternal. fold pr. rewrite E, Z.eqb_refl. discriminate. }
  assert (Hidx' : 0 <= idx < Z.of_nat (length (buckets_ t))) by lia.
  destruct (pr_found pr) eqn:Hfound.
  2:{ (* a free bucket *)
    pose proof (Insert_fresh NODES_PER_PAGE allocator t ht_ctx flat_row tuple status bd0
                  Hfound Hidx') as Hins.
    pose proof (fill_bucket_spec t idx (CurExprValuesHash ht_ctx)
                  (if stores_tuples t then tuple else flat_row) Hidx' C3) as HS.
    cbn zeta in Hins, HS. fold pr in Hins. fold idx in Hins.
    set (t' := set_bucket _ idx _) in *.
    destruct HS as (B1 & B2 & B3 & H1 & H2 & H3 & Hm & Hsd & Hq & Hnb & Hnf & Hnd).
    rewrite Hins. intros [= <-]. cbn [ir_table].
    apply (counters_agree_step t t' idx HC Hidx Hnb H3 B3 B2).
    - rewrite B1, H. cbn. lia.
    - rewrite B1. cbn.
      destruct (HasDuplicates (bucket_at (buckets_ t) idx)) eqn:Hd; [|lia].
      apply C6 in Hd. congruence.
    - rewrite B1. cbn. discriminate. }
  (* a bucket with an equal row *)
  destruct H as (Hfill & _).
  assert (Hnf : (idx =? BUCKET_NOT_FOUND) = false)
    by (apply Z.eqb_neq; unfold BUCKET_NOT_FOUND; lia).
  unfold Insert, InsertInternal. fold pr idx. rewrite Hnf, Hfound.
  unfold InsertDuplicateNode.
  destruct (grow_nodes _ _ _ _ _) as [[[ok st] a] t1] eqn:Hgrow.
  destruct (grow_nodes_frame _ _ _ _ _ _ _ _ _ Hgrow) as (G1 & G2 & G3 & G4 & G5).
  destruct (grow_nodes_counters _ _ _ _ _ _ _ _ Hgrow) as (G6 & G7 & _).
  assert (HC1 : counters_agree t1)
    by (apply (counters_agree_same t t1 HC G1 G2 G5 G6 G7)).
  destruct ok; [|intros [= <-]; exact HC1].
  assert (Hidx1 : 0 <= idx < Z.of_nat (length (buckets_ t1))) by (rewrite G1; exact Hidx').
  (* the table once the row's node is linked *)
  set (t2 := if HasDuplicates (bucket_at (buckets_ t) idx) then t1
             else convert_entry_to_node t1 idx (pr_bd pr)).
  assert (HC2 : counters_agree t2
                /\ length (buckets_ t2) = length (buckets_ t1)
                /\ HasDuplicates (bucket_at (buckets_ t2) idx) = true
                /\ IsFilled (bucket_at (buckets_ t2) idx) = true).
  { unfold t2. destruct (HasDuplicates (bucket_at (buckets_ t) idx)) eqn:Hd.
    - rewrite G1. auto.
    - destruct (convert_entry_to_node_spec t1 idx (pr_bd pr) Hidx1)
        as (V1 & V2 & V3 & _ & _ & _ & _ & V8).
      cbn zeta in V1, V2, V3, V8.
      split; [|split; [exact V3|split; [rewrite V1; reflexivity|]];
               rewrite V1; cbn [IsFilled SetHasDuplicates SetBucketData];
               rewrite G1; exact Hfill].
      apply (counters_agree_step t1 _ idx HC1).
      + rewrite G5. exact Hidx.
      + reflexivity.
      + reflexivity.
      + exact V3.
      + exact V2.
      + rewrite V1, G1. cbn.
        change (num_filled_buckets_ (convert_entry_to_node t1 idx (pr_bd pr)))
          with (num_filled_buckets_ t1). lia.
      + rewrite V1, G1, Hd, V8. cbn. lia.
      + rewrite V1, G1. cbn. intros _. exact Hfill. }
  destruct HC2 as (HC2 & L2 & D2 & F2).
  assert (Hidx2 : 0 <= idx < Z.of_nat (length (buckets_ t2))) by (rewrite L2; exact Hidx1).
  destruct (link_new_node_spec t2 idx Hidx2) as (_ & W1 & W2 & W3 & _ & _ & _ & W8).
  cbn zeta in W1, W2, W3, W8.
  assert (W4 : hash_array_ (link_new_node t2 idx).2 = hash_array_ t2) by reflexivity.
  assert (W5 : num_buckets_ (link_new_node t2 idx).2 = num_buckets_ t2) by reflexivity.
  assert (W6 : num_filled_buckets_ (link_new_node t2 idx).2 = num_filled_buckets_ t2)
    by reflexivity.
  destruct (link_new_node t2 idx) as [p t3]. cbn [snd] in W1, W2, W3, W4, W5, W6, W8.
  assert (HC3 : counters_agree t3).
  { apply (counters_agree_step t2 t3 idx HC2).
    - destruct HC2 as (_ & <- & _). exact Hidx2.
    - exact W5.
    - rewrite W4. reflexivity.
    - exact W3.
    - exact W2.
    - rewrite W1, W6. cbn. lia.
    - rewrite W1, W8. cbn. lia.
    - rewrite W1. cbn. intros _. exact F2. }
  cbn [ir_table].
  destruct (HasDuplicates (bucket_at (buckets_ t3) idx)).
  - destruct (_ =? 0); intros [= <-]; cbn [ir_table]; [exact HC3|].
    apply (counters_agree_same t3 _ HC3); reflexivity.
  - intros [= <-]. cbn [ir_table].
    assert (Hidx3 : 0 <= idx < Z.of_nat (length (buckets_ t3)))
      by (rewrite W3; exact Hidx2).
    pose proof (set_bucket_spec t3 idx
                  (SetBucketData (bucket_at (buckets_ t3) idx)
                     (if stores_tuples t3 then tuple else flat_row)) Hidx3) as HS.
    set (t4 := set_bucket t3 idx _) in *. destruct HS as (S1 & S2 & S3).
    apply (counters_agree_step t3 t4 idx HC3).
    + destruct HC3 as (_ & <- & _). exact Hidx3.
    + reflexivity.
    + reflexivity.
    + exact S3.
    + exact S2.
    + rewrite S1. cbn. reflexivity.
    + rewrite S1. cbn. reflexivity.
    + rewrite S1. cbn. destruct HC3 as (_ & _ & _ & _ & _ & C6'). apply C6'.
Qed.

End CounterFacts.

Lemma count_filled_all (l : list Bucket) :
  (forall i, 0 <= i < Z.of_nat (length l) -> IsFilled (bucket_at l i) = true) ->
  count_filled l = Z.of_nat (length l).
Proof.
  intros H. unfold count_filled. f_equal.
  assert (Hall : forall b, b ∈ l -> IsFilled b = true).
  { intros b Hb. apply list_elem_of_lookup in Hb as [i Hi].
    rewrite <- (bucket_at_lookup l i b Hi). apply H.
    apply lookup_lt_Some in Hi. lia. }
  clear H. induction l as [|b l IH]; [reflexivity|].
  cbn [List.filter]. rewrite (Hall b) by apply list_elem_of_here.
  cbn [length]. f_equal. apply IH. intros b' Hb'. apply Hall.
  apply list_elem_of_further. exact Hb'.
Qed.

(** X6. The check at the end of [Probe],
    [DCHECK_EQ(num_filled_buckets_, num_buckets)], holds: on a table of
    [2^n] buckets whose counters agree with its buckets, a probe (of either
    policy, with or without row comparison) returns [BUCKET_NOT_FOUND] only
    when every bucket is filled. *)
Theorem Probe_gives_up_only_when_full (n : nat) (t : HashTable) (incl cmp : bool)
    (ctx : HashTableCtx) (hash bd : Z) :
  counters_agree t ->
  num_buckets_ t = 2 ^ Z.of_nat n ->
  pr_bucket_idx (Probe t incl cmp (buckets_ t) (hash_array_ t) (num_buckets_ t)
                   ctx hash bd) = BUCKET_NOT_FOUND ->
  num_filled_buckets_ t = num_buckets_ t.
Proof.
  intros (C1 & C2 & C3 & C4 & C5 & C6) HN Hnf. rewrite HN in Hnf.
  rewrite C4, <- C2. apply count_filled_all. intros i Hi.
  apply (Probe_gives_up n t incl cmp (buckets_ t) (hash_array_ t) ctx hash bd Hnf i).
  lia.
Qed.

Section InsertDefined.

Variable NODES_PER_PAGE : Z.

(** X12. [Insert] into a table that is not full is defined: on a table of [2^n]
    buckets, fewer of them filled, the probe of [InsertInternal] yields a
    bucket ([DCHECK_NE(bucket_idx, Iterator::BUCKET_NOT_FOUND)] holds), so
    the call returns. *)
Theorem Insert_defined (n : nat) (allocator : nat) (t : HashTable)
    (ht_ctx : HashTableCtx) (flat_row tuple : HtData) (status : Status) (bd0 : Z) :
  counters_agree t ->
  num_buckets_ t = 2 ^ Z.of_nat n ->
  num_filled_buckets_ t < num_buckets_ t ->
  exists r,
    Insert NODES_PER_PAGE allocator t ht_ctx flat_row tuple status bd0 = Some r.
Proof.
  intros HC HN Hfree. pose proof HC as (C1 & C2 & C3 & C4 & C5 & C6).
  unfold Insert, InsertInternal.
  set (pr := Probe t true true (buckets_ t) (hash_array_ t) (num_buckets_ t)
               ht_ctx (CurExprValuesHash ht_ctx) bd0).
  destruct (pr_bucket_idx pr =? BUCKET_NOT_FOUND) eqn:E.
  { exfalso. apply Z.eqb_eq in E. unfold pr in E. rewrite HN in E.
    assert (num_filled_buckets_ t = num_buckets_ t); [|lia].
    rewrite C4, <- C2. apply count_filled_all. intros i Hi.
    apply (Probe_gives_up n t true true (buckets_ t) (hash_array_ t) ht_ctx
             (CurExprValuesHash ht_ctx) bd0 E i). lia. }
  destruct (pr_found pr).
  - destruct (InsertDuplicateNode _ _ _ _ _ _) as [[[[p|] st] a] t'].
    + destruct (HasDuplicates _); [destruct (_ =? 0)|]; eexists; reflexivity.
    + eexists; reflexivity.
  - destruct (HasDuplicates _); [destruct (_ =? 0)|]; eexists; reflexivity.
Qed.

End InsertDefined.

(** ** Iteration *)

Lemma NextFilledBucket_loop_spec (fuel : nat) (t : HashTable) (i : Z) :
  0 <= i -> num_buckets_ t - i <= Z.of_nat fuel ->
  let r := NextFilledBucket_loop fuel t i in
  (r = (BUCKET_NOT_FOUND, 0)
   /\ forall j, i <= j < num_buckets_ t -> IsFilled (bucket_at (buckets_ t) j) = false)
  \/ (i <= r.1 < num_buckets_ t
      /\ IsFilled (bucket_at (buckets_ t) r.1) = true
      /\ (forall j, i <= j < r.1 -> IsFilled (bucket_at (buckets_ t) j) = false)
      /\ r.2 = if stores_duplicates t
               then GetDuplicate (bucket_at (buckets_ t) r.1) else 0).
Proof.
  revert i. induction fuel as [|fuel IH]; intros i Hi Hfuel; cbn [NextFilledBucket_loop].
  - destruct (i <? num_buckets_ t) eqn:E; [apply Z.ltb_lt in E; lia|].
    apply Z.ltb_ge in E. left. split; [reflexivity|]. intros j Hj. lia.
  - destruct (i <? num_buckets_ t) eqn:E.
    2:{ apply Z.ltb_ge in E. left. split; [reflexivity|]. intros j Hj. lia. }
    apply Z.ltb_lt in E.
    destruct (IsFilled (bucket_at (buckets_ t) i)) eqn:Hf.
    + right. cbn [fst snd]. split; [lia|]. split; [exact Hf|].
      split; [intros j Hj; lia|reflexivity].
    + destruct (IH (i + 1)) as [[-> Hall]|(H1 & H2 & H3 & H4)]; [lia|lia| |].
      * left. split; [reflexivity|]. intros j Hj.
        destruct (Z.eq_dec j i) as [->|Hne]; [exact Hf|apply Hall; lia].
      * right. split; [lia|]. split; [exact H2|]. split; [|exact H4].
        intros j Hj. destruct (Z.eq_dec j i) as [->|Hne]; [exact Hf|apply H3; lia].
Qed.

Lemma NextFilledBucket_first (t : HashTable) (idx : Z) :
  BUCKET_NOT_FOUND <= idx ->
  let r := NextFilledBucket t idx in
  (r = (BUCKET_NOT_FOUND, 0)
   /\ forall j, idx < j < num_buckets_ t -> IsFilled (bucket_at (buckets_ t) j) = false)
  \/ (idx < r.1 < num_buckets_ t
      /\ IsFilled (bucket_at (buckets_ t) r.1) = true
      /\ (forall j, idx < j < r.1 -> IsFilled (bucket_at (buckets_ t) j) = false)
      /\ r.2 = if stores_duplicates t
               then GetDuplicate (bucket_at (buckets_ t) r.1) else 0).
Proof.
  intros Hidx r. unfold BUCKET_NOT_FOUND in Hidx.
  destruct (NextFilledBucket_loop_spec (Z.to_nat (num_buckets_ t - (idx + 1))) t (idx + 1))
    as [[H1 H2]|(H1 & H2 & H3 & H4)]; [lia|lia| |].
  - left. split; [exact H1|]. intros j Hj. apply H2. lia.
  - right. fold (NextFilledBucket t idx) in H1, H2, H3, H4. fold r in H1, H2, H3, H4.
    split; [lia|]. split; [exact H2|]. split; [|exact H4].
    intros j Hj. apply H3. lia.
Qed.

Lemma chain_from_null (fuel : nat) (t : HashTable) : chain_from fuel t 0 = [].
Proof. destruct fuel; reflexivity. Qed.

Lemma iterate_at_end (n : nat) (t : HashTable) : iterate n t End_ = [].
Proof. destruct n; reflexivity. Qed.

(** Walking a chain: its rows, then what follows the bucket. *)
Lemma iterate_chain (fuel : nat) (t : HashTable) (i : Z) (rest : list (Z * HtData)) :
  0 <= i ->
  stores_duplicates t && HasDuplicates (bucket_at (buckets_ t) i) = true ->
  (forall n, iterate n t (let '(bucket_idx, node) := NextFilledBucket t i in
                          {| bucket_idx_ := bucket_idx; node_ := node |})
             = take n rest) ->
  forall p n, p <> 0 -> chain_ends fuel t p = true ->
    iterate n t {| bucket_idx_ := i; node_ := p |}
    = take n ((pair i <$> chain_from fuel t p) ++ rest).
Proof.
  intros Hi Hchain Hrest.
  induction fuel as [|fuel IH]; intros p n Hp; cbn [chain_ends chain_from];
    destruct (p =? 0) eqn:E; try (apply Z.eqb_eq in E; contradiction);
    [discriminate|].
  intros Hends. destruct n as [|n]; [reflexivity|].
  cbn [iterate]. unfold AtEnd. cbn [bucket_idx_].
  destruct (i =? BUCKET_NOT_FOUND) eqn:Enf;
    [apply Z.eqb_eq in Enf; unfold BUCKET_NOT_FOUND in Enf; lia|].
  unfold Iterator_GetRow, Iterator_Next, in_chain. cbn [bucket_idx_ node_].
  rewrite Hchain. cbn [andb fmap list_fmap app take]. f_equal.
  destruct (Next (node_at t p) =? 0) eqn:En; cbn [negb].
  - apply Z.eqb_eq in En. rewrite En, chain_from_null. apply Hrest.
  - apply IH; [apply Z.eqb_neq; exact En|exact Hends].
Qed.

Lemma entries_from_unfilled (fuel : nat) (t : HashTable) (k : nat) (i : Z) :
  (forall j, i <= j < i + Z.of_nat k -> IsFilled (bucket_at (buckets_ t) j) = false) ->
  entries_from k fuel t i = [].
Proof.
  revert i. induction k as [|k IH]; intros i H; [reflexivity|].
  cbn [entries_from]. unfold bucket_entries. rewrite (H i) by lia. cbn [negb app].
  apply IH. intros j Hj. apply H. lia.
Qed.

Lemma entries_from_app (fuel : nat) (t : HashTable) (k1 k2 : nat) (i : Z) :
  entries_from (k1 + k2) fuel t i
  = entries_from k1 fuel t i ++ entries_from k2 fuel t (i + Z.of_nat k1).
Proof.
  revert i. induction k1 as [|k1 IH]; intros i.
  - cbn. f_equal. lia.
  - cbn [Nat.add entries_from]. rewrite IH, <- app_assoc. do 3 f_equal. lia.
Qed.

(** The entries after bucket [i], walked from the first filled bucket
    after it. *)
Lemma iterate_from (fuel : nat) (t : HashTable) :
  chains_end fuel t = true ->
  forall (m : nat) (i : Z), BUCKET_NOT_FOUND <= i ->
    (Z.to_nat (num_buckets_ t - (i + 1)) <= m)%nat ->
    forall n,
      iterate n t (let '(bucket_idx, node) := NextFilledBucket t i in
                   {| bucket_idx_ := bucket_idx; node_ := node |})
      = take n (entries_from (Z.to_nat (num_buckets_ t - (i + 1))) fuel t (i + 1)).
Proof.
  intros Hwf. induction m as [|m IH]; intros i Hi Hm n.
  - (* no bucket is left *)
    pose proof Hi as Hi'. unfold BUCKET_NOT_FOUND in Hi'.
    destruct (NextFilledBucket_first t i Hi) as [[-> _]|(H1 & _)]; [|cbn zeta in H1; lia].
    replace (Z.to_nat _) with 0%nat by lia. cbn [entries_from].
    rewrite take_nil. apply iterate_at_end.
  - pose proof Hi as Hi'. unfold BUCKET_NOT_FOUND in Hi'.
    destruct (NextFilledBucket_first t i Hi) as [[-> Hall]|(H1 & H2 & H3 & H4)].
    { rewrite entries_from_unfilled; [rewrite take_nil; apply iterate_at_end|].
      intros j Hj. apply Hall. lia. }
    cbn zeta in H1, H2, H3, H4.
    destruct (NextFilledBucket t i) as [j node]. cbn [fst snd] in H1, H2, H3, H4.
    (* the buckets before [j] have no entry *)
    replace (Z.to_nat (num_buckets_ t - (i + 1)))
      with (Z.to_nat (j - (i + 1)) + S (Z.to_nat (num_buckets_ t - (j + 1))))%nat by lia.
    rewrite entries_from_app.
    rewrite (entries_from_unfilled fuel t (Z.to_nat (j - (i + 1))))
      by (intros j' Hj'; apply H3; lia).
    cbn [app entries_from].
    replace (i + 1 + Z.of_nat (Z.to_nat (j - (i + 1)))) with j by lia.
    assert (Hrest : forall n,
              iterate n t (let '(bucket_idx, node) := NextFilledBucket t j in
                           {| bucket_idx_ := bucket_idx; node_ := node |})
              = take n (entries_from (Z.to_nat (num_buckets_ t - (j + 1))) fuel t (j + 1))).
    { apply IH; unfold BUCKET_NOT_FOUND; lia. }
    unfold bucket_entries. rewrite H2. cbn [negb].
    destruct (stores_duplicates t && HasDuplicates (bucket_at (buckets_ t) j)) eqn:Hc.
    + (* a chain *)
      unfold chains_end in Hwf. rewrite forallb_forall in Hwf.
      specialize (Hwf j). rewrite H2 in Hwf. cbn [andb] in Hwf. rewrite Hc in Hwf.
      cbn [negb orb] in Hwf.
      assert (Hin : In j (seqZ 0 (num_buckets_ t)))
        by (apply list_elem_of_In, elem_of_seqZ; lia).
      apply Hwf in Hin. apply andb_true_iff in Hin as [Hp Hends].
      apply negb_true_iff, Z.eqb_neq in Hp.
      assert (Hsd : stores_duplicates t = true)
        by (apply andb_true_iff in Hc as [? _]; assumption).
      rewrite Hsd in H4. subst node.
      apply iterate_chain; [lia|exact Hc|exact Hrest|exact Hp|exact Hends].
    + destruct n as [|n]; [reflexivity|].
      cbn [iterate]. unfold AtEnd. cbn [bucket_idx_].
      destruct (j =? BUCKET_NOT_FOUND) eqn:Enf;
        [apply Z.eqb_eq in Enf; unfold BUCKET_NOT_FOUND in Enf; lia|].
      unfold Iterator_GetRow, Iterator_Next, in_chain. cbn [bucket_idx_ node_].
      rewrite Hc. cbn [andb app take]. f_equal. apply Hrest.
Qed.

(** X13. Walking a table with [Begin] and [Next] visits every entry once: the
    filled buckets by rising index, and in a bucket with duplicates the
    nodes of its chain from the head on (the last row inserted first). The
    chains must end, which they do when [fuel] is at least the number of
    nodes of the longest. *)
Theorem iterate_visits_every_entry (fuel : nat) (t : HashTable) (n : nat) :
  chains_end fuel t = true ->
  iterate n t (Begin t) = take n (table_entries fuel t).
Proof.
  intros Hwf. unfold Begin, table_entries.
  rewrite (iterate_from fuel t Hwf (Z.to_nat (num_buckets_ t)) BUCKET_NOT_FOUND);
    [|reflexivity|unfold BUCKET_NOT_FOUND; lia].
  unfold BUCKET_NOT_FOUND. do 2 f_equal. lia.
Qed.

(** ** Matched flags *)

(** X14. [SetMatched] marks the entry the iterator stands on, and no other: the
    entry reads as matched afterwards and [has_matches_] is set; its row,
    and the flag and row of every other entry, are as before. An entry is
    another one when it is in another bucket or, in a chain, another
    node. *)
Theorem SetMatched_IsMatched (t : HashTable) (it : Iterator) :
  0 <= bucket_idx_ it < Z.of_nat (length (buckets_ t)) ->
  (in_chain t it = true -> node_ it <> 0) ->
  let t' := (Iterator_SetMatched t it).1 in
  Iterator_IsMatched t' it = true
  /\ (Iterator_SetMatched t it).2 = true
  /\ Iterator_GetRow t' it = Iterator_GetRow t it
  /\ forall it',
       (if in_chain t it
        then in_chain t it' = false \/ node_ it' <> node_ it
        else bucket_idx_ it' <> bucket_idx_ it) ->
       Iterator_IsMatched t' it' = Iterator_IsMatched t it'
       /\ Iterator_GetRow t' it' = Iterator_GetRow t it'.
Proof.
  intros Hidx _ t'. unfold t', Iterator_SetMatched. cbn [fst snd].
  destruct (in_chain t it) eqn:Hc.
  - (* a node of a chain: the buckets stay *)
    unfold Iterator_IsMatched, Iterator_GetRow, in_chain in *.
    cbn [buckets_ stores_duplicates set_node]. rewrite Hc.
    unfold node_at. cbn [node_memory set_node].
    rewrite lookup_insert_eq. cbn.
    split; [reflexivity|]. split; [reflexivity|]. split; [reflexivity|].
    intros it' [Hc'|Hne].
    + rewrite Hc'. split; reflexivity.
    + rewrite lookup_insert_ne by congruence. split; reflexivity.
  - (* a bucket without duplicates: the nodes stay *)
    pose proof (set_bucket_spec t (bucket_idx_ it)
                  (Bucket_SetMatched (bucket_at (buckets_ t) (bucket_idx_ it))) Hidx) as HS.
    set (t1 := set_bucket t (bucket_idx_ it) _) in *. destruct HS as (S1 & S2 & _).
    assert (Hsd : stores_duplicates t1 = stores_duplicates t) by reflexivity.
    assert (Hnode : forall p, node_at t1 p = node_at t p) by reflexivity.
    unfold Iterator_IsMatched, Iterator_GetRow, in_chain in *.
    rewrite Hsd, S1. cbn [HasDuplicates IsMatched GetBucketData Bucket_SetMatched].
    rewrite Hc.
    split; [reflexivity|]. split; [reflexivity|]. split; [reflexivity|].
    intros it' Hne. rewrite (S2 _ Hne), !Hnode. split; reflexivity.
Qed.

(** ** Unmatched entries *)

Lemma NextUnmatched_buckets_at_end (buckets_left fuel : nat) (t : HashTable)
    (it : Iterator) :
  AtEnd it = true -> NextUnmatched_buckets buckets_left fuel t it = Some it.
Proof. intros H. destruct buckets_left; cbn; rewrite H; reflexivity. Qed.

Lemma NextUnmatched_buckets_sound (fuel : nat) (t : HashTable) (it' : Iterator) :
  forall (buckets_left : nat) (it : Iterator),
    BUCKET_NOT_FOUND <= bucket_idx_ it ->
    (AtEnd it = false ->
     bucket_idx_ it < num_buckets_ t
     /\ IsFilled (bucket_at (buckets_ t) (bucket_idx_ it)) = true) ->
    NextUnmatched_buckets buckets_left fuel t it = Some it' ->
    AtEnd it' = true
    \/ (bucket_idx_ it <= bucket_idx_ it' < num_buckets_ t
        /\ IsFilled (bucket_at (buckets_ t) (bucket_idx_ it')) = true
        /\ Iterator_IsMatched t it' = false).
Proof.
  induction buckets_left as [|bl IH]; intros it Hlo Hin; cbn [NextUnmatched_buckets];
    destruct (AtEnd it) eqn:Hend; try discriminate;
    try (intros [= <-]; left; exact Hend).
  destruct (Hin eq_refl) as [Hhi Hfill].
  assert (Hadv : (let '(bucket_idx, node) := NextFilledBucket t (bucket_idx_ it) in
                  NextUnmatched_buckets bl fuel t
                    {| bucket_idx_ := bucket_idx; node_ := node |}) = Some it' ->
                 AtEnd it' = true
                 \/ (bucket_idx_ it <= bucket_idx_ it' < num_buckets_ t
                     /\ IsFilled (bucket_at (buckets_ t) (bucket_idx_ it')) = true
                     /\ Iterator_IsMatched t it' = false)).
  { destruct (NextFilledBucket_first t (bucket_idx_ it) Hlo)
      as [[-> _]|(H1 & H2 & _)].
    - rewrite NextUnmatched_buckets_at_end by reflexivity.
      intros [= <-]. left. reflexivity.
    - cbn zeta in H1, H2. destruct (NextFilledBucket t (bucket_idx_ it)) as [j node].
      cbn [fst snd] in H1, H2. intros Hr.
      apply IH in Hr;
        [|cbn; unfold BUCKET_NOT_FOUND in *; lia|cbn; intros _; split; [lia|exact H2]].
      destruct Hr as [Hr|(Hr & Hr')]; [left; exact Hr|].
      right. cbn [bucket_idx_] in Hr. split; [lia|exact Hr']. }
  destruct (in_chain t it) eqn:Hc; cbn [negb].
  - destruct (skip_matched fuel t (node_ it)) as [node|]; [|discriminate].
    destruct (node_matched (node_at t node)) eqn:Hm; cbn [negb]; [exact Hadv|].
    intros [= <-]. right. cbn [bucket_idx_]. split; [lia|]. split; [exact Hfill|].
    unfold Iterator_IsMatched, in_chain in *. cbn [bucket_idx_ node_].
    rewrite Hc. exact Hm.
  - destruct (IsMatched (bucket_at (buckets_ t) (bucket_idx_ it))) eqn:Hm;
      cbn [negb]; [exact Hadv|].
    intros [= <-]. right. split; [lia|]. split; [exact Hfill|].
    unfold Iterator_IsMatched. rewrite Hc. exact Hm.
Qed.

Lemma next_unmatched_in_chain_sound (fuel : nat) (t : HashTable) (p node : NodePtr) :
  next_unmatched_in_chain fuel t p = Some (Some node) ->
  node_matched (node_at t node) = false.
Proof.
  revert p. induction fuel as [|fuel IH]; intros p; cbn [next_unmatched_in_chain];
    destruct (p =? 0); try discriminate.
  destruct (node_matched (node_at t p)) eqn:Hm; cbn [negb]; [apply IH|].
  intros [= <-]. exact Hm.
Qed.

Lemma Iterator_NextUnmatched_spec (fuel : nat) (t : HashTable) (it it' : Iterator) :
  0 <= bucket_idx_ it ->
  Iterator_NextUnmatched fuel t it = Some it' ->
  AtEnd it' = true
  \/ (Iterator_IsMatched t it' = false
      /\ ((bucket_idx_ it' = bucket_idx_ it /\ in_chain t it = true)
          \/ (bucket_idx_ it < bucket_idx_ it' < num_buckets_ t
              /\ IsFilled (bucket_at (buckets_ t) (bucket_idx_ it')) = true))).
Proof.
  intros Hidx. unfold Iterator_NextUnmatched.
  assert (Hrest : (let '(bucket_idx, node) := NextFilledBucket t (bucket_idx_ it) in
                   NextUnmatched_buckets (Z.to_nat (num_buckets_ t)) fuel t
                     {| bucket_idx_ := bucket_idx; node_ := node |}) = Some it' ->
                  AtEnd it' = true
                  \/ (Iterator_IsMatched t it' = false
                      /\ ((bucket_idx_ it' = bucket_idx_ it /\ in_chain t it = true)
                          \/ (bucket_idx_ it < bucket_idx_ it' < num_buckets_ t
                              /\ IsFilled (bucket_at (buckets_ t) (bucket_idx_ it'))
                                 = true)))).
  { destruct (NextFilledBucket_first t (bucket_idx_ it))
      as [[-> _]|(H1 & H2 & _)]; [unfold BUCKET_NOT_FOUND; lia| |].
    - rewrite NextUnmatched_buckets_at_end by reflexivity.
      intros [= <-]. left. reflexivity.
    - cbn zeta in H1, H2. destruct (NextFilledBucket t (bucket_idx_ it)) as [j node].
      cbn [fst snd] in H1, H2. intros Hr.
      apply NextUnmatched_buckets_sound in Hr;
        [|cbn; unfold BUCKET_NOT_FOUND; lia|cbn; intros _; split; [lia|exact H2]].
      destruct Hr as [Hr|(Hr & Hf & Hm)]; [left; exact Hr|].
      right. cbn [bucket_idx_] in Hr. split; [exact Hm|]. right.
      split; [lia|exact Hf]. }
  destruct (in_chain t it) eqn:Hc; [|exact Hrest].
  destruct (next_unmatched_in_chain fuel t (Next (node_at t (node_ it))))
    as [[node|]|] eqn:Hn; [|exact Hrest|discriminate].
  intros [= <-]. right. apply next_unmatched_in_chain_sound in Hn.
  split; [|left; split; reflexivity].
  unfold Iterator_IsMatched, in_chain in *. cbn [bucket_idx_ node_].
  rewrite Hc. exact Hn.
Qed.

(** *** The loops come to an end *)

Lemma chain_ends_mono (fuel : nat) (t : HashTable) (p : NodePtr) :
  chain_ends fuel t p = true -> chain_ends (S fuel) t p = true.
Proof.
  revert p. induction fuel as [|fuel IH]; intros p; cbn [chain_ends].
  - destruct (p =? 0); [reflexivity|discriminate].
  - destruct (p =? 0); [reflexivity|]. apply IH.
Qed.

Lemma chain_ends_next (fuel : nat) (t : HashTable) (p : NodePtr) :
  p <> 0 -> chain_ends fuel t p = true ->
  chain_ends fuel t (Next (node_at t p)) = true.
Proof.
  intros Hp. destruct fuel as [|fuel]; cbn [chain_ends];
    destruct (p =? 0) eqn:E; try (apply Z.eqb_eq in E; contradiction);
    [discriminate|].
  apply chain_ends_mono.
Qed.

Lemma next_unmatched_in_chain_returns (fuel : nat) (t : HashTable) (p : NodePtr) :
  chain_ends fuel t p = true ->
  exists o, next_unmatched_in_chain fuel t p = Some o.
Proof.
  revert p. induction fuel as [|fuel IH]; intros p;
    cbn [chain_ends next_unmatched_in_chain];
    destruct (p =? 0); try discriminate; try (intros _; eexists; reflexivity).
  intros H. destruct (negb _); [eexists; reflexivity|apply IH; exact H].
Qed.

Lemma skip_matched_returns (fuel : nat) (t : HashTable) (node : NodePtr) :
  node <> 0 -> chain_ends fuel t node = true ->
  exists n, skip_matched fuel t node = Some n.
Proof.
  revert node. induction fuel as [|fuel IH]; intros node Hn;
    cbn [chain_ends skip_matched];
    destruct (node =? 0) eqn:E; try (apply Z.eqb_eq in E; contradiction);
    [discriminate|].
  intros H. destruct (node_matched (node_at t node)); cbn [andb];
    [|eexists; reflexivity].
  destruct (Next (node_at t node) =? 0) eqn:En; cbn [negb];
    [eexists; reflexivity|].
  apply IH; [apply Z.eqb_neq; exact En|exact H].
Qed.

(** The head of a chain, by [chains_end]. *)
Lemma chains_end_head (fuel : nat) (t : HashTable) (j : Z) :
  chains_end fuel t = true ->
  0 <= j < num_buckets_ t ->
  IsFilled (bucket_at (buckets_ t) j) = true ->
  stores_duplicates t && HasDuplicates (bucket_at (buckets_ t) j) = true ->
  GetDuplicate (bucket_at (buckets_ t) j) <> 0
  /\ chain_ends fuel t (GetDuplicate (bucket_at (buckets_ t) j)) = true.
Proof.
  intros Hwf Hj Hf Hc. unfold chains_end in Hwf. rewrite forallb_forall in Hwf.
  specialize (Hwf j). rewrite Hf in Hwf. cbn [andb] in Hwf. rewrite Hc in Hwf.
  cbn [negb orb] in Hwf.
  assert (Hin : In j (seqZ 0 (num_buckets_ t)))
    by (apply list_elem_of_In, elem_of_seqZ; lia).
  apply Hwf in Hin. apply andb_true_iff in Hin as [Hp Hends].
  apply negb_true_iff, Z.eqb_neq in Hp. split; assumption.
Qed.

Lemma NextUnmatched_buckets_returns (fuel : nat) (t : HashTable) :
  chains_end fuel t = true ->
  forall (buckets_left : nat) (it : Iterator),
    AtEnd it = true
    \/ (0 <= bucket_idx_ it < num_buckets_ t
        /\ IsFilled (bucket_at (buckets_ t) (bucket_idx_ it)) = true
        /\ node_ it = (if stores_duplicates t
                       then GetDuplicate (bucket_at (buckets_ t) (bucket_idx_ it))
                       else 0)) ->
    (Z.to_nat (num_buckets_ t - bucket_idx_ it) <= buckets_left)%nat ->
    exists it', NextUnmatched_buckets buckets_left fuel t it = Some it'.
Proof.
  intros Hwf. induction buckets_left as [|bl IH]; intros it [Hend|(Hidx & Hf & Hnode)] Hbl;
    try (rewrite NextUnmatched_buckets_at_end by exact Hend; eexists; reflexivity);
    [lia|].
  cbn [NextUnmatched_buckets].
  destruct (AtEnd it); [eexists; reflexivity|].
  assert (Hadv : exists it',
            (let '(bucket_idx, node) := NextFilledBucket t (bucket_idx_ it) in
             NextUnmatched_buckets bl fuel t
               {| bucket_idx_ := bucket_idx; node_ := node |}) = Some it').
  { destruct (NextFilledBucket_first t (bucket_idx_ it))
      as [[-> _]|(H1 & H2 & _ & H4)]; [unfold BUCKET_NOT_FOUND; lia| |].
    - rewrite NextUnmatched_buckets_at_end by reflexivity. eexists; reflexivity.
    - cbn zeta in H1, H2, H4. destruct (NextFilledBucket t (bucket_idx_ it)) as [j node].
      cbn [fst snd] in H1, H2, H4. apply IH; cbn [bucket_idx_ node_]; [|lia].
      right. split; [lia|]. split; [exact H2|exact H4]. }
  destruct (in_chain t it) eqn:Hc; cbn [negb].
  - unfold in_chain in Hc.
    destruct (chains_end_head fuel t (bucket_idx_ it) Hwf Hidx Hf Hc) as [Hp Hends].
    assert (Hsd : stores_duplicates t = true)
      by (apply andb_true_iff in Hc as [? _]; assumption).
    rewrite Hsd in Hnode. rewrite <- Hnode in Hp, Hends.
    destruct (skip_matched_returns fuel t (node_ it) Hp Hends) as [n ->].
    destruct (negb _); [eexists; reflexivity|exact Hadv].
  - destruct (negb _); [eexists; reflexivity|exact Hadv].
Qed.

(** *** The entry [NextUnmatched] moves to *)

Lemma find_fmap_position (f : Iterator -> bool) (i : Z) (l : list NodePtr) :
  List.find f (Build_Iterator i <$> l)
  = Build_Iterator i <$> List.find (fun q => f (Build_Iterator i q)) l.
Proof.
  induction l as [|q l IH]; [reflexivity|]. cbn [fmap list_fmap List.find].
  fold (fmap (M := list) (Build_Iterator i) l).
  destruct (f _); [reflexivity|exact IH].
Qed.

Lemma find_ext_node (f g : NodePtr -> bool) (l : list NodePtr) :
  (forall q, f q = g q) -> List.find f l = List.find g l.
Proof.
  intros H. induction l as [|q l IH]; [reflexivity|]. cbn [List.find].
  rewrite H, IH. reflexivity.
Qed.

Lemma find_app_position (f : Iterator -> bool) (l1 l2 : list Iterator) :
  List.find f (l1 ++ l2)
  = match List.find f l1 with Some p => Some p | None => List.find f l2 end.
Proof.
  induction l1 as [|p l1 IH]; [reflexivity|]. cbn [app List.find].
  destruct (f p); [reflexivity|exact IH].
Qed.

Lemma find_split_position (f : Iterator -> bool) (l : list Iterator) :
  match List.find f l with
  | Some p => exists before after,
      l = before ++ p :: after /\ Forall (fun q => f q = false) before /\ f p = true
  | None => Forall (fun q => f q = false) l
  end.
Proof.
  induction l as [|q l IH]; cbn [List.find]; [constructor|].
  destruct (f q) eqn:E.
  - exists [], l. split; [reflexivity|]. split; [constructor|exact E].
  - destruct (List.find f l) as [p|].
    + destruct IH as (before & after & -> & Hb & Hp).
      exists (q :: before), after. split; [reflexivity|].
      split; [constructor; assumption|exact Hp].
    + constructor; assumption.
Qed.

Lemma chain_nodes_null (fuel : nat) (t : HashTable) : chain_nodes fuel t 0 = [].
Proof. destruct fuel; reflexivity. Qed.

(** The first loop finds the first node of the rest of the chain that is
    not matched. *)
Lemma next_unmatched_in_chain_find (fuel : nat) (t : HashTable) (p : NodePtr) :
  chain_ends fuel t p = true ->
  next_unmatched_in_chain fuel t p
  = Some (List.find (fun q => negb (node_matched (node_at t q)))
            (chain_nodes fuel t p)).
Proof.
  revert p. induction fuel as [|fuel IH]; intros p;
    cbn [chain_ends next_unmatched_in_chain chain_nodes];
    destruct (p =? 0); try discriminate; try reflexivity.
  intros H. cbn [List.find].
  destruct (negb (node_matched (node_at t p))); [reflexivity|apply IH; exact H].
Qed.

(** The inner loop stops at the first node of the chain that is not
    matched, or at the last node when all are. *)
Lemma skip_matched_find (fuel : nat) (t : HashTable) (p : NodePtr) :
  p <> 0 -> chain_ends fuel t p = true ->
  exists q,
    skip_matched fuel t p = Some q
    /\ List.find (fun q => negb (node_matched (node_at t q))) (chain_nodes fuel t p)
       = if node_matched (node_at t q) then None else Some q.
Proof.
  revert p. induction fuel as [|fuel IH]; intros p Hp;
    cbn [chain_ends skip_matched chain_nodes];
    destruct (p =? 0) eqn:E; try (apply Z.eqb_eq in E; contradiction);
    [discriminate|].
  intros H. cbn [List.find].
  destruct (node_matched (node_at t p)) eqn:Hm; cbn [andb negb].
  2:{ exists p. rewrite Hm. split; reflexivity. }
  destruct (Next (node_at t p) =? 0) eqn:En; cbn [negb].
  - apply Z.eqb_eq in En. exists p. rewrite Hm, En, chain_nodes_null.
    split; reflexivity.
  - apply IH; [apply Z.eqb_neq; exact En|exact H].
Qed.

Lemma positions_from_unfilled (fuel : nat) (t : HashTable) (k : nat) (i : Z) :
  (forall j, i <= j < i + Z.of_nat k -> IsFilled (bucket_at (buckets_ t) j) = false) ->
  positions_from k fuel t i = [].
Proof.
  revert i. induction k as [|k IH]; intros i H; [reflexivity|].
  cbn [positions_from]. unfold bucket_positions. rewrite (H i) by lia. cbn [negb app].
  apply IH. intros j Hj. apply H. lia.
Qed.

Lemma positions_from_app (fuel : nat) (t : HashTable) (k1 k2 : nat) (i : Z) :
  positions_from (k1 + k2) fuel t i
  = positions_from k1 fuel t i ++ positions_from k2 fuel t (i + Z.of_nat k1).
Proof.
  revert i. induction k1 as [|k1 IH]; intros i.
  - cbn. f_equal. lia.
  - cbn [Nat.add positions_from]. rewrite IH, <- app_assoc. do 3 f_equal. lia.
Qed.

(** The positions after bucket [i] begin with those of the first filled
    bucket after it. *)
Lemma positions_from_first (fuel : nat) (t : HashTable) (i j : Z) :
  BUCKET_NOT_FOUND <= i -> i < j < num_buckets_ t ->
  (forall j', i < j' < j -> IsFilled (bucket_at (buckets_ t) j') = false) ->
  positions_from (Z.to_nat (num_buckets_ t - (i + 1))) fuel t (i + 1)
  = bucket_positions fuel t j
    ++ positions_from (Z.to_nat (num_buckets_ t - (j + 1))) fuel t (j + 1).
Proof.
  unfold BUCKET_NOT_FOUND. intros Hi Hj Hall.
  replace (Z.to_nat (num_buckets_ t - (i + 1)))
    with (Z.to_nat (j - (i + 1)) + S (Z.to_nat (num_buckets_ t - (j + 1))))%nat by lia.
  rewrite positions_from_app.
  rewrite (positions_from_unfilled fuel t (Z.to_nat (j - (i + 1))))
    by (intros j' Hj'; apply Hall; lia).
  cbn [app positions_from].
  replace (i + 1 + Z.of_nat (Z.to_nat (j - (i + 1)))) with j by lia.
  reflexivity.
Qed.

(** The loop over the buckets, entered after [NextFilledBucket] from
    bucket [i], finds the first position after bucket [i] that is not
    matched. *)
Lemma NextUnmatched_buckets_find (fuel : nat) (t : HashTable) :
  chains_end fuel t = true ->
  forall (buckets_left : nat) (i : Z),
    BUCKET_NOT_FOUND <= i ->
    (Z.to_nat (num_buckets_ t - (i + 1)) <= buckets_left)%nat ->
    (let '(bucket_idx, node) := NextFilledBucket t i in
     NextUnmatched_buckets buckets_left fuel t
       {| bucket_idx_ := bucket_idx; node_ := node |})
    = Some (default End_
              (List.find (fun p => negb (Iterator_IsMatched t p))
                 (positions_from (Z.to_nat (num_buckets_ t - (i + 1))) fuel t (i + 1)))).
Proof.
  intros Hwf. induction buckets_left as [|bl IH]; intros i Hi Hbl;
    pose proof Hi as Hi'; unfold BUCKET_NOT_FOUND in Hi';
    destruct (NextFilledBucket_first t i Hi) as [[-> Hall]|(H1 & H2 & H3 & H4)];
    try (rewrite NextUnmatched_buckets_at_end by reflexivity;
         rewrite positions_from_unfilled by (intros j Hj; apply Hall; lia);
         reflexivity);
    cbn zeta in H1, H2, H3, H4; [lia|].
  destruct (NextFilledBucket t i) as [j node]. cbn [fst snd] in H1, H2, H3, H4.
  rewrite (positions_from_first fuel t i j Hi H1 H3), find_app_position.
  cbn [NextUnmatched_buckets]. unfold AtEnd at 1. cbn [bucket_idx_ node_].
  destruct (j =? BUCKET_NOT_FOUND) eqn:Enf;
    [apply Z.eqb_eq in Enf; unfold BUCKET_NOT_FOUND in Enf; lia|].
  rewrite (IH j) by (unfold BUCKET_NOT_FOUND; lia).
  unfold bucket_positions, in_chain. cbn [bucket_idx_ node_]. rewrite H2. cbn [negb].
  destruct (stores_duplicates t && HasDuplicates (bucket_at (buckets_ t) j)) eqn:Hc;
    cbn [negb].
  - destruct (chains_end_head fuel t j Hwf ltac:(lia) H2 Hc) as [Hp Hends].
    assert (Hsd : stores_duplicates t = true)
      by (apply andb_true_iff in Hc as [? _]; assumption).
    rewrite Hsd in H4. subst node.
    destruct (skip_matched_find fuel t _ Hp Hends) as (q & -> & Hfind).
    rewrite find_fmap_position.
    assert (Hsame : forall q', Iterator_IsMatched t (Build_Iterator j q')
                               = node_matched (node_at t q')).
    { intros q'. unfold Iterator_IsMatched, in_chain. cbn [bucket_idx_ node_].
      rewrite Hc. reflexivity. }
    rewrite (find_ext_node
               (fun q' => negb (Iterator_IsMatched t (Build_Iterator j q')))
               (fun q' => negb (node_matched (node_at t q'))))
      by (intros q'; rewrite Hsame; reflexivity).
    rewrite Hfind. destruct (node_matched (node_at t q)); reflexivity.
  - subst node. cbn [List.find].
    assert (Hsame : forall q, Iterator_IsMatched t (Build_Iterator j q)
                              = IsMatched (bucket_at (buckets_ t) j)).
    { intros q. unfold Iterator_IsMatched, in_chain. cbn [bucket_idx_ node_].
      rewrite Hc. reflexivity. }
    rewrite Hsame.
    destruct (IsMatched (bucket_at (buckets_ t) j)); reflexivity.
Qed.

(** [NextUnmatched] moves to the first position after the iterator's that
    is not matched. *)
Lemma Iterator_NextUnmatched_find (fuel : nat) (t : HashTable) (it : Iterator) :
  0 <= bucket_idx_ it ->
  chains_end fuel t = true ->
  (in_chain t it = true -> chain_ends fuel t (Next (node_at t (node_ it))) = true) ->
  Iterator_NextUnmatched fuel t it = Some (next_unmatched_position fuel t it).
Proof.
  intros Hidx Hwf Hrest.
  unfold Iterator_NextUnmatched, next_unmatched_position, positions_after.
  rewrite find_app_position.
  rewrite (NextUnmatched_buckets_find fuel t Hwf (Z.to_nat (num_buckets_ t))
             (bucket_idx_ it)) by (unfold BUCKET_NOT_FOUND; lia).
  destruct (in_chain t it) eqn:Hc; [|reflexivity].
  rewrite (next_unmatched_in_chain_find fuel t _ (Hrest eq_refl)).
  rewrite find_fmap_position.
  assert (Hsame : forall q, Iterator_IsMatched t (Build_Iterator (bucket_idx_ it) q)
                            = node_matched (node_at t q)).
  { intros q. unfold Iterator_IsMatched. unfold in_chain in *.
    cbn [bucket_idx_ node_]. rewrite Hc. reflexivity. }
  rewrite (find_ext_node
             (fun q => negb (Iterator_IsMatched t (Build_Iterator (bucket_idx_ it) q)))
             (fun q => negb (node_matched (node_at t q))))
    by (intros q; rewrite Hsame; reflexivity).
  destruct (List.find _ (chain_nodes _ _ _)); reflexivity.
Qed.

(** Where the positions after an iterator are. *)
Lemma positions_from_in (fuel : nat) (t : HashTable) (p : Iterator) :
  forall (k : nat) (i : Z),
    In p (positions_from k fuel t i) ->
    i <= bucket_idx_ p < i + Z.of_nat k
    /\ IsFilled (bucket_at (buckets_ t) (bucket_idx_ p)) = true.
Proof.
  induction k as [|k IH]; intros i; cbn [positions_from]; [intros []|].
  rewrite in_app_iff. intros [Hin|Hin].
  - unfold bucket_positions in Hin.
    destruct (IsFilled (bucket_at (buckets_ t) i)) eqn:Hf; cbn [negb] in Hin; [|destruct Hin].
    assert (Hb : bucket_idx_ p = i).
    { destruct (stores_duplicates t && HasDuplicates _).
      - apply list_elem_of_In, list_elem_of_fmap in Hin as (q & -> & _). reflexivity.
      - destruct Hin as [<-|[]]. reflexivity. }
    rewrite Hb. split; [lia|exact Hf].
  - apply IH in Hin. split; [lia|apply Hin].
Qed.

Lemma positions_after_in (fuel : nat) (t : HashTable) (it p : Iterator) :
  In p (positions_after fuel t it) ->
  (bucket_idx_ p = bucket_idx_ it /\ in_chain t it = true)
  \/ (bucket_idx_ it < bucket_idx_ p < num_buckets_ t
      /\ IsFilled (bucket_at (buckets_ t) (bucket_idx_ p)) = true).
Proof.
  unfold positions_after. rewrite in_app_iff. intros [Hin|Hin].
  - left. destruct (in_chain t it); [|destruct Hin].
    apply list_elem_of_In, list_elem_of_fmap in Hin as (q & -> & _).
    split; reflexivity.
  - right. apply positions_from_in in Hin. split; [lia|apply Hin].
Qed.

(** X15. [NextUnmatched] comes to an end when the chains do, and it moves
    the iterator to the first entry after its own that is not matched, in
    the order of iteration: the entries after the iterator
    ([positions_after]) are the nodes that follow its node in the chain it
    is in, then the entries of the later buckets; all those before the one
    it moves to are matched, and it moves to the end exactly when all are
    matched. *)
Theorem NextUnmatched_sound (fuel : nat) (t : HashTable) (it : Iterator) :
  0 <= bucket_idx_ it ->
  chains_end fuel t = true ->
  (in_chain t it = true -> chain_ends fuel t (Next (node_at t (node_ it))) = true) ->
  let later := positions_after fuel t it in
  exists it',
    Iterator_NextUnmatched fuel t it = Some it'
    /\ it' = next_unmatched_position fuel t it
    /\ ((AtEnd it' = true
         /\ Forall (fun p => Iterator_IsMatched t p = true) later)
        \/ (AtEnd it' = false
            /\ Iterator_IsMatched t it' = false
            /\ (exists before after,
                  later = before ++ it' :: after
                  /\ Forall (fun p => Iterator_IsMatched t p = true) before)
            /\ ((bucket_idx_ it' = bucket_idx_ it /\ in_chain t it = true)
                \/ (bucket_idx_ it < bucket_idx_ it' < num_buckets_ t
                    /\ IsFilled (bucket_at (buckets_ t) (bucket_idx_ it')) = true)))).
Proof.
  intros Hidx Hwf Hrest later.
  exists (next_unmatched_position fuel t it).
  split; [apply Iterator_NextUnmatched_find; assumption|]. split; [reflexivity|].
  unfold next_unmatched_position. fold later.
  pose proof (find_split_position (fun p => negb (Iterator_IsMatched t p)) later) as Hfind.
  destruct (List.find _ later) as [p|]; cbn [default from_option id].
  - right. destruct Hfind as (before & after & Hl & Hb & Hp).
    apply negb_true_iff in Hp.
    assert (Hin : In p later) by (rewrite Hl; apply in_elt).
    apply positions_after_in in Hin.
    split.
    { unfold AtEnd, BUCKET_NOT_FOUND. apply Z.eqb_neq.
      destruct Hin as [[Hb' _]|[Hb' _]]; lia. }
    split; [exact Hp|]. split; [|exact Hin].
    exists before, after. split; [exact Hl|].
    eapply Forall_impl; [exact Hb|]. intros q Hq. apply negb_false_iff. exact Hq.
  - left. split; [reflexivity|].
    eapply Forall_impl; [exact Hfind|]. intros q Hq. apply negb_false_iff. exact Hq.
Qed.

(** X16. [FirstUnmatched], on a table with a filled bucket and chains that end,
    yields the end or an entry of a filled bucket that is not matched. *)
Theorem FirstUnmatched_sound (fuel : nat) (t : HashTable) (j : Z) :
  chains_end fuel t = true ->
  0 <= j < num_buckets_ t ->
  IsFilled (bucket_at (buckets_ t) j) = true ->
  exists it,
    FirstUnmatched fuel t = Some it
    /\ (AtEnd it = true
        \/ (0 <= bucket_idx_ it < num_buckets_ t
            /\ IsFilled (bucket_at (buckets_ t) (bucket_idx_ it)) = true
            /\ Iterator_IsMatched t it = false)).
Proof.
  intros Hwf Hj Hfj. unfold FirstUnmatched, Begin.
  destruct (NextFilledBucket_first t BUCKET_NOT_FOUND) as [[_ Hall]|(H1 & H2 & _ & H4)];
    [reflexivity| |].
  { rewrite Hall in Hfj by (unfold BUCKET_NOT_FOUND; lia). discriminate. }
  cbn zeta in H1, H2, H4. destruct (NextFilledBucket t BUCKET_NOT_FOUND) as [i node].
  cbn [fst snd] in H1, H2, H4. unfold BUCKET_NOT_FOUND in H1.
  unfold AtEnd at 1. cbn [bucket_idx_ node_].
  destruct (i =? BUCKET_NOT_FOUND) eqn:Enf;
    [apply Z.eqb_eq in Enf; unfold BUCKET_NOT_FOUND in Enf; lia|].
  destruct (_ || _) eqn:Hm.
  - set (it := {| bucket_idx_ := i; node_ := node |}).
    assert (Hrest : in_chain t it = true ->
                    chain_ends fuel t (Next (node_at t (node_ it))) = true).
    { unfold in_chain. cbn [bucket_idx_ node_ it]. intros Hc.
      destruct (chains_end_head fuel t i Hwf ltac:(lia) H2 Hc) as [Hp Hends].
      assert (Hsd : stores_duplicates t = true)
        by (apply andb_true_iff in Hc as [? _]; assumption).
      rewrite Hsd in H4. subst node. apply chain_ends_next; assumption. }
    assert (Hret : exists it', Iterator_NextUnmatched fuel t it = Some it').
    { unfold Iterator_NextUnmatched.
      assert (Hadv : exists it',
                (let '(bucket_idx, node) := NextFilledBucket t (bucket_idx_ it) in
                 NextUnmatched_buckets (Z.to_nat (num_buckets_ t)) fuel t
                   {| bucket_idx_ := bucket_idx; node_ := node |}) = Some it').
      { destruct (NextFilledBucket_first t (bucket_idx_ it))
          as [[-> _]|(G1 & G2 & _ & G4)]; [cbn; unfold BUCKET_NOT_FOUND; lia| |].
        - rewrite NextUnmatched_buckets_at_end by reflexivity. eexists; reflexivity.
        - cbn zeta in G1, G2, G4.
          destruct (NextFilledBucket t (bucket_idx_ it)) as [j' node'].
          cbn [fst snd bucket_idx_ it] in G1, G2, G4.
          apply (NextUnmatched_buckets_returns fuel t Hwf); cbn [bucket_idx_ node_]; [|lia].
          right. split; [lia|]. split; [exact G2|exact G4]. }
      destruct (in_chain t it); [|exact Hadv].
      destruct (next_unmatched_in_chain_returns fuel t _ (Hrest eq_refl)) as [[n|] ->];
        [eexists; reflexivity|exact Hadv]. }
    destruct Hret as [it' Hret]. exists it'. split; [exact Hret|].
    apply Iterator_NextUnmatched_spec in Hret; [|cbn; lia].
    cbn [bucket_idx_ it] in Hret.
    destruct Hret as [Hr|(Hr & [[Hi _]|[Hi Hf]])]; [left; exact Hr| |].
    + right. rewrite Hi. split; [lia|]. split; [exact H2|exact Hr].
    + right. split; [lia|]. split; [exact Hf|exact Hr].
  - eexists. split; [reflexivity|]. right. cbn [bucket_idx_]. split; [lia|].
    split; [exact H2|].
    unfold Iterator_IsMatched, in_chain. cbn [bucket_idx_ node_].
    destruct (stores_duplicates t && HasDuplicates (bucket_at (buckets_ t) i));
      cbn in Hm.
    + exact Hm.
    + rewrite orb_false_r in Hm. exact Hm.
Qed.

(** ** The further properties at work *)

Lemma counters_agree_table4 : counters_agree table4.
Proof.
  unfold counters_agree. cbn.
  split; [lia|]. split; [reflexivity|]. split; [reflexivity|].
  split; [reflexivity|]. split; [reflexivity|].
  intros i. unfold bucket_at. destruct (i <? 0); [discriminate|].
  destruct (Z.to_nat i) as [|[|[|[|n]]]]; cbn; first [discriminate|reflexivity].
Qed.

Lemma counters_agree_table2_full : counters_agree table2_full.
Proof.
  unfold counters_agree. cbn.
  split; [lia|]. split; [reflexivity|]. split; [reflexivity|].
  split; [reflexivity|]. split; [reflexivity|].
  intros i. unfold bucket_at. destruct (i <? 0); [discriminate|].
  destruct (Z.to_nat i) as [|[|n]]; cbn; first [discriminate|reflexivity].
Qed.

Lemma Probe_counters_witness :
  let r := Probe table4 true true (buckets_ table4) (hash_array_ table4) 4 ctx9 9 0 in
  num_probes_ (pr_ctx r) = num_probes_ ctx9 + 1
  /\ CurExprValuesHash (pr_ctx r) = CurExprValuesHash ctx9
  /\ Equals (pr_ctx r) = Equals ctx9
  /\ num_hash_collisions_ ctx9 <= num_hash_collisions_ (pr_ctx r)
     <= num_hash_collisions_ ctx9 + Z.of_nat (length (pr_examined r))
  /\ travel_length_ (pr_ctx r)
     = travel_length_ ctx9 + (if pr_bucket_idx r =? BUCKET_NOT_FOUND then 4 else 0).
Proof.
  apply (Probe_counters table4 true true (buckets_ table4) (hash_array_ table4) 4
           ctx9 9 0).
  lia.
Defined.

Lemma Probe_gives_up_only_when_full_witness :
  num_filled_buckets_ table2_full = num_buckets_ table2_full.
Proof.
  apply (Probe_gives_up_only_when_full 1 table2_full true true ctx7 7 0).
  - exact counters_agree_table2_full.
  - reflexivity.
  - vm_compute. reflexivity.
Defined.

Lemma Insert_then_find_witness :
  let pr := Probe table4 true true (buckets_ table4) (hash_array_ table4)
              (num_buckets_ table4) ctx9 (CurExprValuesHash ctx9) 0 in
  let idx := pr_bucket_idx pr in
  let h := if stores_tuples table4 then 7 else 70 in
  exists r,
    Insert 8 1%nat table4 ctx9 70 7 OK 0 = Some r
    /\ ir_ok r = true /\ ir_status r = OK
    /\ (forall bd1,
          let '(it, found, _) := FindBuildRowBucket (ir_table r) (ir_ctx r) bd1 in
          found = true /\ bucket_idx_ it = idx
          /\ Iterator_GetRow (ir_table r) it = h)
    /\ ((forall h', Equals ctx9 false h' = Equals ctx9 true h') ->
        forall bd1,
          let it := (FindProbeRow (ir_table r) (ir_ctx r) bd1).1 in
          AtEnd it = false /\ bucket_idx_ it = idx
          /\ Iterator_GetRow (ir_table r) it = h).
Proof.
  apply (Insert_then_find 8 1%nat table4 ctx9 70 7 OK 0).
  - cbn. lia.
  - reflexivity.
  - reflexivity.
  - vm_compute. reflexivity.
  - vm_compute. discriminate.
  - reflexivity.
Defined.

Lemma SetTuple_then_find_witness :
  let r := FindBuildRowBucket table4 ctx9 0 in
  let it := r.1.1 in
  let t' := Iterator_SetTuple table4 it 7 (CurExprValuesHash ctx9) in
  let r' := FindBuildRowBucket t' r.2 0 in
  r'.1.2 = true /\ bucket_idx_ r'.1.1 = bucket_idx_ it
  /\ Iterator_GetRow t' r'.1.1 = 7
  /\ num_filled_buckets_ t' = num_filled_buckets_ table4 + 1.
Proof.
  apply (SetTuple_then_find table4 ctx9 7 0 0).
  - cbn. lia.
  - reflexivity.
  - reflexivity.
  - vm_compute. reflexivity.
  - vm_compute. reflexivity.
  - reflexivity.
Defined.

Lemma FindProbeRow_result_witness :
  let it := (FindProbeRow table4 ctx5 0).1 in
  it = End_
  \/ (0 <= bucket_idx_ it < num_buckets_ table4
      /\ IsFilled (bucket_at (buckets_ table4) (bucket_idx_ it)) = true
      /\ hash_at (hash_array_ table4) (bucket_idx_ it) = CurExprValuesHash ctx5
      /\ node_ it = (if stores_duplicates table4
                     then GetDuplicate (bucket_at (buckets_ table4) (bucket_idx_ it))
                     else 0)
      /\ Equals ctx5 false (Iterator_GetRow table4 it) = true).
Proof.
  apply (FindProbeRow_result table4 ctx5 0). cbn. lia.
Defined.

Lemma FindBuildRowBucket_result_witness :
  let '(it, found, _) := FindBuildRowBucket table4 ctx9 0 in
  if found then
    0 <= bucket_idx_ it < num_buckets_ table4
    /\ IsFilled (bucket_at (buckets_ table4) (bucket_idx_ it)) = true
    /\ hash_at (hash_array_ table4) (bucket_idx_ it) = CurExprValuesHash ctx9
    /\ node_ it = (if stores_duplicates table4
                   then GetDuplicate (bucket_at (buckets_ table4) (bucket_idx_ it))
                   else 0)
    /\ Equals ctx9 true (Iterator_GetRow table4 it) = true
  else
    it = End_
    \/ (0 <= bucket_idx_ it < num_buckets_ table4
        /\ IsFilled (bucket_at (buckets_ table4) (bucket_idx_ it)) = false).
Proof.
  apply (FindBuildRowBucket_result table4 ctx9 0). cbn. lia.
Defined.

Lemma Insert_keeps_counters_witness : counters_agree table4_chain.
Proof.
  unfold table4_chain.
  destruct (Insert 8 1%nat table4 ctx5 101 101 OK 0) as [r|] eqn:E.
  - exact (Insert_keeps_counters 8 1%nat table4 ctx5 101 101 OK 0 r
             counters_agree_table4 E).
  - vm_compute in E. discriminate E.
Defined.

Lemma Insert_defined_witness :
  exists r, Insert 8 0%nat table4 ctx5 101 101 OK 0 = Some r.
Proof.
  apply (Insert_defined 8 2 0%nat table4 ctx5 101 101 OK 0).
  - exact counters_agree_table4.
  - reflexivity.
  - cbn. lia.
Defined.

Lemma iterate_visits_every_entry_witness :
  iterate 10 table4_chain (Begin table4_chain) = take 10 (table_entries 2 table4_chain).
Proof.
  apply (iterate_visits_every_entry 2 table4_chain 10). vm_compute. reflexivity.
Defined.

(** The walk yields the newer row, then the older. *)
Example iterate_table4_chain :
  iterate 10 table4_chain (Begin table4_chain) = [(1, 101); (1, 100)].
Proof. vm_compute. reflexivity. Qed.

Lemma SetMatched_IsMatched_witness :
  let it := Begin table4_chain in
  let t' := (Iterator_SetMatched table4_chain it).1 in
  Iterator_IsMatched t' it = true
  /\ (Iterator_SetMatched table4_chain it).2 = true
  /\ Iterator_GetRow t' it = Iterator_GetRow table4_chain it
  /\ forall it',
       (if in_chain table4_chain it
        then in_chain table4_chain it' = false \/ node_ it' <> node_ it
        else bucket_idx_ it' <> bucket_idx_ it) ->
       Iterator_IsMatched t' it' = Iterator_IsMatched table4_chain it'
       /\ Iterator_GetRow t' it' = Iterator_GetRow table4_chain it'.
Proof.
  apply (SetMatched_IsMatched table4_chain (Begin table4_chain)).
  - vm_compute. split; [discriminate|reflexivity].
  - intros _. vm_compute. discriminate.
Defined.

(** From the head of the chain of [table4_chain] the only later entry is
    node 1 of the same chain, which is not matched. *)
Example positions_after_head :
  positions_after 2 table4_chain (Begin table4_chain)
  = [{| bucket_idx_ := 1; node_ := 1 |}].
Proof. vm_compute. reflexivity. Qed.

Lemma NextUnmatched_sound_witness :
  let it := Begin table4_chain in
  let later := positions_after 2 table4_chain it in
  exists it',
    Iterator_NextUnmatched 2 table4_chain it = Some it'
    /\ it' = next_unmatched_position 2 table4_chain it
    /\ ((AtEnd it' = true
         /\ Forall (fun p => Iterator_IsMatched table4_chain p = true) later)
        \/ (AtEnd it' = false
            /\ Iterator_IsMatched table4_chain it' = false
            /\ (exists before after,
                  later = before ++ it' :: after
                  /\ Forall (fun p => Iterator_IsMatched table4_chain p = true) before)
            /\ ((bucket_idx_ it' = bucket_idx_ it /\ in_chain table4_chain it = true)
                \/ (bucket_idx_ it < bucket_idx_ it' < num_buckets_ table4_chain
                    /\ IsFilled (bucket_at (buckets_ table4_chain) (bucket_idx_ it'))
                       = true)))).
Proof.
  apply (NextUnmatched_sound 2 table4_chain (Begin table4_chain)).
  - vm_compute. discriminate.
  - vm_compute. reflexivity.
  - intros _. vm_compute. reflexivity.
Defined.

Lemma FirstUnmatched_sound_witness :
  exists it,
    FirstUnmatched 2 table4_chain = Some it
    /\ (AtEnd it = true
        \/ (0 <= bucket_idx_ it < num_buckets_ table4_chain
            /\ IsFilled (bucket_at (buckets_ table4_chain) (bucket_idx_ it)) = true
            /\ Iterator_IsMatched table4_chain it = false)).
Proof.
  apply (FirstUnmatched_sound 2 table4_chain 1).
  - vm_compute. reflexivity.
  - vm_compute. split; [discriminate|reflexivity].
  - vm_compute. reflexivity.
Defined.

(** The unmatched entries of the chain, with the head matched. *)
Example unmatched_after_match :
  let t := (Iterator_SetMatched table4_chain (Begin table4_chain)).1 in
  FirstUnmatched 2 t = Some {| bucket_idx_ := 1; node_ := 1 |}
  /\ Iterator_NextUnmatched 2 t {| bucket_idx_ := 1; node_ := 1 |} = Some End_.
Proof. vm_compute. split; reflexivity. Qed.

End HTProofs.

(* ===================================================================== *)
(** * Properties of the cluster membership manager *)
(* ===================================================================== *)

Module CMMProofs.
Import CMM.

Section WithTimeouts.

Variable blacklist_timeout probation_timeout : Z.

Local Abbreviation UpdateMembership := (CMM.UpdateMembership probation_timeout).
Local Abbreviation BlacklistExecutor := (CMM.BlacklistExecutor blacklist_timeout).
Local Abbreviation call := (CMM.call blacklist_timeout probation_timeout).
Local Abbreviation run := (CMM.run blacklist_timeout probation_timeout).

(** What [UpdateMembership] leaves in [current_membership_]: the old
    pointer, or the snapshot it has just published. *)
Lemma UpdateMembership_current (env : UpdateEnv) (deltas : gmap string TTopicDelta)
    (updates : list TTopicDelta) (m : ClusterMembershipMgr) (r : UpdateResult) :
  UpdateMembership env deltas updates m = Some r ->
  (current_membership_ (ur_mgr r) = current_membership_ m
   /\ published (ur_mgr r) = published m)
  \/ exists new_state,
       current_membership_ (ur_mgr r) = Some new_state
       /\ published (ur_mgr r) = published m ++ [new_state]
       /\ recovering_membership_ (ur_mgr r) = None.
Proof.
  unfold UpdateMembership. intros H.
  destruct (deltas !! IMPALA_MEMBERSHIP_TOPIC) as [update|];
    [|injection H as <-; left; split; reflexivity].
  destruct (base_snapshot m) as [base|]; [|discriminate].
  destruct (_ && _ && _ && _); [injection H as <-; left; split; reflexivity|].
  cbv zeta in H.
  destruct (match env_local_be_desc env with Some _ => _ | None => _ end) as [w3 ups].
  destruct (env_ss_is_recovering env); injection H as <-.
  - left. split; reflexivity.
  - right. eexists. cbn. split; [reflexivity|]. split; reflexivity.
Qed.

Lemma BlacklistExecutor_current (enabled : bool) (now : Z) (be_desc : TBackendDescriptor)
    (m m' : ClusterMembershipMgr) :
  BlacklistExecutor enabled now be_desc m = Some m' ->
  (current_membership_ m' = current_membership_ m /\ published m' = published m)
  \/ exists new_state,
       current_membership_ m' = Some new_state
       /\ published m' = published m ++ [new_state]
       /\ recovering_membership_ m = None
       /\ exists current, current_membership_ m = Some current
                          /\ version new_state = version current.
Proof.
  unfold BlacklistExecutor. intros H.
  destruct (negb enabled); [injection H as <-; left; split; reflexivity|].
  destruct (current_membership_ m) as [current|] eqn:Hc; [|discriminate].
  destruct (local_be_desc current) as [l|]; [|discriminate].
  destruct (_ && _); [injection H as <-; left; split; [first [exact Hc|reflexivity]|reflexivity]|].
  destruct (negb (exists_in_groups be_desc _));
    [injection H as <-; left; split; [first [exact Hc|reflexivity]|reflexivity]|].
  destruct (recovering_membership_ m) as [rec|] eqn:Hrec; injection H as <-.
  - left. cbn. split; [first [exact Hc|reflexivity]|reflexivity].
  - right. eexists. cbn. split; [reflexivity|]. split; [reflexivity|].
    split; [reflexivity|]. exists current. split; [reflexivity|]. reflexivity.
Qed.

Lemma call_keeps_snapshot (c : Call) (m m' : ClusterMembershipMgr) :
  call c m = Some m' ->
  is_Some (current_membership_ m) -> is_Some (current_membership_ m').
Proof.
  destruct c as [env deltas|enabled now be_desc]; cbn; intros H Hm.
  - destruct (UpdateMembership env deltas [] m) as [r|] eqn:Hr; [|discriminate].
    injection H as <-.
    destruct (UpdateMembership_current _ _ _ _ _ Hr) as [[-> _]|(s & -> & _)];
      [exact Hm|eexists; reflexivity].
  - destruct (BlacklistExecutor_current _ _ _ _ _ H) as [[-> _]|(s & -> & _)];
      [exact Hm|eexists; reflexivity].
Qed.

Lemma run_keeps_snapshot (calls : list Call) (m m' : ClusterMembershipMgr) :
  run calls m = Some m' ->
  is_Some (current_membership_ m) -> is_Some (current_membership_ m').
Proof.
  revert m. induction calls as [|c calls IH]; intros m; cbn.
  - intros [= <-] Hm. exact Hm.
  - destruct (call c m) as [m1|] eqn:Hc; [|discriminate].
    intros Hr Hm. apply (IH m1 Hr). eapply call_keeps_snapshot; eassumption.
Qed.

(** C9. [GetSnapshot] never returns a null pointer: it returns the empty
    snapshot right after construction, and a snapshot after every run of
    [UpdateMembership] and [BlacklistExecutor] calls. *)
Theorem GetSnapshot_never_null (local_backend_id : string) (calls : list Call)
    (m : ClusterMembershipMgr) :
  run calls (new_ClusterMembershipMgr local_backend_id) = Some m ->
  GetSnapshot (new_ClusterMembershipMgr local_backend_id) = Some empty_Snapshot
  /\ is_Some (GetSnapshot m).
Proof.
  intros Hrun. split; [reflexivity|].
  eapply run_keeps_snapshot; [exact Hrun|]. eexists. reflexivity.
Qed.

(** C8. [UpdateMembership] returns at once, leaving the manager (both
    snapshots and what was published) and the subscriber's updates as they
    were, when the membership topic is not among the incoming deltas, and
    when its update is an empty delta while the local backend needs no
    update, no recovering snapshot waits for a statestore that is out of
    recovery, and the blacklist needs no maintenance. *)
Theorem UpdateMembership_skips (env : UpdateEnv) (deltas : gmap string TTopicDelta)
    (updates : list TTopicDelta) (m : ClusterMembershipMgr) :
  (deltas !! IMPALA_MEMBERSHIP_TOPIC = None ->
   UpdateMembership env deltas updates m = Some (unchanged m updates))
  /\ (forall update base,
        deltas !! IMPALA_MEMBERSHIP_TOPIC = Some update ->
        is_delta update = true -> topic_entries update = [] ->
        base_snapshot m = Some base ->
        NeedsLocalBackendUpdate (local_backend_id_ m) base (env_local_be_desc env)
          = false ->
        (recovering_membership_ m = None \/ env_ss_is_recovering env = true) ->
        NeedsMaintenance (env_now env) (executor_blacklist base) = false ->
        UpdateMembership env deltas updates m = Some (unchanged m updates)).
Proof.
  split.
  - intros H. unfold UpdateMembership. rewrite H. reflexivity.
  - intros update base H Hd He Hb Hl Hr Hm. unfold UpdateMembership.
    rewrite H, Hb, Hd, He, Hl, Hm. cbn [andb negb].
    rewrite bool_decide_eq_true_2 by reflexivity.
    destruct Hr as [-> | ->].
    + rewrite bool_decide_eq_false_2 by (intros Hn; apply Hn; reflexivity).
      reflexivity.
    + rewrite andb_false_r. reflexivity.
Qed.

(** Versions. A publishing [UpdateMembership] numbers its snapshot one
    above the state it started from, which for a full update is the fresh
    [Snapshot()]. *)
Lemma UpdateMembership_version (env : UpdateEnv) (deltas : gmap string TTopicDelta)
    (updates : list TTopicDelta) (m : ClusterMembershipMgr) (r : UpdateResult)
    (update : TTopicDelta) (base new_state : Snapshot) :
  deltas !! IMPALA_MEMBERSHIP_TOPIC = Some update ->
  base_snapshot m = Some base ->
  UpdateMembership env deltas updates m = Some r ->
  published (ur_mgr r) = published m ++ [new_state] ->
  version new_state
  = (if is_delta update then version base else version empty_Snapshot) + 1.
Proof.
  unfold UpdateMembership. intros Hu Hb H Hp. rewrite Hu, Hb in H.
  destruct (_ && _ && _ && _).
  { injection H as <-. cbn in Hp.
    apply (f_equal length) in Hp. rewrite length_app in Hp. cbn in Hp. lia. }
  cbv zeta in H.
  destruct (match env_local_be_desc env with Some _ => _ | None => _ end) as [w3 ups].
  destruct (env_ss_is_recovering env); injection H as <-; cbn in Hp.
  - apply (f_equal length) in Hp. rewrite length_app in Hp. cbn in Hp. lia.
  - apply app_inv_head in Hp. injection Hp as <-. cbn.
    destruct (is_delta update); reflexivity.
Qed.

(** A publishing [BlacklistExecutor] repeats the version of the snapshot
    it replaces. *)
Lemma BlacklistExecutor_version (enabled : bool) (now : Z) (be_desc : TBackendDescriptor)
    (m m' : ClusterMembershipMgr) (new_state : Snapshot) :
  BlacklistExecutor enabled now be_desc m = Some m' ->
  published m' = published m ++ [new_state] ->
  exists current, current_membership_ m = Some current
                  /\ version new_state = version current.
Proof.
  intros H Hp.
  destruct (BlacklistExecutor_current _ _ _ _ _ H)
    as [[_ Hq]|(s' & _ & Hq & _ & current & Hc & Hv)].
  - rewrite Hq in Hp. apply (f_equal length) in Hp.
    rewrite length_app in Hp. cbn in Hp. lia.
  - rewrite Hq in Hp. apply app_inv_head in Hp. injection Hp as <-.
    exists current. split; assumption.
Qed.


(** ** What an update builds *)

(** The state a call of [UpdateMembership] builds for the membership topic,
    and where it puts it: nowhere when the call is skipped, into
    [recovering_membership_] during the grace period of the statestore,
    into [current_membership_] otherwise. *)
Lemma UpdateMembership_cases (env : UpdateEnv) (deltas : gmap string TTopicDelta)
    (updates : list TTopicDelta) (m : ClusterMembershipMgr) (r : UpdateResult)
    (update : TTopicDelta) (base : Snapshot) :
  deltas !! IMPALA_MEMBERSHIP_TOPIC = Some update ->
  base_snapshot m = Some base ->
  UpdateMembership env deltas updates m = Some r ->
  let id := local_backend_id_ m in
  let local := env_local_be_desc env in
  let start := if is_delta update then base else empty_Snapshot in
  let w0 := {| w_backends := current_backends start;
               w_groups := executor_groups_ start;
               w_blacklist := executor_blacklist start;
               w_update_local_server :=
                 if is_delta update
                 then bool_decide (recovering_membership_ m <> None)
                      && negb (env_ss_is_recovering env)
                 else true |} in
  let w1 := foldl (process_topic_item id) w0 (topic_entries update) in
  let w2 := if NeedsMaintenance (env_now env) (executor_blacklist base)
            then blacklist_maintenance probation_timeout (env_now env) w1 else w1 in
  let new_local := match local with Some l => Some l | None => local_be_desc start end in
  let state2 := {| local_be_desc := new_local;
                   current_backends := w_backends w2;
                   executor_groups_ := w_groups w2;
                   executor_blacklist := w_blacklist w2;
                   version := version start + 1 |} in
  let applies :=
    match local with
    | Some l => NeedsLocalBackendUpdate id state2 local
    | None => false
    end in
  let w3 := match local with
            | Some l => if applies then apply_local_backend id l w2 else w2
            | None => w2
            end in
  let new_state := {| local_be_desc := new_local;
                      current_backends := w_backends w3;
                      executor_groups_ := w_groups w3;
                      executor_blacklist := w_blacklist w3;
                      version := version start + 1 |} in
  (r = unchanged m updates
   /\ is_delta update = true /\ topic_entries update = []
   /\ NeedsLocalBackendUpdate id base local = false
   /\ NeedsMaintenance (env_now env) (executor_blacklist base) = false)
  \/ (env_ss_is_recovering env = true
      /\ current_membership_ (ur_mgr r) = current_membership_ m
      /\ recovering_membership_ (ur_mgr r) = Some new_state
      /\ published (ur_mgr r) = published m
      /\ ur_notified_local_server r = false /\ ur_updated_frontend r = false)
  \/ (env_ss_is_recovering env = false
      /\ current_membership_ (ur_mgr r) = Some new_state
      /\ recovering_membership_ (ur_mgr r) = None
      /\ published (ur_mgr r) = published m ++ [new_state]
      /\ ur_updated_frontend r = true).
Proof.
  intros Hu Hb H. unfold CMM.UpdateMembership in H. rewrite Hu, Hb in H.
  cbv zeta.
  destruct (_ && _ && _ && _) eqn:Hskip.
  { injection H as <-. left.
    apply andb_true_iff in Hskip as [Hskip H4].
    apply andb_true_iff in Hskip as [Hskip H3].
    apply andb_true_iff in Hskip as [H1 H2].
    apply andb_true_iff in H1 as [H1 H1'].
    apply bool_decide_eq_true in H1'.
    apply negb_true_iff in H2, H4. auto 10. }
  right. cbv zeta in H.
  destruct (env_local_be_desc env) as [l|].
  - cbv beta iota zeta in H |- *.
    match type of H with
    | (let (_, _) := (if ?c then _ else _) in _) = _ =>
        match goal with
        | |- context [if ?c' then apply_local_backend _ _ _ else _] =>
            change c' with c
        end;
        remember c as applies eqn:E in *
    end.
    clear E. destruct applies; cbv beta iota zeta in H;
      destruct (env_ss_is_recovering env); injection H as <-;
      [left|right|left|right]; cbn; auto 10.
  - cbv beta iota zeta in H.
    destruct (env_ss_is_recovering env); injection H as <-;
      [left|right]; cbn; auto 10.
Qed.

(** ** The loop over the topic entries *)

Lemma FindAndRemove_nil (be_desc : TBackendDescriptor) :
  FindAndRemove be_desc [] = (NOT_BLACKLISTED, []).
Proof. reflexivity. Qed.

(** One entry: the backends it leaves. *)
Lemma process_topic_item_backends (id : string) (w : Working) (item : TTopicItem)
    (k : string) :
  w_backends (process_topic_item id w item) !! k
  = if bool_decide (key item = k) then
      if deleted item then None
      else match value item with
           | Some be_desc =>
               if bool_decide (ip_address be_desc = "") || bool_decide (key item = id)
               then w_backends w !! k
               else Some be_desc
           | None => w_backends w !! k
           end
    else w_backends w !! k.
Proof.
  unfold process_topic_item.
  destruct (deleted item).
  - destruct (w_backends w !! key item) as [be|] eqn:Hk.
    + destruct (FindAndRemove be (w_blacklist w)) as [prior bl]. cbn [w_backends].
      case_bool_decide as Hkey.
      * subst k. apply lookup_delete_eq.
      * apply lookup_delete_ne. exact Hkey.
    + case_bool_decide as Hkey; [subst k; exact Hk|reflexivity].
  - destruct (value item) as [be_desc|]; [|case_bool_decide; reflexivity].
    destruct (bool_decide (ip_address be_desc = "")); cbn [orb];
      [case_bool_decide; reflexivity|].
    destruct (bool_decide (key item = id)); [case_bool_decide; reflexivity|].
    destruct (w_backends w !! key item) as [existing|].
    + destruct (FindAndRemove be_desc (w_blacklist w)) as [prior bl]. cbn [w_backends].
      case_bool_decide as Hkey.
      * subst k. apply lookup_insert_eq.
      * apply lookup_insert_ne. exact Hkey.
    + cbn [w_backends]. case_bool_decide as Hkey.
      * subst k. apply lookup_insert_eq.
      * apply lookup_insert_ne. exact Hkey.
Qed.

(** Keys that no entry names keep their backend. *)
Lemma process_topic_items_frame (id : string) (items : list TTopicItem) (w : Working)
    (k : string) :
  Forall (fun item => key item <> k) items ->
  w_backends (foldl (process_topic_item id) w items) !! k = w_backends w !! k.
Proof.
  revert w. induction items as [|item items IH]; intros w H; [reflexivity|].
  apply Forall_cons in H as [Hk H]. cbn [foldl]. rewrite (IH _ H).
  rewrite process_topic_item_backends.
  rewrite bool_decide_eq_false_2 by exact Hk. reflexivity.
Qed.

(** A backend of the result was there before or comes from an entry. *)
Lemma process_topic_items_source (id : string) (items : list TTopicItem) (w : Working)
    (k : string) (be : TBackendDescriptor) :
  w_backends (foldl (process_topic_item id) w items) !! k = Some be ->
  w_backends w !! k = Some be
  \/ exists item, item ∈ items /\ key item = k /\ deleted item = false
                  /\ value item = Some be /\ k <> id /\ ip_address be <> "".
Proof.
  revert w. induction items as [|item items IH]; intros w H; [left; exact H|].
  cbn [foldl] in H. apply IH in H as [H|(it & Hin & H)].
  2:{ right. exists it. split; [apply list_elem_of_further; exact Hin|exact H]. }
  rewrite process_topic_item_backends in H.
  case_bool_decide as Hkey; [|left; exact H].
  destruct (deleted item) eqn:Hd; [discriminate|].
  destruct (value item) as [be_desc|] eqn:Hv; [|left; exact H].
  case_bool_decide as Hip; cbn [orb] in H; [left; exact H|].
  case_bool_decide as Hid; [left; exact H|].
  injection H as <-. right. exists item.
  split; [apply list_elem_of_here|]. subst k. auto 10.
Qed.

Lemma process_topic_items_blacklist_nil (id : string) (items : list TTopicItem)
    (w : Working) :
  w_blacklist w = [] -> w_blacklist (foldl (process_topic_item id) w items) = [].
Proof.
  revert w. induction items as [|item items IH]; intros w H; [exact H|].
  cbn [foldl]. apply IH. unfold process_topic_item.
  destruct (deleted item).
  - destruct (w_backends w !! key item) as [be|]; [|exact H].
    rewrite H, FindAndRemove_nil. reflexivity.
  - destruct (value item) as [be_desc|]; [|exact H].
    destruct (bool_decide _); [exact H|]. destruct (bool_decide _); [exact H|].
    destruct (w_backends w !! key item) as [existing|]; [|exact H].
    rewrite H, FindAndRemove_nil. reflexivity.
Qed.

(** The flag [update_local_server], once set, stays set. *)
Lemma process_topic_items_flag (id : string) (items : list TTopicItem) (w : Working) :
  w_update_local_server w = true ->
  w_update_local_server (foldl (process_topic_item id) w items) = true.
Proof.
  revert w. induction items as [|item items IH]; intros w H; [exact H|].
  cbn [foldl]. apply IH. unfold process_topic_item.
  destruct (deleted item).
  - destruct (w_backends w !! key item) as [be|]; [|exact H].
    destruct (FindAndRemove _ _). reflexivity.
  - destruct (value item) as [be_desc|]; [|exact H].
    destruct (bool_decide _); [exact H|]. destruct (bool_decide _); [exact H|].
    destruct (w_backends w !! key item) as [existing|]; [|exact H].
    destruct (FindAndRemove _ _). exact H.
Qed.

Lemma blacklist_maintenance_frame (now : Z) (w : Working) :
  w_backends (blacklist_maintenance probation_timeout now w) = w_backends w
  /\ w_update_local_server (blacklist_maintenance probation_timeout now w)
     = w_update_local_server w
  /\ (w_blacklist w = [] ->
      w_blacklist (blacklist_maintenance probation_timeout now w) = []).
Proof.
  unfold blacklist_maintenance.
  destruct (Maintenance probation_timeout now (w_blacklist w)) as [bl pl] eqn:E.
  cbn. split; [reflexivity|]. split; [reflexivity|].
  intros H. rewrite H in E. cbn in E. congruence.
Qed.

(** ** The grace period of the statestore *)

(** The flag [update_local_server] has no part in the state a call
    builds: the loop over the topic entries, the maintenance of the
    blacklist and the registration of the local backend read and write the
    backends, the groups and the blacklist only. *)
Lemma process_topic_item_members (id : string) (w w' : Working) (item : TTopicItem) :
  w_backends w = w_backends w' -> w_groups w = w_groups w' ->
  w_blacklist w = w_blacklist w' ->
  w_backends (process_topic_item id w item) = w_backends (process_topic_item id w' item)
  /\ w_groups (process_topic_item id w item) = w_groups (process_topic_item id w' item)
  /\ w_blacklist (process_topic_item id w item)
     = w_blacklist (process_topic_item id w' item).
Proof.
  intros Hb Hg Hl. unfold process_topic_item. rewrite Hb, Hg, Hl.
  destruct (deleted item).
  - destruct (w_backends w' !! key item) as [be|]; [|auto].
    destruct (FindAndRemove _ _). cbn. auto.
  - destruct (value item) as [be_desc|]; [|auto].
    destruct (bool_decide _); [auto|]. destruct (bool_decide _); [auto|].
    destruct (w_backends w' !! key item) as [existing|]; [|cbn; auto].
    destruct (FindAndRemove _ _). cbn. auto.
Qed.

Lemma process_topic_items_members (id : string) (items : list TTopicItem) :
  forall w w' : Working,
    w_backends w = w_backends w' -> w_groups w = w_groups w' ->
    w_blacklist w = w_blacklist w' ->
    w_backends (foldl (process_topic_item id) w items)
    = w_backends (foldl (process_topic_item id) w' items)
    /\ w_groups (foldl (process_topic_item id) w items)
       = w_groups (foldl (process_topic_item id) w' items)
    /\ w_blacklist (foldl (process_topic_item id) w items)
       = w_blacklist (foldl (process_topic_item id) w' items).
Proof.
  induction items as [|item items IH]; intros w w' Hb Hg Hl; [auto|].
  cbn [foldl].
  destruct (process_topic_item_members id w w' item Hb Hg Hl) as (Hb' & Hg' & Hl').
  apply IH; assumption.
Qed.

Lemma blacklist_maintenance_members (now : Z) (w w' : Working) :
  w_backends w = w_backends w' -> w_groups w = w_groups w' ->
  w_blacklist w = w_blacklist w' ->
  w_backends (blacklist_maintenance probation_timeout now w)
  = w_backends (blacklist_maintenance probation_timeout now w')
  /\ w_groups (blacklist_maintenance probation_timeout now w)
     = w_groups (blacklist_maintenance probation_timeout now w')
  /\ w_blacklist (blacklist_maintenance probation_timeout now w)
     = w_blacklist (blacklist_maintenance probation_timeout now w').
Proof.
  intros Hb Hg Hl. unfold blacklist_maintenance. rewrite Hb, Hg, Hl.
  destruct (Maintenance _ _ _). cbn. auto.
Qed.

(** The state the call builds, whatever the flag it starts with. *)
Lemma new_state_members (id : string) (local : option TBackendDescriptor) (now : Z)
    (needs_maintenance : bool) (items : list TTopicItem) (new_local : option TBackendDescriptor)
    (new_version : Z) (w0 w0' : Working) :
  w_backends w0 = w_backends w0' -> w_groups w0 = w_groups w0' ->
  w_blacklist w0 = w_blacklist w0' ->
  let built w0 :=
    let w1 := foldl (process_topic_item id) w0 items in
    let w2 := if needs_maintenance
              then blacklist_maintenance probation_timeout now w1 else w1 in
    let state2 := {| local_be_desc := new_local;
                     current_backends := w_backends w2;
                     executor_groups_ := w_groups w2;
                     executor_blacklist := w_blacklist w2;
                     version := new_version |} in
    let applies :=
      match local with
      | Some l => NeedsLocalBackendUpdate id state2 local
      | None => false
      end in
    let w3 := match local with
              | Some l => if applies then apply_local_backend id l w2 else w2
              | None => w2
              end in
    {| local_be_desc := new_local;
       current_backends := w_backends w3;
       executor_groups_ := w_groups w3;
       executor_blacklist := w_blacklist w3;
       version := new_version |} in
  built w0 = built w0'.
Proof.
  intros Hb Hg Hl. cbv zeta.
  destruct (process_topic_items_members id items w0 w0' Hb Hg Hl) as (Hb1 & Hg1 & Hl1).
  set (w1 := foldl (process_topic_item id) w0 items) in *.
  set (w1' := foldl (process_topic_item id) w0' items) in *.
  assert (H2 : let w2 := if needs_maintenance
                         then blacklist_maintenance probation_timeout now w1 else w1 in
               let w2' := if needs_maintenance
                          then blacklist_maintenance probation_timeout now w1' else w1' in
               w_backends w2 = w_backends w2' /\ w_groups w2 = w_groups w2'
               /\ w_blacklist w2 = w_blacklist w2').
  { destruct needs_maintenance; cbv zeta;
      [apply blacklist_maintenance_members; assumption|auto]. }
  cbv zeta in H2.
  set (w2 := if needs_maintenance then _ else w1) in *.
  set (w2' := if needs_maintenance then _ else w1') in *.
  destruct H2 as (Hb2 & Hg2 & Hl2). rewrite Hb2, Hg2, Hl2.
  destruct local as [l|]; [|rewrite Hb2, Hg2, Hl2; reflexivity].
  destruct (NeedsLocalBackendUpdate _ _ _); [|rewrite Hb2, Hg2, Hl2; reflexivity].
  unfold apply_local_backend. cbn. rewrite Hb2, Hg2, Hl2. reflexivity.
Qed.

(** An update to the membership topic that finds a snapshot to start from
    returns. *)
Lemma UpdateMembership_returns (env : UpdateEnv) (deltas : gmap string TTopicDelta)
    (updates : list TTopicDelta) (m : ClusterMembershipMgr) (base : Snapshot) :
  base_snapshot m = Some base ->
  exists r, UpdateMembership env deltas updates m = Some r.
Proof.
  intros Hb. unfold CMM.UpdateMembership. rewrite Hb.
  destruct (deltas !! IMPALA_MEMBERSHIP_TOPIC) as [update|]; [|eexists; reflexivity].
  cbv zeta. destruct (_ && _ && _ && _); [eexists; reflexivity|].
  destruct (match env_local_be_desc env with Some _ => _ | None => _ end) as [w3 ups].
  destruct (env_ss_is_recovering env); eexists; reflexivity.
Qed.

(** X17. While the statestore subscriber is in its grace period after a
    recovery, [UpdateMembership] publishes nothing: readers keep the
    snapshot they had, and neither the local server nor the frontend is
    told. The state the call builds is kept in [recovering_membership_]:
    it is the very snapshot that the same call would publish were the
    grace period over. The call builds none, and changes nothing, only
    when the topic is not in the update, or the update is an empty delta
    and neither the local backend nor the blacklist needs attention. *)
Theorem recovering_update_is_held_back (env : UpdateEnv)
    (deltas : gmap string TTopicDelta) (updates : list TTopicDelta)
    (m : ClusterMembershipMgr) (r : UpdateResult) :
  env_ss_is_recovering env = true ->
  UpdateMembership env deltas updates m = Some r ->
  GetSnapshot (ur_mgr r) = GetSnapshot m
  /\ published (ur_mgr r) = published m
  /\ ur_notified_local_server r = false
  /\ ur_updated_frontend r = false
  /\ match deltas !! IMPALA_MEMBERSHIP_TOPIC with
     | None => r = unchanged m updates
     | Some update =>
         exists base,
           base_snapshot m = Some base
           /\ if is_delta update && bool_decide (topic_entries update = [])
                 && negb (NeedsLocalBackendUpdate (local_backend_id_ m) base
                            (env_local_be_desc env))
                 && negb (NeedsMaintenance (env_now env) (executor_blacklist base))
              then r = unchanged m updates
              else exists r' new_state,
                  UpdateMembership (after_grace_period env) deltas updates m = Some r'
                  /\ GetSnapshot (ur_mgr r') = Some new_state
                  /\ published (ur_mgr r') = published m ++ [new_state]
                  /\ recovering_membership_ (ur_mgr r) = Some new_state
     end.
Proof.
  intros Hrec H. unfold GetSnapshot.
  destruct (deltas !! IMPALA_MEMBERSHIP_TOPIC) as [update|] eqn:Hu.
  2:{ unfold CMM.UpdateMembership in H. rewrite Hu in H. injection H as <-.
      cbn. auto 10. }
  destruct (base_snapshot m) as [base|] eqn:Hb.
  2:{ unfold CMM.UpdateMembership in H. rewrite Hu, Hb in H. discriminate. }
  pose proof (UpdateMembership_cases env deltas updates m r update base Hu Hb H) as C.
  cbv zeta in C.
  destruct C as [(-> & C1 & C2 & C3 & C4)|[(_ & H1 & H2 & H3 & H4 & H5)|(Hn & _)]];
    [| |congruence].
  - cbn. repeat (split; [reflexivity|]). exists base. split; [reflexivity|].
    rewrite C1, C3, C4. rewrite bool_decide_eq_true_2 by exact C2. reflexivity.
  - split; [exact H1|]. split; [exact H3|]. split; [exact H4|]. split; [exact H5|].
    exists base. split; [reflexivity|].
    destruct (_ && _ && _ && _) eqn:Hskip.
    { (* the call returns early *)
      unfold CMM.UpdateMembership in H. rewrite Hu, Hb in H. cbv zeta in H.
      rewrite Hrec in H. cbn [negb] in H. rewrite andb_false_r in H. cbn [negb] in H.
      rewrite andb_true_r in H. rewrite Hskip in H. injection H as <-. reflexivity. }
    destruct (UpdateMembership_returns (after_grace_period env) deltas updates m base Hb)
      as [r' Hr'].
    pose proof (UpdateMembership_cases (after_grace_period env) deltas updates m r'
                  update base Hu Hb Hr') as C'.
    cbv zeta in C'. cbn [after_grace_period env_local_be_desc env_now
                          env_ss_is_recovering] in C'.
    destruct C' as [(_ & C1 & C2 & C3 & C4)|[(Hn & _)|(_ & G1 & G2 & G3 & G4)]];
      [|discriminate|].
    { rewrite C1, C3, C4, bool_decide_eq_true_2 in Hskip by exact C2. discriminate. }
    exists r'. eexists. split; [exact Hr'|]. split; [exact G1|]. split; [exact G3|].
    rewrite H2. f_equal.
    set (start := if is_delta update then base else empty_Snapshot).
    exact (new_state_members (local_backend_id_ m) (env_local_be_desc env) (env_now env)
             (NeedsMaintenance (env_now env) (executor_blacklist base))
             (topic_entries update)
             (match env_local_be_desc env with
              | Some l => Some l
              | None => local_be_desc start
              end)
             (version start + 1)
             {| w_backends := current_backends start;
                w_groups := executor_groups_ start;
                w_blacklist := executor_blacklist start;
                w_update_local_server :=
                  if is_delta update
                  then bool_decide (recovering_membership_ m <> None)
                       && negb (env_ss_is_recovering env)
                  else true |}
             {| w_backends := current_backends start;
                w_groups := executor_groups_ start;
                w_blacklist := executor_blacklist start;
                w_update_local_server :=
                  if is_delta update
                  then bool_decide (recovering_membership_ m <> None) && negb false
                  else true |}
             eq_refl eq_refl eq_refl).
Qed.

(** X18. The first update after the grace period hands the recovering snapshot
    over: with a snapshot waiting in [recovering_membership_] and the
    statestore out of recovery, a delta update to the membership topic,
    even an empty one, is never skipped. The call publishes a snapshot
    numbered one above the recovering one, clears
    [recovering_membership_], and tells the local server and the
    frontend. *)
Theorem recovery_hand_over (env : UpdateEnv) (deltas : gmap string TTopicDelta)
    (updates : list TTopicDelta) (m : ClusterMembershipMgr) (r : UpdateResult)
    (update : TTopicDelta) (recovering : Snapshot) :
  deltas !! IMPALA_MEMBERSHIP_TOPIC = Some update ->
  is_delta update = true ->
  recovering_membership_ m = Some recovering ->
  env_ss_is_recovering env = false ->
  UpdateMembership env deltas updates m = Some r ->
  exists new_state,
    GetSnapshot (ur_mgr r) = Some new_state
    /\ published (ur_mgr r) = published m ++ [new_state]
    /\ version new_state = version recovering + 1
    /\ recovering_membership_ (ur_mgr r) = None
    /\ ur_notified_local_server r = true
    /\ ur_updated_frontend r = true.
Proof.
  intros Hu Hd Hrec Hss H.
  assert (Hb : base_snapshot m = Some recovering)
    by (unfold base_snapshot; rewrite Hrec; reflexivity).
  unfold CMM.UpdateMembership in H. rewrite Hu, Hb, Hd, Hrec, Hss in H.
  rewrite (bool_decide_eq_true_2 (Some recovering <> None)) in H by discriminate.
  cbn [negb andb] in H. rewrite andb_false_r in H. cbn [andb] in H.
  cbv zeta in H.
  set (w0 := {| w_backends := current_backends recovering |}) in H.
  set (w1 := foldl (process_topic_item (local_backend_id_ m)) w0 (topic_entries update)) in H.
  assert (F1 : w_update_local_server w1 = true)
    by (apply process_topic_items_flag; reflexivity).
  set (w2 := if NeedsMaintenance _ _ then _ else w1) in H.
  assert (F2 : w_update_local_server w2 = true).
  { unfold w2. destruct (NeedsMaintenance _ _); [|exact F1].
    destruct (blacklist_maintenance_frame (env_now env) w1) as (_ & -> & _). exact F1. }
  destruct (env_local_be_desc env) as [l|].
  - destruct (NeedsLocalBackendUpdate _ _ (Some l)) in H; injection H as <-;
      eexists; cbn; auto 10.
  - injection H as <-. eexists. cbn. auto 10.
Qed.

(** ** The local backend *)

(** X19. Once the local backend has started, every update for the membership
    topic leaves the writers' snapshot with the local backend registered
    under the manager's id and with its current [is_quiescing] flag, so
    that it needs no further update. When the call had to put it there, it
    also queues the descriptor for the statestore. *)
Theorem local_backend_is_registered (env : UpdateEnv)
    (deltas : gmap string TTopicDelta) (updates : list TTopicDelta)
    (m : ClusterMembershipMgr) (r : UpdateResult) (update : TTopicDelta)
    (l : TBackendDescriptor) :
  deltas !! IMPALA_MEMBERSHIP_TOPIC = Some update ->
  env_local_be_desc env = Some l ->
  UpdateMembership env deltas updates m = Some r ->
  exists state,
    base_snapshot (ur_mgr r) = Some state
    /\ NeedsLocalBackendUpdate (local_backend_id_ m) state (Some l) = false
    /\ (exists be, current_backends state !! local_backend_id_ m = Some be
                   /\ is_quiescing be = is_quiescing l)
    /\ (ur_subscriber_topic_updates r = updates
        \/ ur_subscriber_topic_updates r
           = updates ++ [local_backend_update (local_backend_id_ m) l]
           /\ current_backends state !! local_backend_id_ m = Some l).
Proof.
  intros Hu Hl H.
  assert (Hreg : forall state,
            NeedsLocalBackendUpdate (local_backend_id_ m) state (Some l) = false ->
            exists be, current_backends state !! local_backend_id_ m = Some be
                       /\ is_quiescing be = is_quiescing l).
  { intros state Hn. unfold NeedsLocalBackendUpdate in Hn.
    destruct (local_be_desc state); [|discriminate].
    destruct (current_backends state !! local_backend_id_ m) as [be|]; [|discriminate].
    exists be. split; [reflexivity|].
    apply negb_false_iff, eqb_prop in Hn. exact Hn. }
  destruct (base_snapshot m) as [base|] eqn:Hb.
  2:{ unfold CMM.UpdateMembership in H. rewrite Hu, Hb in H. discriminate. }
  unfold CMM.UpdateMembership in H. rewrite Hu, Hb, Hl in H.
  destruct (_ && _ && _ && _) eqn:Hskip.
  { injection H as <-. cbn [ur_mgr unchanged ur_subscriber_topic_updates].
    apply andb_true_iff in Hskip as [Hskip _].
    apply andb_true_iff in Hskip as [Hskip _].
    apply andb_true_iff in Hskip as [_ Hn]. apply negb_true_iff in Hn.
    exists base. split; [exact Hb|]. split; [exact Hn|].
    split; [apply Hreg; exact Hn|left; reflexivity]. }
  cbv zeta in H.
  match type of H with
  | (let (_, _) := (if ?c then _ else _) in _) = _ => destruct c eqn:E
  end; cbv beta iota zeta in H.
  - (* the local backend is put in *)
    assert (Hn : forall w v,
              NeedsLocalBackendUpdate (local_backend_id_ m)
                {| local_be_desc := Some l;
                   current_backends :=
                     w_backends (apply_local_backend (local_backend_id_ m) l w);
                   executor_groups_ :=
                     w_groups (apply_local_backend (local_backend_id_ m) l w);
                   executor_blacklist :=
                     w_blacklist (apply_local_backend (local_backend_id_ m) l w);
                   version := v |} (Some l) = false).
    { intros w v. unfold NeedsLocalBackendUpdate. cbn.
      rewrite lookup_insert_eq. destruct (is_quiescing l); reflexivity. }
    destruct (env_ss_is_recovering env); injection H as <-;
      eexists; (split; [reflexivity|]); (split; [apply Hn|]);
      (split; [apply Hreg, Hn|right; split; [reflexivity|apply lookup_insert_eq]]).
  - destruct (env_ss_is_recovering env); injection H as <-;
      eexists; (split; [reflexivity|]); (split; [exact E|]);
      (split; [apply Hreg; exact E|left; reflexivity]).
Qed.

(** ** Full updates and deltas *)

(** X20. A full (non-delta) update starts from a fresh snapshot: the state it
    builds has an empty blacklist, and holds no backend but those the
    update itself lists (live, with an IP address, under another id than
    the manager's) and the local one. What the manager knew before is
    forgotten. *)
Theorem full_update_starts_afresh (env : UpdateEnv)
    (deltas : gmap string TTopicDelta) (updates : list TTopicDelta)
    (m : ClusterMembershipMgr) (r : UpdateResult) (update : TTopicDelta) :
  deltas !! IMPALA_MEMBERSHIP_TOPIC = Some update ->
  is_delta update = false ->
  UpdateMembership env deltas updates m = Some r ->
  exists state,
    base_snapshot (ur_mgr r) = Some state
    /\ version state = version empty_Snapshot + 1
    /\ executor_blacklist state = []
    /\ forall k be,
         current_backends state !! k = Some be ->
         (k = local_backend_id_ m /\ env_local_be_desc env = Some be)
         \/ exists item, item ∈ topic_entries update /\ key item = k
                         /\ deleted item = false /\ value item = Some be
                         /\ k <> local_backend_id_ m /\ ip_address be <> "".
Proof.
  intros Hu Hd H.
  destruct (base_snapshot m) as [base|] eqn:Hb.
  2:{ unfold CMM.UpdateMembership in H. rewrite Hu, Hb in H. discriminate. }
  pose proof (UpdateMembership_cases env deltas updates m r update base Hu Hb H) as HC.
  cbv zeta in HC. rewrite Hd in HC.
  set (w0 := {| w_backends := current_backends empty_Snapshot |}) in HC.
  set (w1 := foldl (process_topic_item (local_backend_id_ m)) w0 (topic_entries update))
    in HC.
  set (w2 := if NeedsMaintenance _ _ then _ else w1) in HC.
  assert (B1 : w_blacklist w1 = [])
    by (apply process_topic_items_blacklist_nil; reflexivity).
  assert (B2 : w_blacklist w2 = [] /\ w_backends w2 = w_backends w1).
  { unfold w2. destruct (NeedsMaintenance _ _); [|split; [exact B1|reflexivity]].
    destruct (blacklist_maintenance_frame (env_now env) w1) as (-> & _ & Hbl).
    split; [apply Hbl; exact B1|reflexivity]. }
  destruct B2 as [B2 K2].
  assert (K1 : forall k be, w_backends w1 !! k = Some be ->
            exists item, item ∈ topic_entries update /\ key item = k
                         /\ deleted item = false /\ value item = Some be
                         /\ k <> local_backend_id_ m /\ ip_address be <> "").
  { intros k be Hk. apply process_topic_items_source in Hk as [Hk|Hk]; [|exact Hk].
    cbn in Hk. rewrite lookup_empty in Hk. discriminate. }
  set (w3 := match env_local_be_desc env with Some _ => _ | None => w2 end) in HC.
  assert (B3 : w_blacklist w3 = []
               /\ forall k be, w_backends w3 !! k = Some be ->
                    (k = local_backend_id_ m /\ env_local_be_desc env = Some be)
                    \/ w_backends w1 !! k = Some be).
  { unfold w3. destruct (env_local_be_desc env) as [l|];
      [|split; [exact B2|intros k be Hk; right; rewrite <- K2; exact Hk]].
    destruct (NeedsLocalBackendUpdate _ _ _);
      [|split; [exact B2|intros k be Hk; right; rewrite <- K2; exact Hk]].
    split; [exact B2|]. intros k be. cbn [w_backends apply_local_backend].
    destruct (decide (k = local_backend_id_ m)) as [->|Hne].
    - rewrite lookup_insert_eq. intros [= <-]. left. split; reflexivity.
    - rewrite lookup_insert_ne by congruence. rewrite K2. intros Hk. right. exact Hk. }
  destruct B3 as [B3 K3].
  assert (Hkeys : forall k be, w_backends w3 !! k = Some be ->
            (k = local_backend_id_ m /\ env_local_be_desc env = Some be)
            \/ exists item, item ∈ topic_entries update /\ key item = k
                            /\ deleted item = false /\ value item = Some be
                            /\ k <> local_backend_id_ m /\ ip_address be <> "").
  { intros k be Hk. apply K3 in Hk as [Hk|Hk]; [left; exact Hk|right; apply K1; exact Hk]. }
  destruct HC as [(_ & Hn & _)|[(_ & _ & H2 & _)|(_ & H1 & H2 & _)]];
    [discriminate| |];
    eexists; (split; [unfold base_snapshot; rewrite ?H2, ?H1; reflexivity|]);
    cbn [version executor_blacklist current_backends]; auto.
Qed.

(** X21. A delta update leaves alone what it does not name: a backend whose id
    is in no entry of the update, and is not the manager's own, is in the
    writers' snapshot afterwards exactly if it was before, with the same
    descriptor. *)
Theorem delta_update_keeps_other_backends (env : UpdateEnv)
    (deltas : gmap string TTopicDelta) (updates : list TTopicDelta)
    (m : ClusterMembershipMgr) (r : UpdateResult) (update : TTopicDelta)
    (base : Snapshot) (k : string) :
  deltas !! IMPALA_MEMBERSHIP_TOPIC = Some update ->
  is_delta update = true ->
  base_snapshot m = Some base ->
  Forall (fun item => key item <> k) (topic_entries update) ->
  k <> local_backend_id_ m ->
  UpdateMembership env deltas updates m = Some r ->
  exists state,
    base_snapshot (ur_mgr r) = Some state
    /\ current_backends state !! k = current_backends base !! k.
Proof.
  intros Hu Hd Hb Hk Hid H.
  pose proof (UpdateMembership_cases env deltas updates m r update base Hu Hb H) as HC.
  cbv zeta in HC. rewrite Hd in HC.
  set (w0 := {| w_backends := current_backends base |}) in HC.
  set (w1 := foldl (process_topic_item (local_backend_id_ m)) w0 (topic_entries update))
    in HC.
  set (w2 := if NeedsMaintenance _ _ then _ else w1) in HC.
  assert (K1 : w_backends w1 !! k = current_backends base !! k)
    by (apply process_topic_items_frame; exact Hk).
  assert (K2 : w_backends w2 = w_backends w1).
  { unfold w2. destruct (NeedsMaintenance _ _); [|reflexivity].
    destruct (blacklist_maintenance_frame (env_now env) w1) as (-> & _). reflexivity. }
  set (w3 := match env_local_be_desc env with Some _ => _ | None => w2 end) in HC.
  assert (K3 : w_backends w3 !! k = current_backends base !! k).
  { unfold w3. destruct (env_local_be_desc env) as [l|]; [|rewrite K2; exact K1].
    destruct (NeedsLocalBackendUpdate _ _ _); [|rewrite K2; exact K1].
    cbn [w_backends apply_local_backend].
    rewrite lookup_insert_ne by congruence. rewrite K2. exact K1. }
  destruct HC as [(-> & _)|[(_ & _ & H2 & _)|(_ & H1 & H2 & _)]].
  - exists base. split; [exact Hb|reflexivity].
  - eexists. split; [unfold base_snapshot; rewrite H2; reflexivity|exact K3].
  - eexists. split; [unfold base_snapshot; rewrite H2, H1; reflexivity|exact K3].
Qed.

(** ** Blacklisting *)

Lemma find_filter_negb {A} (p : A -> bool) (l : list A) :
  List.find p (List.filter (fun x => negb (p x)) l) = None.
Proof.
  induction l as [|x l IH]; [reflexivity|]. cbn [List.filter].
  destruct (p x) eqn:E; cbn [negb]; [exact IH|].
  cbn [List.find]. rewrite E. exact IH.
Qed.

Lemma LookUpBackendDesc_RemoveExecutor (be_desc : TBackendDescriptor) (g : ExecutorGroup) :
  LookUpBackendDesc (RemoveExecutor be_desc g) (address be_desc) = None.
Proof. unfold LookUpBackendDesc, RemoveExecutor. cbn. apply find_filter_negb. Qed.

Lemma on_group_RemoveExecutor (be_desc : TBackendDescriptor) (group : TExecutorGroupDesc)
    (groups : gmap string ExecutorGroup) (n : string) :
  n = name group \/ group_lacks (address be_desc) groups n ->
  group_lacks (address be_desc) (on_group (RemoveExecutor be_desc) group groups) n.
Proof.
  intros H. unfold group_lacks, on_group.
  destruct (decide (n = name group)) as [->|Hne].
  - destruct (groups !! name group); rewrite lookup_insert_eq;
      apply LookUpBackendDesc_RemoveExecutor.
  - destruct H as [H|H]; [contradiction|].
    destruct (groups !! name group); rewrite lookup_insert_ne by congruence; exact H.
Qed.

Lemma on_groups_of_RemoveExecutor (be_desc : TBackendDescriptor)
    (l : list TExecutorGroupDesc) (groups : gmap string ExecutorGroup) (n : string) :
  n ∈ name <$> l \/ group_lacks (address be_desc) groups n ->
  group_lacks (address be_desc)
    (foldl (fun gs group => on_group (RemoveExecutor be_desc) group gs) groups l) n.
Proof.
  revert groups. induction l as [|group l IH]; intros groups H; cbn [foldl].
  - destruct H as [H|H]; [|exact H]. cbn in H. apply elem_of_nil in H. contradiction.
  - apply IH. destruct H as [H|H].
    + cbn in H. apply elem_of_cons in H as [H|H]; [|left; exact H].
      right. apply on_group_RemoveExecutor. left. exact H.
    + right. apply on_group_RemoveExecutor. right. exact H.
Qed.

Lemma IsBlacklisted_Blacklist (now : Z) (be_desc : TBackendDescriptor)
    (bl : ExecutorBlacklist) :
  IsBlacklisted be_desc (Blacklist blacklist_timeout now be_desc bl) = true.
Proof.
  unfold IsBlacklisted, Blacklist.
  assert (Hself : forall d, entry_for be_desc
                    {| entry_be_desc := be_desc; entry_state := BLACKLISTED;
                       entry_deadline := d |} = true).
  { intros d. unfold entry_for, same_address. cbn. apply bool_decide_eq_true_2.
    reflexivity. }
  destruct (List.find (entry_for be_desc) bl) as [old|] eqn:Hf.
  - destruct (decide (entry_state old = BLACKLISTED)) as [Hb|Hb].
    + rewrite Hf. apply bool_decide_eq_true_2. exact Hb.
    + clear Hb. induction bl as [|x bl IH]; [discriminate|].
      cbn [List.find] in Hf. cbn [fmap list_fmap List.find].
      destruct (entry_for be_desc x) eqn:Ex.
      * rewrite Hself. reflexivity.
      * rewrite Ex. apply IH. exact Hf.
  - induction bl as [|x bl IH]; cbn [app List.find].
    + rewrite Hself. reflexivity.
    + cbn [List.find] in Hf. destruct (entry_for be_desc x); [discriminate|].
      apply IH. exact Hf.
Qed.

(** X22. What [BlacklistExecutor] does to the snapshot writers work on. Either
    nothing at all--always so for the local backend (same IP address and
    port), and for an executor that is in none of its groups--or the
    executor is blacklisted and gone from every one of its groups, while
    the backends, the local descriptor and the version stay. *)
Theorem BlacklistExecutor_effect (now : Z) (be_desc : TBackendDescriptor)
    (m m' : ClusterMembershipMgr) :
  BlacklistExecutor true now be_desc m = Some m' ->
  (forall current l,
     current_membership_ m = Some current -> local_be_desc current = Some l ->
     ip_address be_desc = ip_address l ->
     port (address be_desc) = port (address l) -> m' = m)
  /\ (m' = m
      \/ exists base state,
           base_snapshot m = Some base
           /\ base_snapshot m' = Some state
           /\ exists_in_groups be_desc base = true
           /\ exists_in_groups be_desc state = false
           /\ IsBlacklisted be_desc (executor_blacklist state) = true
           /\ current_backends state = current_backends base
           /\ local_be_desc state = local_be_desc base
           /\ version state = version base).
Proof.
  unfold CMM.BlacklistExecutor. cbn [negb]. intros H.
  destruct (current_membership_ m) as [current|] eqn:Hc; [|discriminate].
  destruct (local_be_desc current) as [l|] eqn:Hl; [|discriminate].
  destruct (bool_decide (ip_address be_desc = ip_address l)
            && bool_decide (port (address be_desc) = port (address l))) eqn:Hlocal.
  { injection H as <-. split; [reflexivity|left; reflexivity]. }
  split.
  { intros current' l' [= <-] Hl' Hip Hport. rewrite Hl in Hl'. injection Hl' as <-.
    rewrite !bool_decide_eq_true_2 in Hlocal by assumption. discriminate. }
  assert (Hbase : base_snapshot m = Some (default current (recovering_membership_ m))).
  { unfold base_snapshot. rewrite Hc. destruct (recovering_membership_ m); reflexivity. }
  set (base := default current (recovering_membership_ m)) in *.
  destruct (exists_in_groups be_desc base) eqn:Hin; cbn [negb] in H;
    [|injection H as <-; left; reflexivity].
  right. exists base.
  assert (Hgone : forall v locald backends bl,
            exists_in_groups be_desc
              {| local_be_desc := locald; current_backends := backends;
                 executor_groups_ :=
                   on_groups_of RemoveExecutor be_desc (executor_groups_ base);
                 executor_blacklist := bl; version := v |} = false).
  { intros v locald backends bl. unfold exists_in_groups. cbn [executor_groups_].
    apply not_true_is_false. intros Hex. apply existsb_exists in Hex as (group & Hg & Hex).
    pose proof (on_groups_of_RemoveExecutor be_desc (executor_groups be_desc)
                  (executor_groups_ base) (name group)) as Hlack.
    unfold group_lacks in Hlack. unfold on_groups_of in Hex.
    destruct (foldl _ _ _ !! name group) as [g|]; [|discriminate].
    rewrite Hlack in Hex.
    - apply bool_decide_eq_true in Hex. apply Hex. reflexivity.
    - left. apply list_elem_of_fmap. exists group. split; [reflexivity|].
      apply list_elem_of_In. exact Hg. }
  destruct (recovering_membership_ m) as [rec|] eqn:Hrec; injection H as <-;
    eexists; (split; [exact Hbase|]);
    (split; [unfold base_snapshot; cbn; rewrite ?Hrec; reflexivity|]);
    (split; [exact Hin|]); (split; [apply Hgone|]);
    (split; [apply IsBlacklisted_Blacklist|]); cbn; auto.
Qed.

End WithTimeouts.

(** ** Scenarios *)

(** Delta add/remove: two deltas, the second deletes [A]. *)
Example delta_add_remove :
  (m ← run_ms [CallUpdateMembership (env_no_local 0)
                   (topic_update true [put "A" A; put "B" B]);
                 CallUpdateMembership (env_no_local 1) (topic_update true [del "A"])]
        (new_ClusterMembershipMgr "local");
   s ← GetSnapshot m;
   Some (hosts_of s, fst <$> map_to_list (current_backends s), version s, consistent s))
  = Some ([("g1", ["hostB"]); ("g2", ["hostB"])], ["B"], 2, true).
Proof. vm_compute. reflexivity. Qed.

(** Blacklist, then the statestore catches up. *)
Example blacklist_then_delete :
  (m1 ← run_ms [CallUpdateMembership (env_local 0)
                    (topic_update true [put "A" A; put "B" (backend "hostB" true false [g1])]);
                  CallBlacklistExecutor true 1 A]
         (new_ClusterMembershipMgr "local");
   s1 ← GetSnapshot m1;
   r ← UpdateMembership 5000 (env_local 2) (topic_update true [del "A"]) [] m1;
   s2 ← GetSnapshot (ur_mgr r);
   Some (hosts_of s1, IsBlacklisted A (executor_blacklist s1),
         hosts_of s2, executor_blacklist s2, ur_notified_local_server r,
         consistent s1 && consistent s2))
  = Some ([("g1", ["hostB"])], true, [("g1", ["hostB"])], [], true, true).
Proof. vm_compute. reflexivity. Qed.

(** C1, at a failing input. Backend ["A"] registers as an executor of
    [g1]; the next delta carries, under the same key, its descriptor with
    [is_executor = false] (the daemon came back as a coordinator). The
    update branch overwrites the entry in [current_backends] and leaves
    [g1] alone, so the snapshot that is published has an executor in [g1]
    whose entry in [current_backends] says it is none: [CheckConsistency],
    which the code asserts after this very item (line 287), is false on
    it. The snapshot published before was consistent. *)
Lemma role_change_breaks_consistency :
  (m ← run_ms [CallUpdateMembership (env_no_local 0) (topic_update true [put "A" A]);
                 CallUpdateMembership (env_no_local 1)
                   (topic_update true [put "A" (backend "hostA" false false [g1])])]
        (new_ClusterMembershipMgr "local");
   s ← GetSnapshot m;
   Some (consistent <$> published m, consistent s,
         is_executor <$> current_backends s !! "A",
         (fun g => is_executor <$> GetAllExecutorDescriptors g) <$> executor_groups_ s !! "g1"))
  = Some ([true; false], false, Some false, Some [true]).
Proof. vm_compute. reflexivity. Qed.

(** C2, at failing inputs. Two deltas are published with versions 1 and 2;
    the full update that follows starts from a fresh [Snapshot()] and is
    published with version 1 again. And the snapshot that
    [BlacklistExecutor] publishes (group [g1] without [A]) has the version
    of the one before it. *)
Lemma published_versions_not_increasing :
  (m ← run_ms [CallUpdateMembership (env_no_local 0) (topic_update true [put "A" A]);
                 CallUpdateMembership (env_no_local 1) (topic_update true [put "B" B]);
                 CallUpdateMembership (env_no_local 2)
                   (topic_update false [put "A" A; put "B" B])]
        (new_ClusterMembershipMgr "local");
   Some (version <$> published m))
  = Some [1; 2; 1]
  /\ (m ← run_ms [CallUpdateMembership (env_local 0) (topic_update true [put "A" A]);
                    CallBlacklistExecutor true 1 A]
           (new_ClusterMembershipMgr "local");
      Some (version <$> published m, hosts_of <$> published m))
     = Some ([1; 1], [[("g1", ["hostA"])]; [("g1", [])]]).
Proof. split; vm_compute; reflexivity. Qed.

Lemma GetSnapshot_never_null_witness :
  match run_ms [CallUpdateMembership (env_local 0) (topic_update true [put "A" A; put "B" B]);
                CallBlacklistExecutor true 1 A;
                CallUpdateMembership (env_local 2) (topic_update false [put "B" B])]
          (new_ClusterMembershipMgr "local") with
  | Some m => is_Some (GetSnapshot m)
  | None => False
  end.
Proof.
  destruct (run_ms _ (new_ClusterMembershipMgr "local")) as [m|] eqn:Hrun.
  - exact (proj2 (GetSnapshot_never_null 12000 5000 "local" _ m Hrun)).
  - vm_compute in Hrun. discriminate Hrun.
Defined.

Lemma UpdateMembership_skips_witness :
  UpdateMembership 5000 (env_no_local 0) (topic_update true []) []
    (new_ClusterMembershipMgr "local")
  = Some (unchanged (new_ClusterMembershipMgr "local") []).
Proof.
  apply (proj2 (UpdateMembership_skips 5000 (env_no_local 0)
                  (topic_update true []) [] (new_ClusterMembershipMgr "local"))
           {| topic_name := IMPALA_MEMBERSHIP_TOPIC; is_delta := true;
              topic_entries := [] |} empty_Snapshot).
  - vm_compute. reflexivity.
  - reflexivity.
  - reflexivity.
  - reflexivity.
  - reflexivity.
  - left. reflexivity.
  - reflexivity.
Defined.

(** ** The further properties at work *)

Lemma recovering_update_is_held_back_witness :
  let m := new_ClusterMembershipMgr "local" in
  let deltas := topic_update true [put "a" A] in
  exists r,
    UpdateMembership 5000 (env_recovering 0) deltas [] m = Some r
    /\ GetSnapshot (ur_mgr r) = GetSnapshot m
    /\ published (ur_mgr r) = published m
    /\ ur_notified_local_server r = false
    /\ ur_updated_frontend r = false
    /\ exists r' new_state,
         UpdateMembership 5000 (after_grace_period (env_recovering 0)) deltas [] m
         = Some r'
         /\ GetSnapshot (ur_mgr r') = Some new_state
         /\ published (ur_mgr r') = published m ++ [new_state]
         /\ recovering_membership_ (ur_mgr r) = Some new_state.
Proof.
  intros m deltas.
  destruct (UpdateMembership 5000 (env_recovering 0) deltas [] m) as [r|] eqn:E.
  - exists r. split; [reflexivity|].
    destruct (recovering_update_is_held_back 5000 (env_recovering 0) deltas [] m r
                eq_refl E) as (H1 & H2 & H3 & H4 & H5).
    split; [exact H1|]. split; [exact H2|]. split; [exact H3|]. split; [exact H4|].
    assert (Hl : deltas !! IMPALA_MEMBERSHIP_TOPIC
                 = Some {| topic_name := IMPALA_MEMBERSHIP_TOPIC; is_delta := true;
                           topic_entries := [put "a" A] |})
      by (vm_compute; reflexivity).
    rewrite Hl in H5. destruct H5 as (base & Hb & H5).
    match type of H5 with
    | (if ?c then _ else _) => destruct c eqn:Hc
    end; [|exact H5].
    apply andb_true_iff in Hc as [Hc _]. apply andb_true_iff in Hc as [Hc _].
    vm_compute in Hc. discriminate Hc.
  - vm_compute in E. discriminate E.
Defined.

Lemma recovery_hand_over_witness :
  exists r new_state,
    UpdateMembership 5000 (env_no_local 0) (topic_update true []) [] mgr_recovering
    = Some r
    /\ GetSnapshot (ur_mgr r) = Some new_state
    /\ published (ur_mgr r) = published mgr_recovering ++ [new_state]
    /\ version new_state = version empty_Snapshot + 1
    /\ recovering_membership_ (ur_mgr r) = None
    /\ ur_notified_local_server r = true
    /\ ur_updated_frontend r = true.
Proof.
  destruct (UpdateMembership 5000 (env_no_local 0) (topic_update true []) []
              mgr_recovering) as [r|] eqn:E.
  - exists r.
    destruct (recovery_hand_over 5000 (env_no_local 0) (topic_update true []) []
                mgr_recovering r
                {| topic_name := IMPALA_MEMBERSHIP_TOPIC; is_delta := true;
                   topic_entries := [] |} empty_Snapshot)
      as (new_state & H); [reflexivity|reflexivity|reflexivity|reflexivity|exact E|].
    exists new_state. split; [reflexivity|exact H].
  - vm_compute in E. discriminate E.
Defined.

Lemma local_backend_is_registered_witness :
  exists r state,
    UpdateMembership 5000 (env_local 0) (topic_update true []) []
      (new_ClusterMembershipMgr "local") = Some r
    /\ base_snapshot (ur_mgr r) = Some state
    /\ NeedsLocalBackendUpdate "local" state (Some (backend "local" false false []))
       = false
    /\ (exists be, current_backends state !! "local" = Some be
                   /\ is_quiescing be = false)
    /\ (ur_subscriber_topic_updates r = []
        \/ ur_subscriber_topic_updates r
           = [] ++ [local_backend_update "local" (backend "local" false false [])]
           /\ current_backends state !! "local"
              = Some (backend "local" false false [])).
Proof.
  destruct (UpdateMembership 5000 (env_local 0) (topic_update true []) []
              (new_ClusterMembershipMgr "local")) as [r|] eqn:E.
  - exists r.
    destruct (local_backend_is_registered 5000 (env_local 0) (topic_update true []) []
                (new_ClusterMembershipMgr "local") r
                {| topic_name := IMPALA_MEMBERSHIP_TOPIC; is_delta := true;
                   topic_entries := [] |} (backend "local" false false []))
      as (state & H); [reflexivity|reflexivity|exact E|].
    exists state. split; [reflexivity|exact H].
  - vm_compute in E. discriminate E.
Defined.

Lemma full_update_starts_afresh_witness :
  exists r state,
    UpdateMembership 5000 (env_no_local 0) (topic_update false [put "b" B]) [] mgr_A
    = Some r
    /\ base_snapshot (ur_mgr r) = Some state
    /\ version state = version empty_Snapshot + 1
    /\ executor_blacklist state = []
    /\ forall k be,
         current_backends state !! k = Some be ->
         (k = local_backend_id_ mgr_A /\ env_local_be_desc (env_no_local 0) = Some be)
         \/ exists item, item ∈ [put "b" B] /\ key item = k
                         /\ deleted item = false /\ value item = Some be
                         /\ k <> local_backend_id_ mgr_A /\ ip_address be <> "".
Proof.
  destruct (UpdateMembership 5000 (env_no_local 0) (topic_update false [put "b" B]) []
              mgr_A) as [r|] eqn:E.
  - exists r.
    destruct (full_update_starts_afresh 5000 (env_no_local 0)
                (topic_update false [put "b" B]) [] mgr_A r
                {| topic_name := IMPALA_MEMBERSHIP_TOPIC; is_delta := false;
                   topic_entries := [put "b" B] |})
      as (state & H); [reflexivity|reflexivity|exact E|].
    exists state. split; [reflexivity|exact H].
  - vm_compute in E. discriminate E.
Defined.

Lemma delta_update_keeps_other_backends_witness :
  exists r state,
    UpdateMembership 5000 (env_no_local 1) (topic_update true [put "b" B; del "c"]) []
      mgr_A = Some r
    /\ base_snapshot (ur_mgr r) = Some state
    /\ current_backends state !! "a" = Some A.
Proof.
  destruct (UpdateMembership 5000 (env_no_local 1)
              (topic_update true [put "b" B; del "c"]) [] mgr_A) as [r|] eqn:E.
  - exists r.
    destruct (delta_update_keeps_other_backends 5000 (env_no_local 1)
                (topic_update true [put "b" B; del "c"]) [] mgr_A r
                {| topic_name := IMPALA_MEMBERSHIP_TOPIC; is_delta := true;
                   topic_entries := [put "b" B; del "c"] |}
                (default empty_Snapshot (base_snapshot mgr_A)) "a")
      as (state & H1 & H2);
      [reflexivity|reflexivity|vm_compute; reflexivity
      |repeat constructor; discriminate|discriminate|exact E|].
    exists state. split; [reflexivity|]. split; [exact H1|].
    rewrite H2. vm_compute. reflexivity.
  - vm_compute in E. discriminate E.
Defined.

Lemma BlacklistExecutor_effect_witness :
  exists m',
    BlacklistExecutor 12000 true 1 A mgr_local_A = Some m'
    /\ (forall current l,
          current_membership_ mgr_local_A = Some current ->
          local_be_desc current = Some l ->
          ip_address A = ip_address l ->
          port (address A) = port (address l) -> m' = mgr_local_A)
    /\ (m' = mgr_local_A
        \/ exists base state,
             base_snapshot mgr_local_A = Some base
             /\ base_snapshot m' = Some state
             /\ exists_in_groups A base = true
             /\ exists_in_groups A state = false
             /\ IsBlacklisted A (executor_blacklist state) = true
             /\ current_backends state = current_backends base
             /\ local_be_desc state = local_be_desc base
             /\ version state = version base).
Proof.
  destruct (BlacklistExecutor 12000 true 1 A mgr_local_A) as [m'|] eqn:E.
  - exists m'. split; [reflexivity|].
    exact (BlacklistExecutor_effect 12000 1 A mgr_local_A m' E).
  - vm_compute in E. discriminate E.
Defined.

(** Blacklisting [A] does change the snapshot here. *)
Example blacklist_A :
  (m' ← BlacklistExecutor 12000 true 1 A mgr_local_A;
   s ← GetSnapshot m';
   Some (hosts_of s, IsBlacklisted A (executor_blacklist s),
         fst <$> map_to_list (current_backends s)))
  = Some ([("g1", [])], true, ["a"; "local"]).
Proof. vm_compute. reflexivity. Qed.

End CMMProofs.
